(** * game-test: grid level, player mover, monsters and projectiles

    A shallow embedding of [src/level.js], [src/player.js], [src/monster.js]
    (classes [Monster] and [Projectile]) and the shooting handler of
    [src/main.js].

    Numbers.  JavaScript numbers are modelled as exact rationals ([Q]):
    NaN, the infinities and rounding error are outside the model.  The code
    never needs the value of a square root except to compare it with a
    constant, so [v.length() < c] is written on the squares (see
    [sqrt_lt], [sqrt_gt]).

    three.js.  Functions of three.js whose value is not rational arithmetic
    (normalisation, rotation by a quaternion, angles, ray/geometry
    intersection) are the fields of the class [Three]; every theorem holds
    for every implementation of them.

    Timers and randomness.  [setTimeout] callbacks are returned as data
    ([Timeout]) and run by [runTimeout]; the values of [Math.random()] are
    arguments. *)

From Stdlib Require Import List ZArith QArith Qround Qabs Lia Lqa Bool String Sorted
  Permutation.
Import ListNotations.

Local Open Scope Z_scope.
Local Open Scope Q_scope.

(** ** JavaScript base *)

(** Exceptions the embedded code can raise. *)
Inductive JsError : Type :=
| TypeError (msg : string).

Inductive result (A : Type) : Type :=
| Ok (a : A)
| Throw (e : JsError).
Arguments Ok {A} a.
Arguments Throw {A} e.

Definition isOk {A} (r : result A) : bool :=
  match r with Ok _ => true | Throw _ => false end.

(** [a < b] and [a <= b] on numbers, as booleans. *)
Definition Qltb (a b : Q) : bool := negb (Qle_bool b a).
Definition Qleb (a b : Q) : bool := Qle_bool a b.
Definition Qeqb (a b : Q) : bool := Qeq_bool a b.

Infix "<?" := Qltb (at level 70, no associativity) : Q_scope.
Infix "<=?" := Qleb (at level 70, no associativity) : Q_scope.

(** [Math.round]: the nearest integer, a tie going up ([Math.round(-2.5)] is
    [-2], [Math.round(2.5)] is [3]). *)
Definition Math_round (x : Q) : Z := Qfloor (x + (1 # 2)).

(** [Math.sqrt(s) < c] and [Math.sqrt(s) > c] for [0 <= s], on the squares. *)
Definition sqrt_lt (s c : Q) : bool := (0 <? c) && (s <? c * c).
Definition sqrt_gt (s c : Q) : bool := (c <? 0) || (c * c <? s).

(** ** THREE.Vector3 (the rational part) *)
Module Vector3.

Record t : Type := mk { x : Q; y : Q; z : Q }.

Definition zero : t := mk 0 0 0.
Definition add (a b : t) : t := mk (x a + x b) (y a + y b) (z a + z b).
Definition subVectors (a b : t) : t := mk (x a - x b) (y a - y b) (z a - z b).
Definition multiplyScalar (a : t) (s : Q) : t := mk (x a * s) (y a * s) (z a * s).
Definition negate (a : t) : t := mk (- x a) (- y a) (- z a).
Definition cross (a b : t) : t :=
  mk (y a * z b - z a * y b) (z a * x b - x a * z b) (x a * y b - y a * x b).
Definition lengthSq (a : t) : Q := x a * x a + y a * y a + z a * z a.
Definition distanceToSquared (a b : t) : Q := lengthSq (subVectors a b).

Definition setX (a : t) (v : Q) : t := mk v (y a) (z a).
Definition setY (a : t) (v : Q) : t := mk (x a) v (z a).
Definition setZ (a : t) (v : Q) : t := mk (x a) (y a) v.

End Vector3.

(** An [Object3D] of the scene graph.  [id] is the identity three.js gives
    every object (the target of [===]); [isMesh] is false for sprites,
    groups and lights. *)
Record Object3D : Type := mkObject3D {
  id : nat;
  isMesh : bool;
  objPosition : Vector3.t;
  scaleY : Q;
  colorHex : Z
}.

(** ** level.js *)

Module Cell.
Record t : Type := mk {
  type : string;
  height : Q;
  ceilHeight : Q;
  isWall : bool;
  hasItem : bool
}.
End Cell.

Inductive MonsterType : Type := imp | demon.

Record Spawn : Type := mkSpawn { spawnType : MonsterType; spawnX : Q; spawnZ : Q }.

Module Level.

Record t : Type := mk {
  cellSize : Q;
  grid : list (list Cell.t);
  rows : Z;
  cols : Z;
  monsterSpawns : list Spawn;
  levelGroup : list Object3D   (* levelGroup.children, filled by generate() *)
}.

(** The fields the constructor sets before it calls [_parseMap]. *)
Definition fresh : t := mk 4 [] 0 0 [] [].

(** The [switch] of [_parseMap] on one map entry; [None] is [undefined],
    read past the end of a row.  The second component is the spawn the
    case pushes. *)
Definition cellOfCode (val : option Z) : Cell.t * option MonsterType :=
  let cell := Cell.mk "floor" 0 4 false false in
  match val with
  | Some 1%Z => (Cell.mk "floor" 0 4 true false, None)
  | Some 0%Z => (Cell.mk "floor" 0 4 false false, None)
  | Some 2%Z => (Cell.mk "floor" 0 4 false true, None)
  | Some 3%Z => (Cell.mk "floor" (3 # 2) 4 false false, None)
  | Some 4%Z => (Cell.mk "floor" 3 4 false false, None)
  | Some 5%Z => (Cell.mk "floor" (-2) 4 false false, None)
  | Some 6%Z => (Cell.mk "floor" 0 4 false false, Some imp)
  | Some 7%Z => (Cell.mk "floor" 0 4 false false, Some demon)
  | _ => (cell, None)
  end.

(** The inner loop, [x] from [0] to [cols - 1], on row [z]. *)
Definition parseRow (cs : Q) (ncols : nat) (z : nat) (row : list Z)
  : list (Cell.t * option Spawn) :=
  map (fun x =>
         let (cell, sp) := cellOfCode (nth_error row x) in
         (cell,
          match sp with
          | Some ty => Some (mkSpawn ty (inject_Z (Z.of_nat x) * cs)
                                        (inject_Z (Z.of_nat z) * cs))
          | None => None
          end))
      (seq 0 ncols).

Definition spawnsOf (r : list (Cell.t * option Spawn)) : list Spawn :=
  flat_map (fun p => match snd p with Some s => [s] | None => [] end) r.

(** [_parseMap]: [mapData[0].length] throws on the empty array. *)
Definition _parseMap (this : t) (mapData : list (list Z)) : result t :=
  match mapData with
  | [] => Throw (TypeError "Cannot read properties of undefined (reading 'length')")
  | row0 :: _ =>
      let nrows := List.length mapData in
      let ncols := List.length row0 in
      let parsed :=
        map (fun z => parseRow (cellSize this) ncols z (nth z mapData []))
            (seq 0 nrows) in
      Ok (mk (cellSize this)
             (map (map fst) parsed)
             (Z.of_nat nrows)
             (Z.of_nat ncols)
             (monsterSpawns this ++ flat_map spawnsOf parsed)
             (levelGroup this))
  end.

(** [this.grid[gridZ][gridX]]. *)
Definition cellAt (this : t) (gridZ gridX : Z) : option Cell.t :=
  match nth_error (grid this) (Z.to_nat gridZ) with
  | Some row => nth_error row (Z.to_nat gridX)
  | None => None
  end.

Definition inGrid (this : t) (gridZ gridX : Z) : bool :=
  (0 <=? gridZ)%Z && (gridZ <? rows this)%Z && (0 <=? gridX)%Z && (gridX <? cols this)%Z.

(** In [isWall] and [getFloorHeight] the [None] branch is the read of a
    cell the grid does not have; it cannot be reached on a grid of
    [rows] by [cols] cells ([wf]), which is what [_parseMap] builds. *)
Definition isWall (this : t) (x z : Q) : bool :=
  let gridX := Math_round (x / cellSize this) in
  let gridZ := Math_round (z / cellSize this) in
  if inGrid this gridZ gridX then
    match cellAt this gridZ gridX with
    | Some c => Cell.isWall c
    | None => true
    end
  else true.

Definition getFloorHeight (this : t) (x z : Q) : Q :=
  let gridX := Math_round (x / cellSize this) in
  let gridZ := Math_round (z / cellSize this) in
  if inGrid this gridZ gridX then
    match cellAt this gridZ gridX with
    | Some c => Cell.height c
    | None => -100
    end
  else -100.

(** The cell size is positive and the grid is [rows] rows of [cols] cells
    each. *)
Definition wf (this : t) : Prop :=
  0 < cellSize this /\
  rows this = Z.of_nat (List.length (grid this)) /\
  Forall (fun row => cols this = Z.of_nat (List.length row)) (grid this).

(** All rows of a map have the same length. *)
Definition rectangular (mapData : list (list Z)) : Prop :=
  forall r1 r2, In r1 mapData -> In r2 mapData -> List.length r1 = List.length r2.

End Level.

(** ** three.js functions that are not rational arithmetic *)

Record Quaternion : Type := mkQuaternion { qx : Q; qy : Q; qz : Q; qw : Q }.

(** A [THREE.Raycaster] after [set(origin, direction)]; [far] is a length
    and is held by its square. *)
Record Raycaster : Type := mkRaycaster {
  origin : Vector3.t;
  rayDirection : Vector3.t;
  farSq : Q
}.

Class Three : Type := {
  (** [Vector3.normalize] *)
  normalize : Vector3.t -> Vector3.t;
  (** [Vector3.applyQuaternion] *)
  applyQuaternion : Vector3.t -> Quaternion -> Vector3.t;
  (** [Vector3.angleTo], in radians *)
  angleTo : Vector3.t -> Vector3.t -> Q;
  (** [object.raycast(raycaster, intersects)]: the distance and the point
      of every intersection of the ray with one object, within [far] *)
  raycast : Object3D -> Raycaster -> list (Q * Vector3.t)
}.

(** One entry of the array [Raycaster.intersectObjects] returns. *)
Record Hit : Type := mkHit {
  distance : Q;
  point : Vector3.t;
  object : Object3D
}.

(** [intersects.sort(ascSort)] with [ascSort(a, b) = a.distance - b.distance];
    [Array.prototype.sort] is stable: of two hits at one distance the one
    that came first in the array stays first.  [insertHit h l] puts [h],
    which came before everything in [l], in front of the first hit of [l]
    that is not nearer than [h]. *)
Fixpoint insertHit (h : Hit) (l : list Hit) : list Hit :=
  match l with
  | [] => [h]
  | h' :: l' => if distance h' <? distance h then h' :: insertHit h l' else h :: l
  end.

Fixpoint sortHits (l : list Hit) : list Hit :=
  match l with
  | [] => []
  | h :: l' => insertHit h (sortHits l')
  end.

Section WithThree.
Context `{Three}.

(** The intersections of the ray with each object in turn. *)
Definition intersectAll (rc : Raycaster) (objects : list Object3D) : list Hit :=
  flat_map (fun o => map (fun dp => mkHit (fst dp) (snd dp) o) (raycast o rc)) objects.

(** [Raycaster.intersectObjects(objects)]: every intersection, sorted by
    distance, the closest first. *)
Definition intersectObjects (rc : Raycaster) (objects : list Object3D) : list Hit :=
  sortHits (intersectAll rc objects).

End WithThree.

(** ** player.js *)

Module Player.

Record t : Type := mk {
  level : Level.t;
  isLocked : bool;            (* controls.isLocked *)
  position : Vector3.t;       (* controls.getObject().position *)
  quaternion : Quaternion;    (* controls.getObject().quaternion *)
  speed : Q;
  size : Q;
  height : Q;
  gravity : Q;
  jumpStrength : Q;
  stepHeight : Q;
  onGround : bool;
  moveForward : bool;
  moveBackward : bool;
  moveLeft : bool;
  moveRight : bool;
  velocity : Vector3.t;
  direction : Vector3.t
}.

(** The constructor; the weapon model, its bobbing and the key listeners
    are display and input and are left out. *)
Definition new (lvl : Level.t) (q : Quaternion) : t :=
  mk lvl false Vector3.zero q 10 (6 # 10) (16 # 10) 30 12 (11 # 10) false
     false false false false Vector3.zero Vector3.zero.

Definition setPosition (this : t) (p : Vector3.t) : t :=
  mk (level this) (isLocked this) p (quaternion this) (speed this) (size this)
     (height this) (gravity this) (jumpStrength this) (stepHeight this)
     (onGround this) (moveForward this) (moveBackward this) (moveLeft this)
     (moveRight this) (velocity this) (direction this).

Definition setVelocity (this : t) (v : Vector3.t) : t :=
  mk (level this) (isLocked this) (position this) (quaternion this) (speed this)
     (size this) (height this) (gravity this) (jumpStrength this) (stepHeight this)
     (onGround this) (moveForward this) (moveBackward this) (moveLeft this)
     (moveRight this) v (direction this).

Definition setDirection (this : t) (d : Vector3.t) : t :=
  mk (level this) (isLocked this) (position this) (quaternion this) (speed this)
     (size this) (height this) (gravity this) (jumpStrength this) (stepHeight this)
     (onGround this) (moveForward this) (moveBackward this) (moveLeft this)
     (moveRight this) (velocity this) d.

Definition setOnGround (this : t) (b : bool) : t :=
  mk (level this) (isLocked this) (position this) (quaternion this) (speed this)
     (size this) (height this) (gravity this) (jumpStrength this) (stepHeight this)
     b (moveForward this) (moveBackward this) (moveLeft this)
     (moveRight this) (velocity this) (direction this).

Definition setLevel (this : t) (lvl : Level.t) : t :=
  mk lvl (isLocked this) (position this) (quaternion this) (speed this)
     (size this) (height this) (gravity this) (jumpStrength this) (stepHeight this)
     (onGround this) (moveForward this) (moveBackward this) (moveLeft this)
     (moveRight this) (velocity this) (direction this).

Definition jump (this : t) : t :=
  if onGround this
  then setOnGround (setVelocity this (Vector3.setY (velocity this) (jumpStrength this))) false
  else this.

Definition _canMoveTo (this : t) (x z currentY : Q) : bool :=
  if Level.isWall (level this) x z then false
  else
    let targetY := Level.getFloorHeight (level this) x z in
    if currentY + stepHeight this <? targetY then false
    else true.

(** [Number(b)] *)
Definition Number (b : bool) : Q := if b then 1 else 0.

Section WithThree.
Context `{Three}.

(** Lines 124-141: friction, gravity, move direction, acceleration. *)
Definition accelerate (this : t) (delta : Q) : t :=
  let v := velocity this in
  let v := Vector3.setX v (Vector3.x v - Vector3.x v * 10 * delta) in
  let v := Vector3.setZ v (Vector3.z v - Vector3.z v * 10 * delta) in
  let v := Vector3.setY v (Vector3.y v - gravity this * delta) in
  let d := direction this in
  let d := Vector3.setZ d (Number (moveBackward this) - Number (moveForward this)) in
  let d := Vector3.setX d (Number (moveLeft this) - Number (moveRight this)) in
  let d := normalize d in
  let v := if moveForward this || moveBackward this
           then Vector3.setZ v (Vector3.z v - Vector3.z d * 400 * delta) else v in
  let v := if moveLeft this || moveRight this
           then Vector3.setX v (Vector3.x v - Vector3.x d * 400 * delta) else v in
  setDirection (setVelocity this v) d.

(** Lines 143-152: the flattened camera axes. *)
Definition forward (this : t) : Vector3.t :=
  normalize (Vector3.setY (applyQuaternion (Vector3.mk 0 0 (-1)) (quaternion this)) 0).
Definition right (this : t) : Vector3.t :=
  normalize (Vector3.setY (applyQuaternion (Vector3.mk 1 0 0) (quaternion this)) 0).

(** Lines 154-156, on the player after [accelerate]. *)
Definition deltaX (this : t) (delta : Q) : Q :=
  (Vector3.x (right this) * Vector3.x (velocity this)
   + Vector3.x (forward this) * Vector3.z (velocity this)) * delta.
Definition deltaZ (this : t) (delta : Q) : Q :=
  (Vector3.z (right this) * Vector3.x (velocity this)
   + Vector3.z (forward this) * Vector3.z (velocity this)) * delta.
Definition deltaY (this : t) (delta : Q) : Q :=
  Vector3.y (velocity this) * delta.

End WithThree.

(** Lines 158-176: the horizontal collision test, one axis after the
    other. *)
Definition moveHorizontal (this : t) (dX dZ : Q) : t :=
  let currentPos := position this in
  let currentFloorY :=
    Level.getFloorHeight (level this) (Vector3.x currentPos) (Vector3.z currentPos) in
  let this :=
    if _canMoveTo this (Vector3.x currentPos + dX) (Vector3.z currentPos) currentFloorY
    then setPosition this (Vector3.setX (position this) (Vector3.x (position this) + dX))
    else setVelocity this (Vector3.setX (velocity this) 0) in
  if _canMoveTo this (Vector3.x (position this)) (Vector3.z currentPos + dZ) currentFloorY
  then setPosition this (Vector3.setZ (position this) (Vector3.z (position this) + dZ))
  else setVelocity this (Vector3.setZ (velocity this) 0).

(** Lines 178-189: vertical movement and the snap to the floor. *)
Definition moveVertical (this : t) (dY : Q) : t :=
  let this := setPosition this (Vector3.setY (position this) (Vector3.y (position this) + dY)) in
  let newFloorY :=
    Level.getFloorHeight (level this) (Vector3.x (position this)) (Vector3.z (position this)) in
  if Vector3.y (position this) <? newFloorY + height this
  then
    let this := setPosition this (Vector3.setY (position this) (newFloorY + height this)) in
    let this := setVelocity this (Vector3.setY (velocity this) 0) in
    setOnGround this true
  else setOnGround this false.

Section WithThree.
Context `{Three}.

Definition update (this : t) (delta : Q) : t :=
  if negb (isLocked this) then this
  else
    let this := accelerate this delta in
    let dX := deltaX this delta in
    let dZ := deltaZ this delta in
    let dY := deltaY this delta in
    let this := moveHorizontal this dX dZ in
    moveVertical this dY.

End WithThree.

End Player.

(** ** monster.js: class Monster

    The class as [src/monster.js] has it.  The repository also holds an
    earlier revision of the class (detection at 20 units, no strafing and
    no [minDistance]) whose dead check in [update], [takeDamage] and [die]
    are the same statements. *)

Inductive MonsterState : Type := idle | chase | dead.

Definition isDead (s : MonsterState) : bool :=
  match s with dead => true | _ => false end.

(** A callback handed to [setTimeout]: the closure of [takeDamage], due
    after 100 ms, which captures the monster (named by its mesh). *)
Inductive Timeout : Type :=
| DamageTimeout (meshId : nat).

Module Monster.

Record t : Type := mk {
  type : MonsterType;
  level : Level.t;
  position : Vector3.t;
  health : Q;
  speed : Q;
  state : MonsterState;
  mesh : Object3D;
  time : Q;
  minDistance : Q;
  strafeTimer : Q;
  strafeDir : Q
}.

(** [_createMesh]: a sprite, so not a mesh; [meshId] is the identity of
    the new object. *)
Definition _createMesh (ty : MonsterType) (meshId : nat) : Object3D :=
  mkObject3D meshId false Vector3.zero (match ty with demon => 25 # 10 | imp => 2 end)
             16777215.

Definition new (ty : MonsterType) (x z : Q) (lvl : Level.t) (meshId : nat) : t :=
  let pos := Vector3.mk x 0 z in
  let m := _createMesh ty meshId in
  mk ty lvl pos
     (match ty with demon => 100 | imp => 40 end)
     (match ty with demon => 6 | imp => 3 end)
     idle
     (mkObject3D (id m) (isMesh m) pos (scaleY m) (colorHex m))
     0 8 0 1.

Definition setPosition (this : t) (p : Vector3.t) : t :=
  mk (type this) (level this) p (health this) (speed this) (state this) (mesh this)
     (time this) (minDistance this) (strafeTimer this) (strafeDir this).
Definition setHealth (this : t) (h : Q) : t :=
  mk (type this) (level this) (position this) h (speed this) (state this) (mesh this)
     (time this) (minDistance this) (strafeTimer this) (strafeDir this).
Definition setState (this : t) (s : MonsterState) : t :=
  mk (type this) (level this) (position this) (health this) (speed this) s (mesh this)
     (time this) (minDistance this) (strafeTimer this) (strafeDir this).
Definition setMesh (this : t) (m : Object3D) : t :=
  mk (type this) (level this) (position this) (health this) (speed this) (state this) m
     (time this) (minDistance this) (strafeTimer this) (strafeDir this).
Definition setStrafe (this : t) (timer dir : Q) : t :=
  mk (type this) (level this) (position this) (health this) (speed this) (state this)
     (mesh this) (time this) (minDistance this) timer dir.
Definition setLevel (this : t) (lvl : Level.t) : t :=
  mk (type this) lvl (position this) (health this) (speed this) (state this)
     (mesh this) (time this) (minDistance this) (strafeTimer this) (strafeDir this).

Definition meshSetColor (m : Object3D) (c : Z) : Object3D :=
  mkObject3D (id m) (isMesh m) (objPosition m) (scaleY m) c.
Definition meshSetPosition (m : Object3D) (p : Vector3.t) : Object3D :=
  mkObject3D (id m) (isMesh m) p (scaleY m) (colorHex m).
Definition meshSetScaleY (m : Object3D) (s : Q) : Object3D :=
  mkObject3D (id m) (isMesh m) (objPosition m) s (colorHex m).

Section WithThree.
Context `{Three}.

(** Lines 72-119, the chase branch.  [rnd1] and [rnd2] are the two
    values [Math.random()] returns if it is called. *)
Definition chaseStep (this : t) (delta : Q) (playerPos : Vector3.t)
           (distSq : Q) (rnd1 rnd2 : Q) : t :=
  let direction :=
    normalize (Vector3.setY (Vector3.subVectors playerPos (position this)) 0) in
  let moveVec := Vector3.zero in
  let moveVec :=
    if sqrt_gt distSq (minDistance this) then Vector3.add moveVec direction
    else if sqrt_lt distSq (minDistance this - 2)
         then Vector3.add moveVec (Vector3.negate direction)
         else moveVec in
  let '(this, moveVec) :=
    if sqrt_lt distSq 20 then
      let timer := strafeTimer this - delta in
      let this :=
        if timer <=? 0
        then setStrafe this (1 + rnd1 * 2) (if (1 # 2) <? rnd2 then 1 else -1)
        else setStrafe this timer (strafeDir this) in
      let right := normalize (Vector3.cross (Vector3.mk 0 1 0) direction) in
      (this, Vector3.add moveVec (Vector3.multiplyScalar right (strafeDir this * (8 # 10))))
    else (this, moveVec) in
  let moveVec := normalize moveVec in
  let moveDist := speed this * delta in
  let nextX := Vector3.x (position this) + Vector3.x moveVec * moveDist in
  let nextZ := Vector3.z (position this) + Vector3.z moveVec * moveDist in
  let this :=
    if negb (Level.isWall (level this) nextX (Vector3.z (position this)))
    then setPosition this (Vector3.setX (position this) nextX) else this in
  if negb (Level.isWall (level this) (Vector3.x (position this)) nextZ)
  then setPosition this (Vector3.setZ (position this) nextZ) else this.

Definition update (this : t) (delta : Q) (playerPos : Vector3.t) (rnd1 rnd2 : Q) : t :=
  if isDead (state this) then this
  else
    let distSq := Vector3.distanceToSquared (position this) playerPos in
    let this := if sqrt_lt distSq 30 then setState this chase else this in
    let this :=
      match state this with
      | chase => chaseStep this delta playerPos distSq rnd1 rnd2
      | _ => this
      end in
    let floorH :=
      Level.getFloorHeight (level this) (Vector3.x (position this))
                           (Vector3.z (position this)) in
    let this :=
      setPosition this
        (Vector3.setY (position this)
           (floorH + match type this with demon => 125 # 100 | imp => 1 end)) in
    setMesh this (meshSetPosition (mesh this) (position this)).

End WithThree.

(** [takeDamage]: the statements run at the call, and the callback it
    schedules. *)
Definition takeDamage (this : t) (amount : Q) : t * list Timeout :=
  let this := setHealth this (health this - amount) in
  let this := setMesh this (meshSetColor (mesh this) 16777215) in
  (this, [DamageTimeout (id (mesh this))]).

Definition die (this : t) : t :=
  let this := setState this dead in
  let this := setMesh this (meshSetScaleY (mesh this) (1 # 2)) in
  setMesh this
    (meshSetPosition (mesh this)
       (Vector3.setY (objPosition (mesh this)) (Vector3.y (objPosition (mesh this)) - (1 # 2)))).

(** The body of the callback of [takeDamage]. *)
Definition damageTimeout (this : t) : t :=
  if health this <=? 0 then die this
  else setMesh this (meshSetColor (mesh this) 16777215).

End Monster.

(** The timer queue with the monsters its callbacks act on. *)
Definition runTimeout (t : Timeout) (monsters : list Monster.t) : list Monster.t :=
  match t with
  | DamageTimeout i =>
      map (fun m => if Nat.eqb (id (Monster.mesh m)) i then Monster.damageTimeout m else m)
          monsters
  end.

Definition runTimeouts (ts : list Timeout) (monsters : list Monster.t) : list Monster.t :=
  fold_left (fun ms t => runTimeout t ms) ts monsters.

(** ** monster.js: class Projectile *)

Inductive HitType : Type := wall | monster.

Module Projectile.

Record t : Type := mk {
  speed : Q;
  direction : Vector3.t;
  position : Vector3.t;
  lastPosition : Vector3.t;
  alive : bool;
  mesh : Object3D
}.

(** What a call leaves behind besides the projectile itself: the
    monsters, the callbacks scheduled and the impact effects spawned. *)
Record World : Type := mkWorld {
  monsters : list Monster.t;
  timeouts : list Timeout;
  impacts : list Vector3.t
}.

Definition destroy (this : t) : t :=
  mk (speed this) (direction this) (position this) (lastPosition this) false (mesh this).

(** [createImpactEffect(pos)]: particles at [pos]. *)
Definition createImpactEffect (w : World) (pos : Vector3.t) : World :=
  mkWorld (monsters w) (timeouts w) (impacts w ++ [pos]).

(** [monsters.find(m => m.mesh === hit.object)] followed by
    [takeDamage(20)] on the monster found. *)
Fixpoint damageFound (o : Object3D) (ms : list Monster.t) : list Monster.t * list Timeout :=
  match ms with
  | [] => ([], [])
  | m :: rest =>
      if Nat.eqb (id (Monster.mesh m)) (id o)
      then let (m', ts) := Monster.takeDamage m 20 in (m' :: rest, ts)
      else let (rest', ts) := damageFound o rest in (m :: rest', ts)
  end.

Definition onHit (this : t) (hit : Hit) (ty : HitType) (w : World) : t * World :=
  let w := createImpactEffect w (point hit) in
  let w :=
    match ty with
    | monster =>
        let (ms, ts) := damageFound (object hit) (monsters w) in
        mkWorld ms (timeouts w ++ ts) (impacts w)
    | wall => w
    end in
  (destroy this, w).

(** Lines 205-219: the choice between the first level hit and the first
    monster hit. *)
Definition closestHit (levelHits monsterHits : list Hit) : option (Hit * HitType) :=
  let hit :=
    match levelHits with
    | h :: _ => Some (h, wall)
    | [] => None
    end in
  match monsterHits with
  | mh :: _ =>
      match hit with
      | None => Some (mh, monster)
      | Some (h, _) => if distance mh <? distance h then Some (mh, monster) else hit
      end
  | [] => hit
  end.

Section WithThree.
Context `{Three}.

Definition new (pos dir : Vector3.t) (meshId : nat) : t :=
  mk 40 (normalize dir) pos pos true (mkObject3D meshId true pos 1 16776960).

Definition displacement (this : t) (delta : Q) : Vector3.t :=
  Vector3.multiplyScalar (direction this) (speed this * delta).

(** Lines 180-185: the move. *)
Definition move (this : t) (delta : Q) : t :=
  let pos := Vector3.add (position this) (displacement this delta) in
  mk (speed this) (direction this) pos (position this) (alive this)
     (Monster.meshSetPosition (mesh this) pos).

(** The raycaster after lines 190-192, on the projectile after [move];
    [far] is the length of the displacement. *)
Definition ray (this : t) (delta : Q) : Raycaster :=
  mkRaycaster (lastPosition this) (direction this)
              (Vector3.lengthSq (displacement this delta)).

Definition levelMeshes (lvl : Level.t) : list Object3D :=
  filter isMesh (Level.levelGroup lvl).

Definition monsterMeshes (ms : list Monster.t) : list Object3D :=
  map Monster.mesh (filter (fun m => negb (isDead (Monster.state m))) ms).

Definition update (this : t) (delta : Q) (lvl : Level.t) (w : World) : t * World :=
  if negb (alive this) then (this, w)
  else
    let this := move this delta in
    let '(this, w) :=
      if 0 <? Vector3.lengthSq (displacement this delta) then
        let rc := ray this delta in
        let levelHits := intersectObjects rc (levelMeshes lvl) in
        let monsterHits := intersectObjects rc (monsterMeshes (monsters w)) in
        match closestHit levelHits monsterHits with
        | Some (hit, ty) => onHit this hit ty w
        | None => (this, w)
        end
      else (this, w) in
    if 1000 * 1000 <? Vector3.lengthSq (position this)
    then (destroy this, w)
    else (this, w).

End WithThree.

End Projectile.

(** ** main.js: the shooting handler *)

Module Main.

Section WithThree.
Context `{Three}.

(** The [for] loop of [player.onShoot]: [playerPos] is the position of
    the player's object, [playerDir] the camera's world direction. *)
Fixpoint onShoot (playerPos playerDir : Vector3.t) (monsters : list Monster.t)
  : list Monster.t * list Timeout :=
  match monsters with
  | [] => ([], [])
  | m :: rest =>
      if isDead (Monster.state m)
      then let (rest', ts) := onShoot playerPos playerDir rest in (m :: rest', ts)
      else
        let toMonster := Vector3.subVectors (Monster.position m) playerPos in
        let distSq := Vector3.lengthSq toMonster in
        let toMonster := normalize toMonster in
        let angle := angleTo playerDir toMonster in
        if sqrt_lt distSq 50 && (angle <? (2 # 10))
        then let (m', ts) := Monster.takeDamage m 20 in (m' :: rest, ts)
        else let (rest', ts) := onShoot playerPos playerDir rest in (m :: rest', ts)
  end.

End WithThree.

End Main.

(** ** A computable implementation of [Three]

    Used to run the embedded code on concrete inputs.  Square roots are
    taken to six decimals (exactly on perfect squares); rotation is the
    polynomial three.js evaluates; the angle is replaced by the chord
    between the two unit vectors, which is below the angle and within 1%
    of it under 0.5 rad; an object is hit by a ray when the ray passes
    within one unit of its position. *)
Module Simple.

Definition sqrt (q : Q) : Q :=
  inject_Z (Z.sqrt (Qfloor (q * 1000000000000))) / 1000000.

Definition normalize (v : Vector3.t) : Vector3.t :=
  let len := sqrt (Vector3.lengthSq v) in
  let len := if Qeqb len 0 then 1 else len in
  Vector3.multiplyScalar v (/ len).

Definition applyQuaternion (v : Vector3.t) (q : Quaternion) : Vector3.t :=
  let tx := 2 * (qy q * Vector3.z v - qz q * Vector3.y v) in
  let ty := 2 * (qz q * Vector3.x v - qx q * Vector3.z v) in
  let tz := 2 * (qx q * Vector3.y v - qy q * Vector3.x v) in
  Vector3.mk (Vector3.x v + qw q * tx + qy q * tz - qz q * ty)
             (Vector3.y v + qw q * ty + qz q * tx - qx q * tz)
             (Vector3.z v + qw q * tz + qx q * ty - qy q * tx).

Definition dot (a b : Vector3.t) : Q :=
  Vector3.x a * Vector3.x b + Vector3.y a * Vector3.y b + Vector3.z a * Vector3.z b.

Definition angleTo (a b : Vector3.t) : Q :=
  sqrt (Vector3.lengthSq (Vector3.subVectors (normalize a) (normalize b))).

Definition raycast (o : Object3D) (rc : Raycaster) : list (Q * Vector3.t) :=
  let oc := Vector3.subVectors (objPosition o) (origin rc) in
  let t := dot oc (rayDirection rc) in
  let p := Vector3.add (origin rc) (Vector3.multiplyScalar (rayDirection rc) t) in
  if (0 <=? t) && (t * t <=? farSq rc)
     && (Vector3.lengthSq (Vector3.subVectors (objPosition o) p) <=? 1)
  then [(t, p)] else [].

Definition three : Three := Build_Three normalize applyQuaternion angleTo raycast.

End Simple.

(** ** Concrete levels and agents

    Inputs on which the theorems below are instantiated. *)
Module Sample.

Definition levelOf (mapData : list (list Z)) : Level.t :=
  match Level._parseMap Level.fresh mapData with
  | Ok L => L
  | Throw _ => Level.fresh
  end.

(** The corridor of the specification's first scenario. *)
Definition corridor : Level.t :=
  levelOf [[1; 1; 1]; [1; 0; 1]; [1; 1; 1]]%Z.

(** A map whose second row is shorter than its first. *)
Definition ragged : list (list Z) := [[0; 0]; [0]]%Z.

(** An open room of 3 by 3 floor cells ringed by walls. *)
Definition room : Level.t :=
  levelOf [[1; 1; 1; 1; 1]; [1; 0; 0; 0; 1]; [1; 0; 0; 0; 1]; [1; 0; 0; 0; 1];
           [1; 1; 1; 1; 1]]%Z.

Definition identity : Quaternion := mkQuaternion 0 0 0 1.

(** A player with locked controls standing at [(x, y, z)] with velocity
    [v] and the keys [fwd], [rgt] held. *)
Definition playerAt (L : Level.t) (x y z : Q) (v : Vector3.t) (fwd rgt : bool) : Player.t :=
  Player.mk L true (Vector3.mk x y z) identity 10 (6 # 10) (16 # 10) 30 12 (11 # 10)
            true fwd false false rgt v Vector3.zero.

(** In the north-west floor cell of [room], holding forward and right:
    the wall is to the north, the floor goes on to the east. *)
Definition cornered : Player.t :=
  playerAt room 4 (16 # 10) 4 Vector3.zero true true.

(** Falling in the middle of [room], one unit above eye height. *)
Definition falling : Player.t :=
  playerAt room 8 (26 # 10) 8 (Vector3.mk 0 (-7) 0) false false.

(** An imp in the middle of [room], as constructed; after two hits of
    20; and after the callback of the second hit has run. *)
Definition freshImp : Monster.t := Monster.new imp 8 8 room 7.

Definition impHitTwice : Monster.t :=
  fst (Monster.takeDamage (fst (Monster.takeDamage freshImp 20)) 20).

Definition deadImp : Monster.t := Monster.damageTimeout impHitTwice.

(** The specification's third scenario: a projectile fired along the X
    axis at a wall 8 units away with an imp 5 units away on the same
    line.  The monsters are listed with a dead one first. *)
Definition wallMesh : Object3D := mkObject3D 1 true (Vector3.mk 8 0 0) 1 0.

Definition range : Level.t :=
  Level.mk (Level.cellSize room) (Level.grid room) (Level.rows room) (Level.cols room)
           (Level.monsterSpawns room) [wallMesh].

Definition target : Monster.t := Monster.new imp 5 0 range 7.

Definition corpse : Monster.t :=
  Monster.setPosition (Monster.setMesh deadImp (mkObject3D 8 false (Vector3.mk 3 0 0) 1 0))
                      (Vector3.mk 3 0 0).

Definition shot : Projectile.t :=
  @Projectile.new Simple.three Vector3.zero (Vector3.mk 1 0 0) 9.

Definition world : Projectile.World := Projectile.mkWorld [corpse; target] [] [].

(** Two projectiles in empty space, neither near anything: one fired at
    the world origin, one fired 999 units from it. *)
Definition void : Level.t := Level.fresh.
Definition nearShot : Projectile.t :=
  @Projectile.new Simple.three Vector3.zero (Vector3.mk 1 0 0) 9.
Definition farShot : Projectile.t :=
  @Projectile.new Simple.three (Vector3.mk 999 0 0) (Vector3.mk 1 0 0) 10.
Definition nobody : Projectile.World := Projectile.mkWorld [] [] [].

(** Two live imps straight ahead of a shooter at the origin looking
    along X: the first listed is 20 units away, the second 10. *)
Definition farImp : Monster.t := Monster.new imp 20 0 room 11.
Definition closeImp : Monster.t := Monster.new imp 10 0 room 12.

(** Two live imps on the same spot, 5 units ahead of [shot], and the two
    orders in which the monsters array can list them. *)
Definition twinA : Monster.t := Monster.new imp 5 0 void 21.
Definition twinB : Monster.t := Monster.new imp 5 0 void 22.
Definition twinsAB : Projectile.World := Projectile.mkWorld [twinA; twinB] [] [].
Definition twinsBA : Projectile.World := Projectile.mkWorld [twinB; twinA] [] [].


(** [room] with every ceiling lowered to 2. *)
Definition lowRoom : Level.t :=
  Level.mk (Level.cellSize room)
           (map (map (fun c => Cell.mk (Cell.type c) (Cell.height c) 2 (Cell.isWall c)
                                       (Cell.hasItem c)))
                (Level.grid room))
           (Level.rows room) (Level.cols room) (Level.monsterSpawns room)
           (Level.levelGroup room).

(** Jumping in the middle of [lowRoom]: eye at 1.6, rising at 12. *)
Definition jumping : Player.t :=
  playerAt lowRoom 8 (16 # 10) 8 (Vector3.mk 0 12 0) false false.

End Sample.

(** ** Vocabulary of the properties *)

(** Entry to [(x, z)] from a floor at height [currentY] with step
    tolerance [step]: not a wall, and the floor there is at most
    [currentY + step]. *)
Definition entryAllowed (L : Level.t) (step currentY x z : Q) : Prop :=
  Level.isWall L x z = false /\ Level.getFloorHeight L x z <= currentY + step.

(** Two cells, then two levels, that differ at most in ceiling heights. *)
Definition sameButCeiling (c1 c2 : Cell.t) : Prop :=
  Cell.type c1 = Cell.type c2 /\ Cell.height c1 = Cell.height c2 /\
  Cell.isWall c1 = Cell.isWall c2 /\ Cell.hasItem c1 = Cell.hasItem c2.

Definition ceilEquiv (L1 L2 : Level.t) : Prop :=
  Level.cellSize L1 = Level.cellSize L2 /\
  Level.rows L1 = Level.rows L2 /\
  Level.cols L1 = Level.cols L2 /\
  Forall2 (Forall2 sameButCeiling) (Level.grid L1) (Level.grid L2).

(** A valid target of an instant shot from [playerPos] aimed along
    [playerDir]: not dead, nearer than 50, and within 0.2 rad of the aim. *)
Definition validTarget `{Three} (playerPos playerDir : Vector3.t) (m : Monster.t) : Prop :=
  Monster.state m <> dead /\
  Vector3.distanceToSquared (Monster.position m) playerPos < 50 * 50 /\
  angleTo playerDir (normalize (Vector3.subVectors (Monster.position m) playerPos)) < 2 # 10.

(** The order [ascSort] sorts by. *)
Definition hitLe (a b : Hit) : Prop := distance a <= distance b.

(** ** level.js: the start position and the side panels *)

Module LevelStart.

(** [!cell.isWall && cell.height === 0] *)
Definition isStart (c : Cell.t) : bool :=
  negb (Cell.isWall c) && Qeq_bool (Cell.height c) 0.

(** The pairs [(z, x)] the two nested loops visit, in the order they
    visit them. *)
Definition indices (this : Level.t) : list (nat * nat) :=
  list_prod (seq 0 (Z.to_nat (Level.rows this))) (seq 0 (Z.to_nat (Level.cols this))).

Definition startAt (this : Level.t) (zx : nat * nat) : bool :=
  match Level.cellAt this (Z.of_nat (fst zx)) (Z.of_nat (snd zx)) with
  | Some c => isStart c
  | None => false
  end.

(** [getStartPosition]: the pair is [{ x, z }]. *)
Definition getStartPosition (this : Level.t) : Q * Q :=
  match find (startAt this) (indices this) with
  | Some (z, x) =>
      (inject_Z (Z.of_nat x) * Level.cellSize this, inject_Z (Z.of_nat z) * Level.cellSize this)
  | None => (0, 0)
  end.

End LevelStart.

Module LevelSides.

(** The four entries of [neighbors]; [rot] is the rotation about Y as a
    multiple of pi. *)
Inductive Side : Type := North | South | West | East.

Definition dx (s : Side) : Z :=
  match s with North => 0 | South => 0 | West => -1 | East => 1 end.
Definition dz (s : Side) : Z :=
  match s with North => -1 | South => 1 | West => 0 | East => 0 end.
Definition rotOverPi (s : Side) : Q :=
  match s with North => 0 | South => 1 | West => - (1 # 2) | East => 1 # 2 end.

Definition neighbors : list Side := [North; South; West; East].

(** A side mesh: a plane [width] by [panelHeight] at [panelPosition]. *)
Record Panel : Type := mkPanel {
  side : Side;
  width : Q;
  panelHeight : Q;
  panelPosition : Vector3.t
}.

(** One turn of the loop of [_buildSides].  Inside the bounds the cell
    read exists on every level [_parseMap] builds from rows of one length;
    where a short row leaves none, the script fails on [undefined.isWall],
    and no panel is built. *)
Definition buildSide (this : Level.t) (x z : Z) (currentH : Q) (n : Side) : list Panel :=
  let halfSize := Level.cellSize this / 2 in
  let nx := (x + dx n)%Z in
  let nz := (z + dz n)%Z in
  let neighbor :=
    if Level.inGrid this nz nx then
      match Level.cellAt this nz nx with
      | Some c => if Cell.isWall c then None else Some (Cell.height c)
      | None => None
      end
    else Some (-100) in
  match neighbor with
  | None => []
  | Some neighborH =>
      if neighborH <? currentH then
        let heightDiff := currentH - neighborH in
        [mkPanel n (Level.cellSize this) heightDiff
           (Vector3.mk (inject_Z x * Level.cellSize this + inject_Z (dx n) * halfSize)
                       (neighborH + heightDiff / 2)
                       (inject_Z z * Level.cellSize this + inject_Z (dz n) * halfSize))]
      else []
  end.

Definition _buildSides (this : Level.t) (x z : Z) (currentH : Q) : list Panel :=
  flat_map (buildSide this x z currentH) neighbors.

End LevelSides.

(** ** player.js: the key and mouse listeners *)

Module Controls.

Definition setMoves (this : Player.t) (f b l r : bool) : Player.t :=
  Player.mk (Player.level this) (Player.isLocked this) (Player.position this)
            (Player.quaternion this) (Player.speed this) (Player.size this)
            (Player.height this) (Player.gravity this) (Player.jumpStrength this)
            (Player.stepHeight this) (Player.onGround this) f b l r
            (Player.velocity this) (Player.direction this).

Definition setIsLocked (this : Player.t) (b : bool) : Player.t :=
  Player.mk (Player.level this) b (Player.position this)
            (Player.quaternion this) (Player.speed this) (Player.size this)
            (Player.height this) (Player.gravity this) (Player.jumpStrength this)
            (Player.stepHeight this) (Player.onGround this) (Player.moveForward this)
            (Player.moveBackward this) (Player.moveLeft this) (Player.moveRight this)
            (Player.velocity this) (Player.direction this).

Definition setQuaternion (this : Player.t) (q : Quaternion) : Player.t :=
  Player.mk (Player.level this) (Player.isLocked this) (Player.position this)
            q (Player.speed this) (Player.size this)
            (Player.height this) (Player.gravity this) (Player.jumpStrength this)
            (Player.stepHeight this) (Player.onGround this) (Player.moveForward this)
            (Player.moveBackward this) (Player.moveLeft this) (Player.moveRight this)
            (Player.velocity this) (Player.direction this).

(** The two [switch]es on [event.code]; [v] is [true] in [onKeyDown] and
    [false] in [onKeyUp], which has no case for [Space]. *)
Definition setKey (code : string) (v : bool) (this : Player.t) : Player.t :=
  let f := Player.moveForward this in
  let b := Player.moveBackward this in
  let l := Player.moveLeft this in
  let r := Player.moveRight this in
  if String.eqb code "ArrowUp" || String.eqb code "KeyW" then setMoves this v b l r
  else if String.eqb code "ArrowLeft" || String.eqb code "KeyA" then setMoves this f b v r
  else if String.eqb code "ArrowDown" || String.eqb code "KeyS" then setMoves this f v l r
  else if String.eqb code "ArrowRight" || String.eqb code "KeyD" then setMoves this f b l v
  else this.

Definition onKeyDown (code : string) (this : Player.t) : Player.t :=
  if String.eqb code "Space" then Player.jump this else setKey code true this.

Definition onKeyUp (code : string) (this : Player.t) : Player.t :=
  if String.eqb code "Space" then this else setKey code false this.

End Controls.

(** ** main.js: set-up, the frame and the events between frames *)

Module Game.

Record t : Type := mk {
  player : Player.t;
  monsters : list Monster.t;
  timeouts : list Timeout     (* callbacks scheduled and not yet run *)
}.

(** [level.monsterSpawns.forEach(...)]: one monster per spawn, in order;
    each gets a new sprite, so the next identity three.js hands out. *)
Fixpoint spawnMonsters (lvl : Level.t) (nextId : nat) (spawns : list Spawn) : list Monster.t :=
  match spawns with
  | [] => []
  | s :: rest =>
      Monster.new (spawnType s) (spawnX s) (spawnZ s) lvl nextId
      :: spawnMonsters lvl (S nextId) rest
  end.

(** [init], without scene, renderer and lights: [q] is the camera's
    orientation and [nextId] the identity of the first sprite. *)
Definition init (mapData : list (list Z)) (q : Quaternion) (nextId : nat) : result t :=
  match Level._parseMap Level.fresh mapData with
  | Throw e => Throw e
  | Ok lvl =>
      let p := Player.new lvl q in
      let startPos := LevelStart.getStartPosition lvl in
      let p := Player.setPosition p (Vector3.mk (fst startPos) (Player.height p) (snd startPos)) in
      Ok (mk p (spawnMonsters lvl nextId (Level.monsterSpawns lvl)) [])
  end.

(** [monsters.forEach(m => m.update(delta, player))]; the monster at
    index [i] draws its random values from [rnd i]. *)
Fixpoint updateMonsters `{Three} (ms : list Monster.t) (i : nat) (delta : Q)
         (playerPos : Vector3.t) (rnd : nat -> Q * Q) : list Monster.t :=
  match ms with
  | [] => []
  | m :: rest =>
      Monster.update m delta playerPos (fst (rnd i)) (snd (rnd i))
      :: updateMonsters rest (S i) delta playerPos rnd
  end.

(** [animate]: one frame of [delta] seconds. *)
Definition animate `{Three} (g : t) (delta : Q) (rnd : nat -> Q * Q) : t :=
  let p := Player.update (player g) delta in
  mk p (updateMonsters (monsters g) 0 delta (Player.position p) rnd) (timeouts g).

(** What happens between and at frames. *)
Inductive Event : Type :=
| Frame (delta : Q) (rnd : nat -> Q * Q)
| KeyDown (code : string)
| KeyUp (code : string)
| MouseDown (playerDir : Vector3.t)   (* a click; the camera's world direction *)
| TimerFires                          (* the oldest scheduled callback runs *)
| PointerLock (locked : bool)         (* the controls gain or lose the lock *)
| Look (q : Quaternion).              (* the controls turn the camera *)

Definition step `{Three} (g : t) (e : Event) : t :=
  match e with
  | Frame delta rnd => animate g delta rnd
  | KeyDown code => mk (Controls.onKeyDown code (player g)) (monsters g) (timeouts g)
  | KeyUp code => mk (Controls.onKeyUp code (player g)) (monsters g) (timeouts g)
  | MouseDown playerDir =>
      if Player.isLocked (player g) then
        let (ms, ts) := Main.onShoot (Player.position (player g)) playerDir (monsters g) in
        mk (player g) ms (timeouts g ++ ts)
      else g
  | TimerFires =>
      match timeouts g with
      | [] => g
      | t :: ts => mk (player g) (runTimeout t (monsters g)) ts
      end
  | PointerLock b => mk (Controls.setIsLocked (player g) b) (monsters g) (timeouts g)
  | Look q => mk (Controls.setQuaternion (player g) q) (monsters g) (timeouts g)
  end.

Definition run `{Three} (g : t) (es : list Event) : t := fold_left step es g.

End Game.

(** ** More concrete inputs *)
Module Fixture.

(** The map of [main.js]. *)
Definition mapData : list (list Z) :=
  [[1; 1; 1; 1; 1; 1; 1; 1; 1; 1; 1; 1; 1; 1; 1];
   [1; 0; 0; 0; 6; 0; 1; 3; 3; 3; 1; 4; 4; 4; 1];
   [1; 0; 0; 0; 0; 0; 1; 3; 0; 3; 1; 4; 0; 4; 1];
   [1; 0; 0; 1; 1; 0; 1; 3; 0; 3; 0; 0; 0; 0; 1];
   [1; 0; 0; 1; 7; 0; 0; 0; 0; 1; 0; 0; 1; 0; 1];
   [1; 0; 0; 1; 0; 0; 0; 0; 0; 1; 1; 1; 1; 0; 1];
   [1; 0; 0; 0; 0; 0; 1; 0; 0; 5; 5; 5; 0; 0; 1];
   [1; 0; 1; 1; 0; 0; 1; 0; 0; 5; 5; 5; 0; 0; 1];
   [1; 0; 1; 1; 0; 0; 1; 1; 1; 1; 0; 0; 1; 0; 1];
   [1; 0; 0; 0; 0; 0; 6; 0; 0; 0; 0; 0; 1; 0; 1];
   [1; 1; 1; 1; 1; 1; 1; 1; 1; 1; 1; 1; 1; 1; 1]]%Z.

Definition level : Level.t := Sample.levelOf mapData.

(** The game [init] sets up on that map, the first sprite being object
    100. *)
Definition game : Game.t :=
  match Game.init mapData Sample.identity 100 with
  | Ok g => g
  | Throw _ => Game.mk (Player.new Level.fresh Sample.identity) [] []
  end.

(** The same with the pointer locked. *)
Definition lockedGame : Game.t :=
  @Game.step Simple.three game (Game.PointerLock true).

(** A player at rest in the middle of [Sample.room], no key held. *)
Definition resting : Player.t :=
  Sample.playerAt Sample.room 8 (16 # 10) 8 Vector3.zero false false.



(** The imp of the first spawn of the map of [main.js], and a player
    position 8 units to its west. *)
Definition firstImp : Monster.t := Monster.new imp 16 4 level 100.
Definition nearby : Vector3.t := Vector3.mk 8 (16 # 10) 4.

(** What happens in a short session on that map. *)
Definition session : list Game.Event :=
  [Game.KeyDown "KeyW"; Game.Frame (1 # 60) (fun _ => (1 # 2, 3 # 4));
   Game.MouseDown (Vector3.mk 1 0 0); Game.Frame (1 # 60) (fun _ => (1 # 2, 3 # 4));
   Game.TimerFires; Game.KeyUp "KeyW"; Game.KeyDown "Space";
   Game.Frame (1 # 60) (fun _ => (1 # 4, 1 # 4))].

(** A locked player at the origin of [Sample.room]'s coordinates looking
    along X at the two imps of [Sample], nothing pending. *)
Definition duel : Game.t :=
  Game.mk (Sample.playerAt Sample.room 0 (16 # 10) 0 Vector3.zero false false)
          [Sample.farImp; Sample.closeImp] [].

End Fixture.

(** No movement key is held. *)
Definition noKeys (p : Player.t) : Prop :=
  Player.moveForward p = false /\ Player.moveBackward p = false /\
  Player.moveLeft p = false /\ Player.moveRight p = false.

(** The player stands still on the floor under it: no horizontal
    velocity, not rising, eye exactly [height] above the floor. *)
Definition atRest (p : Player.t) : Prop :=
  Vector3.x (Player.velocity p) == 0 /\
  Vector3.z (Player.velocity p) == 0 /\
  Vector3.y (Player.velocity p) <= 0 /\
  Vector3.y (Player.position p)
  == Level.getFloorHeight (Player.level p) (Vector3.x (Player.position p))
                          (Vector3.z (Player.position p)) + Player.height p.

(** A position on a cell of the level that is not a wall (so inside the
    grid). *)
Definition onOpenCell (L : Level.t) (pos : Vector3.t) : Prop :=
  Level.isWall L (Vector3.x pos) (Vector3.z pos) = false.

(** The identities of the monsters' sprites, in list order. *)
Definition meshIds (ms : list Monster.t) : list nat :=
  map (fun m => id (Monster.mesh m)) ms.

(** How one monster can differ between two moments of a game: same
    level, kind and sprite; health no higher; once dead, dead for good with
    position and health frozen; and never moved into a wall. *)
Definition evolves (m m' : Monster.t) : Prop :=
  Monster.level m' = Monster.level m /\
  Monster.type m' = Monster.type m /\
  id (Monster.mesh m') = id (Monster.mesh m) /\
  Monster.health m' <= Monster.health m /\
  (Monster.state m = dead ->
   Monster.state m' = dead /\ Monster.position m' = Monster.position m /\
   Monster.health m' = Monster.health m) /\
  (onOpenCell (Monster.level m) (Monster.position m) ->
   onOpenCell (Monster.level m) (Monster.position m')).



(** ** Tactics *)

Ltac player_simpl :=
  cbv zeta;
  cbn [Player.level Player.isLocked Player.position Player.quaternion Player.speed
       Player.size Player.height Player.gravity Player.jumpStrength Player.stepHeight
       Player.onGround Player.moveForward Player.moveBackward Player.moveLeft
       Player.moveRight Player.velocity Player.direction
       Player.setPosition Player.setVelocity Player.setDirection Player.setOnGround
       Player.setLevel
       Vector3.x Vector3.y Vector3.z Vector3.setX Vector3.setY Vector3.setZ].

Ltac monster_simpl :=
  cbv zeta;
  cbn [Monster.type Monster.level Monster.position Monster.health Monster.speed
       Monster.state Monster.mesh Monster.time Monster.minDistance Monster.strafeTimer
       Monster.strafeDir
       Monster.setPosition Monster.setHealth Monster.setState Monster.setMesh
       Monster.setStrafe Monster.setLevel
       Vector3.x Vector3.y Vector3.z Vector3.setX Vector3.setY Vector3.setZ].

(** Case analysis on an innermost condition of the goal. *)
Ltac case_if :=
  match goal with
  | |- context [if ?c then _ else _] =>
      lazymatch c with
      | context [if _ then _ else _] => fail
      | _ => destruct c
      end
  end.

(** Case analysis on the code a [switch] of [cellOfCode] inspects. *)
Ltac code_cases v :=
  destruct v as [[|p|p]|]; cbn;
  repeat match goal with
         | |- context [match ?q with xI _ => _ | xO _ => _ | xH => _ end] =>
             destruct q; cbn
         end.

(** Case analysis on the wall tests of a monster's step, keeping what
    each test found. *)
Ltac case_wall :=
  match goal with
  | |- context [if negb (Level.isWall ?L ?a ?b) then _ else _] =>
      let E := fresh "Ewall" in
      destruct (Level.isWall L a b) eqn:E; cbn [negb]
  end.

(** * Properties *)

(** ** Comparisons and rounding *)

Lemma Qltb_true (a b : Q) : (a <? b) = true <-> a < b.
Proof.
  unfold Qltb. rewrite negb_true_iff.
  split; intro Hab.
  - apply Qnot_le_lt. intro Hle. apply Qle_bool_iff in Hle. congruence.
  - destruct (Qle_bool b a) eqn:E; [|reflexivity].
    apply Qle_bool_iff in E. exfalso. lra.
Qed.

Lemma Qltb_false (a b : Q) : (a <? b) = false <-> b <= a.
Proof.
  unfold Qltb. rewrite negb_false_iff. apply Qle_bool_iff.
Qed.

Lemma Qleb_true (a b : Q) : (a <=? b) = true <-> a <= b.
Proof. apply Qle_bool_iff. Qed.

Lemma Qleb_false (a b : Q) : (a <=? b) = false <-> b < a.
Proof.
  unfold Qleb. split; intro Hab.
  - apply Qnot_le_lt. intro Hle. apply Qle_bool_iff in Hle. congruence.
  - destruct (Qle_bool a b) eqn:E; [|reflexivity].
    apply Qle_bool_iff in E. exfalso. lra.
Qed.

Lemma Math_round_bounds (q : Q) :
  inject_Z (Math_round q) <= q + (1 # 2) /\ q + (1 # 2) < inject_Z (Math_round q) + 1.
Proof.
  unfold Math_round. split.
  - apply Qfloor_le.
  - pose proof (Qlt_floor (q + (1 # 2))) as Hlt.
    rewrite inject_Z_plus in Hlt. exact Hlt.
Qed.

(** [Math_round q] is an integer nearest to [q]. *)
Lemma Math_round_nearest (q : Q) (k : Z) :
  Qabs (q - inject_Z (Math_round q)) <= Qabs (q - inject_Z k).
Proof.
  destruct (Math_round_bounds q) as [Hlo Hhi].
  set (r := Math_round q) in *.
  assert (Hr : Qabs (q - inject_Z r) <= 1 # 2) by (apply Qabs_Qle_condition; lra).
  destruct (Z_lt_le_dec k r) as [Hk | Hk].
  - assert (Hq : inject_Z (k + 1) <= inject_Z r) by (rewrite <- Zle_Qle; lia).
    rewrite inject_Z_plus in Hq. change (inject_Z 1) with 1 in Hq.
    apply Qle_trans with (1 # 2); [exact Hr|].
    apply Qle_trans with (q - inject_Z k); [lra | apply Qle_Qabs].
  - destruct (Z.eq_dec k r) as [-> | Hne]; [apply Qle_refl|].
    assert (Hq : inject_Z (r + 1) <= inject_Z k) by (rewrite <- Zle_Qle; lia).
    rewrite inject_Z_plus in Hq. change (inject_Z 1) with 1 in Hq.
    apply Qle_trans with (1 # 2); [exact Hr|].
    apply Qle_trans with (- (q - inject_Z k)); [lra|].
    rewrite <- Qabs_opp. apply Qle_Qabs.
Qed.

(** ** The level *)

Section LevelFacts.

Lemma inGrid_true (L : Level.t) (gz gx : Z) :
  Level.inGrid L gz gx = true <->
  (0 <= gz < Level.rows L)%Z /\ (0 <= gx < Level.cols L)%Z.
Proof.
  unfold Level.inGrid. rewrite !andb_true_iff, !Z.leb_le, !Z.ltb_lt. lia.
Qed.

Lemma wf_cellAt (L : Level.t) (gz gx : Z) :
  Level.wf L -> Level.inGrid L gz gx = true ->
  exists c, Level.cellAt L gz gx = Some c.
Proof.
  intros (_ & Hrows & Hcols) Hin. apply inGrid_true in Hin. destruct Hin as [Hz Hx].
  unfold Level.cellAt.
  destruct (nth_error (Level.grid L) (Z.to_nat gz)) as [row|] eqn:Erow.
  - assert (Hlen : Level.cols L = Z.of_nat (List.length row)).
    { rewrite Forall_forall in Hcols. apply Hcols. eapply nth_error_In; eauto. }
    destruct (nth_error row (Z.to_nat gx)) as [c|] eqn:Ec; [eauto|].
    apply nth_error_None in Ec. lia.
  - apply nth_error_None in Erow. lia.
Qed.

Lemma parseRow_length cs n z row : List.length (Level.parseRow cs n z row) = n.
Proof. unfold Level.parseRow. now rewrite length_map, length_seq. Qed.

Lemma parseMap_Ok (row0 : list Z) (rest : list (list Z)) :
  exists L, Level._parseMap Level.fresh (row0 :: rest) = Ok L /\
            Level.rows L = Z.of_nat (List.length (row0 :: rest)) /\
            Level.cols L = Z.of_nat (List.length row0) /\
            Level.cellSize L = 4 /\
            Level.wf L.
Proof.
  eexists. split; [reflexivity|].
  cbn [Level.rows Level.cols Level.cellSize Level.fresh].
  repeat split.
  - cbn [Level.rows Level.grid]. now rewrite !length_map, length_seq.
  - cbn [Level.cols Level.grid].
    apply Forall_forall. intros row Hrow.
    apply in_map_iff in Hrow. destruct Hrow as [pr [<- Hpr]].
    apply in_map_iff in Hpr. destruct Hpr as [z [<- _]].
    now rewrite length_map, parseRow_length.
Qed.

End LevelFacts.

Section LevelClaims.

(** C3.  On a grid of [rows] by [cols] cells, [isWall] and
    [getFloorHeight] at world coordinates [(x, z)] read the cell whose
    indices are [x / cellSize] and [z / cellSize] rounded to a nearest
    integer: when those indices are in the grid the two queries return
    that cell's wall flag and floor height, and when they are not,
    [isWall] is true and the floor height is -100. *)
Theorem isWall_getFloorHeight_nearest_cell (L : Level.t) (x z : Q) :
  Level.wf L ->
  let gx := Math_round (x / Level.cellSize L) in
  let gz := Math_round (z / Level.cellSize L) in
  (forall k, Qabs (x / Level.cellSize L - inject_Z gx)
             <= Qabs (x / Level.cellSize L - inject_Z k)) /\
  (forall k, Qabs (z / Level.cellSize L - inject_Z gz)
             <= Qabs (z / Level.cellSize L - inject_Z k)) /\
  ((0 <= gz < Level.rows L)%Z /\ (0 <= gx < Level.cols L)%Z ->
   exists row c,
     nth_error (Level.grid L) (Z.to_nat gz) = Some row /\
     nth_error row (Z.to_nat gx) = Some c /\
     Level.isWall L x z = Cell.isWall c /\
     Level.getFloorHeight L x z = Cell.height c) /\
  (~ ((0 <= gz < Level.rows L)%Z /\ (0 <= gx < Level.cols L)%Z) ->
   Level.isWall L x z = true /\ Level.getFloorHeight L x z = -100).
Proof.
  intros Hwf gx gz.
  split; [intro k; apply Math_round_nearest|].
  split; [intro k; apply Math_round_nearest|].
  split.
  - intro Hin. apply inGrid_true in Hin.
    destruct (wf_cellAt L gz gx Hwf Hin) as [c Hc].
    unfold Level.isWall, Level.getFloorHeight.
    fold gx gz. rewrite Hin, Hc.
    unfold Level.cellAt in Hc.
    destruct (nth_error (Level.grid L) (Z.to_nat gz)) as [row|]; [|discriminate].
    exists row, c. auto.
  - intro Hout.
    assert (Hin : Level.inGrid L gz gx = false).
    { destruct (Level.inGrid L gz gx) eqn:E; [|reflexivity].
      apply inGrid_true in E. contradiction. }
    unfold Level.isWall, Level.getFloorHeight.
    fold gx gz. rewrite Hin. split; reflexivity.
Qed.

Lemma corridor_wf : Level.wf Sample.corridor.
Proof.
  split; [reflexivity|]. split; [reflexivity|]. repeat constructor.
Qed.

(** The corridor: the floor cell is found from a point off its centre,
    and a point one cell outside the map is solid void. *)
Lemma isWall_getFloorHeight_nearest_cell_witness :
  Level.wf Sample.corridor /\
  Level.isWall Sample.corridor (59 # 10) (21 # 10) = false /\
  Level.isWall Sample.corridor 12 4 = true /\
  Level.getFloorHeight Sample.corridor 12 4 = -100.
Proof.
  split; [exact corridor_wf|].
  destruct (isWall_getFloorHeight_nearest_cell Sample.corridor (59 # 10) (21 # 10) corridor_wf)
    as (_ & _ & Hin & _).
  destruct (isWall_getFloorHeight_nearest_cell Sample.corridor 12 4 corridor_wf)
    as (_ & _ & _ & Hout).
  split.
  - destruct Hin as (row & c & Hrow & Hc & Hw & _); [vm_compute; intuition discriminate|].
    vm_compute in Hrow. injection Hrow as <-.
    vm_compute in Hc. injection Hc as <-.
    exact Hw.
  - apply Hout. vm_compute. intros [_ [_ Hlt]]. discriminate Hlt.
Defined.

(** C7 (as the code behaves).  Called by the constructor, [_parseMap]
    raises an error on the empty map (the [TypeError] of reading the length
    of a missing first row) and succeeds on every other map, whatever the
    lengths of its rows: the grid has one row per map row and as many
    columns as the first map row is long. *)
Theorem parseMap_fails_only_on_empty :
  (exists msg, Level._parseMap Level.fresh [] = Throw (TypeError msg)) /\
  (forall row0 rest,
     exists L, Level._parseMap Level.fresh (row0 :: rest) = Ok L /\
               Level.rows L = Z.of_nat (List.length (row0 :: rest)) /\
               Level.cols L = Z.of_nat (List.length row0) /\
               Level.wf L).
Proof.
  split.
  - eexists. reflexivity.
  - intros row0 rest.
    destruct (parseMap_Ok row0 rest) as (L & HL & Hr & Hc & _ & Hwf).
    exists L. auto.
Qed.

(** C7, refuted as stated: a map with rows of unequal length is parsed,
    the missing entry read as a floor cell. *)
Lemma parseMap_accepts_ragged :
  ~ Level.rectangular Sample.ragged /\
  isOk (Level._parseMap Level.fresh Sample.ragged) = true /\
  Level.isWall (Sample.levelOf Sample.ragged) 4 4 = false.
Proof.
  split; [|split; reflexivity].
  intro Hrect.
  specialize (Hrect [0; 0]%Z [0]%Z (or_introl eq_refl) (or_intror (or_introl eq_refl))).
  discriminate Hrect.
Qed.

End LevelClaims.

(** ** The player's mover *)

Section PlayerFacts.

Lemma canMoveTo_iff (p : Player.t) (x z currentY : Q) :
  Player._canMoveTo p x z currentY = true <->
  entryAllowed (Player.level p) (Player.stepHeight p) currentY x z.
Proof.
  unfold Player._canMoveTo, entryAllowed.
  destruct (Level.isWall (Player.level p) x z).
  - split; [discriminate | intros [Hw _]; discriminate].
  - destruct (currentY + Player.stepHeight p <? Level.getFloorHeight (Player.level p) x z) eqn:E.
    + apply Qltb_true in E. split; [discriminate | intros [_ Hle]; lra].
    + apply Qltb_false in E. split; auto.
Qed.


(** What [moveHorizontal] leaves on the X axis. *)
Lemma moveHorizontal_x (p : Player.t) (dX dZ : Q) :
  let cur := Player.position p in
  let fl := Level.getFloorHeight (Player.level p) (Vector3.x cur) (Vector3.z cur) in
  let p' := Player.moveHorizontal p dX dZ in
  if Player._canMoveTo p (Vector3.x cur + dX) (Vector3.z cur) fl
  then Vector3.x (Player.position p') = Vector3.x cur + dX /\
       Vector3.x (Player.velocity p') = Vector3.x (Player.velocity p)
  else Vector3.x (Player.position p') = Vector3.x cur /\
       Vector3.x (Player.velocity p') = 0.
Proof.
  intros cur fl p'. subst p'. unfold Player.moveHorizontal. fold cur. fold fl.
  destruct (Player._canMoveTo p (Vector3.x cur + dX) (Vector3.z cur) fl);
    match goal with
    | |- context [if ?c then _ else _] => destruct c
    end; split; reflexivity.
Qed.

(** What [moveHorizontal] leaves on the Z axis; the test reads the X
    coordinate the X step has just produced. *)
Lemma moveHorizontal_z (p : Player.t) (dX dZ : Q) :
  let cur := Player.position p in
  let fl := Level.getFloorHeight (Player.level p) (Vector3.x cur) (Vector3.z cur) in
  let p' := Player.moveHorizontal p dX dZ in
  if Player._canMoveTo p (Vector3.x (Player.position p')) (Vector3.z cur + dZ) fl
  then Vector3.z (Player.position p') = Vector3.z cur + dZ /\
       Vector3.z (Player.velocity p') = Vector3.z (Player.velocity p)
  else Vector3.z (Player.position p') = Vector3.z cur /\
       Vector3.z (Player.velocity p') = 0.
Proof.
  intros cur fl p'. subst p'. unfold Player.moveHorizontal. fold cur. fold fl.
  destruct (Player._canMoveTo p (Vector3.x cur + dX) (Vector3.z cur) fl).
  - set (p1 := Player.setPosition p _).
    change (Player._canMoveTo p1) with (Player._canMoveTo p).
    destruct (Player._canMoveTo p (Vector3.x (Player.position p1)) (Vector3.z cur + dZ) fl) eqn:E;
      cbn [Player.position Player.setPosition Player.setVelocity Vector3.x Vector3.setZ] in *;
      rewrite E; split; reflexivity.
  - set (p1 := Player.setVelocity p _).
    change (Player._canMoveTo p1) with (Player._canMoveTo p).
    destruct (Player._canMoveTo p (Vector3.x (Player.position p1)) (Vector3.z cur + dZ) fl) eqn:E;
      cbn [Player.position Player.setPosition Player.setVelocity Vector3.x Vector3.setZ] in *;
      rewrite E; split; reflexivity.
Qed.

Lemma moveVertical_horizontal (p : Player.t) (dY : Q) :
  let p' := Player.moveVertical p dY in
  Vector3.x (Player.position p') = Vector3.x (Player.position p) /\
  Vector3.z (Player.position p') = Vector3.z (Player.position p) /\
  Vector3.x (Player.velocity p') = Vector3.x (Player.velocity p) /\
  Vector3.z (Player.velocity p') = Vector3.z (Player.velocity p) /\
  Player.level p' = Player.level p /\ Player.height p' = Player.height p.
Proof.
  unfold Player.moveVertical. cbn.
  match goal with |- context [if ?c then _ else _] => destruct c end;
    cbn; repeat split; reflexivity.
Qed.

Lemma moveHorizontal_fields (p : Player.t) (dX dZ : Q) :
  let p' := Player.moveHorizontal p dX dZ in
  Player.level p' = Player.level p /\ Player.height p' = Player.height p /\
  Vector3.y (Player.position p') = Vector3.y (Player.position p) /\
  Vector3.y (Player.velocity p') = Vector3.y (Player.velocity p).
Proof.
  unfold Player.moveHorizontal.
  repeat match goal with |- context [if ?c then _ else _] => destruct c end;
    cbn; repeat split; reflexivity.
Qed.

(** The snap of [moveVertical]. *)
Lemma moveVertical_snap (p : Player.t) (dY : Q) :
  let p' := Player.moveVertical p dY in
  let bound :=
    Level.getFloorHeight (Player.level p) (Vector3.x (Player.position p))
                         (Vector3.z (Player.position p)) + Player.height p in
  let y1 := Vector3.y (Player.position p) + dY in
  (y1 < bound ->
   Vector3.y (Player.position p') = bound /\ Player.onGround p' = true /\
   Vector3.y (Player.velocity p') = 0) /\
  (bound <= y1 ->
   Vector3.y (Player.position p') = y1 /\ Player.onGround p' = false /\
   Vector3.y (Player.velocity p') = Vector3.y (Player.velocity p)).
Proof.
  intros p' bound y1. subst p'. unfold Player.moveVertical.
  cbn [Player.position Player.setPosition Player.level Player.height Vector3.x
       Vector3.z Vector3.y Vector3.setY].
  fold bound. fold y1.
  destruct (y1 <? bound) eqn:E.
  - apply Qltb_true in E. split; [intros _; cbn; auto | intro; lra].
  - apply Qltb_false in E. split; [intro; lra | intros _; cbn; auto].
Qed.

End PlayerFacts.

Section PlayerClaims.
Context `{Three}.

Lemma update_locked (p : Player.t) (delta : Q) :
  Player.isLocked p = true ->
  Player.update p delta =
  Player.moveVertical
    (Player.moveHorizontal (Player.accelerate p delta)
       (Player.deltaX (Player.accelerate p delta) delta)
       (Player.deltaZ (Player.accelerate p delta) delta))
    (Player.deltaY (Player.accelerate p delta) delta).
Proof.
  intro Hl. unfold Player.update. rewrite Hl. reflexivity.
Qed.


(** C4 (as the code behaves).  After the vertical step of an update the
    player's Y is at least the floor height at the new [(x, z)] plus the
    eye height; [onGround] is true exactly when the integrated Y was
    strictly below that bound, and then Y equals the bound; otherwise Y
    is the integrated Y and [onGround] is false. *)
Theorem vertical_snap_bound (p : Player.t) (delta : Q) :
  Player.isLocked p = true ->
  let a := Player.accelerate p delta in
  let p' := Player.update p delta in
  let bound :=
    Level.getFloorHeight (Player.level p) (Vector3.x (Player.position p'))
                         (Vector3.z (Player.position p')) + Player.height p in
  let y1 := Vector3.y (Player.position p) + Player.deltaY a delta in
  bound <= Vector3.y (Player.position p') /\
  (Player.onGround p' = true <-> y1 < bound) /\
  (Player.onGround p' = true -> Vector3.y (Player.position p') = bound) /\
  (Player.onGround p' = false -> Vector3.y (Player.position p') = y1).
Proof.
  intros Hl a p' bound y1.
  set (h := Player.moveHorizontal a (Player.deltaX a delta) (Player.deltaZ a delta)).
  assert (Hp' : p' = Player.moveVertical h (Player.deltaY a delta))
    by (apply update_locked; exact Hl).
  destruct (moveVertical_horizontal h (Player.deltaY a delta))
    as (Hx & Hz & _ & _ & _ & _).
  destruct (moveHorizontal_fields a (Player.deltaX a delta) (Player.deltaZ a delta))
    as (HL & Hh & Hy & _).
  fold h in HL, Hh, Hy.
  destruct (moveVertical_snap h (Player.deltaY a delta)) as [Hlow Hhigh].
  rewrite <- Hp' in Hx, Hz, Hlow, Hhigh.
  rewrite HL, Hh, Hy, <- Hx, <- Hz in Hlow, Hhigh.
  change (Player.level a) with (Player.level p) in Hlow, Hhigh.
  change (Player.height a) with (Player.height p) in Hlow, Hhigh.
  change (Vector3.y (Player.position a)) with (Vector3.y (Player.position p)) in Hlow, Hhigh.
  fold bound in Hlow, Hhigh. fold y1 in Hlow, Hhigh.
  destruct (Qlt_le_dec y1 bound) as [Hlt | Hge].
  - destruct (Hlow Hlt) as (Hy' & Hg & _).
    rewrite Hy', Hg.
    repeat split; auto; try discriminate. apply Qle_refl.
  - destruct (Hhigh Hge) as (Hy' & Hg & _).
    rewrite Hy', Hg.
    repeat split; auto; try discriminate. intro Hlt. exfalso. lra.
Qed.

End PlayerClaims.



(** The player standing in the corner is pulled under the floor bound by
    gravity and snapped back onto it, grounded. *)
Lemma vertical_snap_bound_witness :
  Player.isLocked Sample.cornered = true /\
  (let p' := @Player.update Simple.three Sample.cornered (1 # 10) in
   Player.onGround p' = true /\ Vector3.y (Player.position p') == 16 # 10).
Proof.
  split; [reflexivity|].
  destruct (@vertical_snap_bound Simple.three Sample.cornered (1 # 10) eq_refl)
    as (_ & Hg & Hy & _).
  cbv zeta.
  assert (Hon : Player.onGround (@Player.update Simple.three Sample.cornered (1 # 10)) = true).
  { apply Hg. vm_compute. reflexivity. }
  split; [exact Hon|].
  rewrite (Hy Hon). vm_compute. reflexivity.
Defined.

(** C4, refuted as stated: a falling player whose integrated Y lands
    exactly on floor height plus eye height is left there with [onGround]
    false. *)
Lemma landing_exactly_not_grounded :
  let p' := @Player.update Simple.three Sample.falling (1 # 10) in
  Vector3.y (Player.position p')
  == Level.getFloorHeight (Player.level p') (Vector3.x (Player.position p'))
                          (Vector3.z (Player.position p')) + Player.height p' /\
  Player.onGround p' = false.
Proof.
  split; vm_compute; reflexivity.
Qed.

(** ** Monsters *)

Section MonsterClaims.
Context `{Three}.

Lemma takeDamage_now (m : Monster.t) (amount : Q) :
  let m' := fst (Monster.takeDamage m amount) in
  Monster.health m' = Monster.health m - amount /\
  Monster.state m' = Monster.state m /\
  Monster.position m' = Monster.position m /\
  id (Monster.mesh m') = id (Monster.mesh m) /\
  snd (Monster.takeDamage m amount) = [DamageTimeout (id (Monster.mesh m))].
Proof. cbn. repeat split; reflexivity. Qed.

Lemma damageTimeout_later (m : Monster.t) :
  let m' := Monster.damageTimeout m in
  Monster.health m' = Monster.health m /\
  Monster.position m' = Monster.position m /\
  (Monster.state m' = dead <-> Monster.health m <= 0 \/ Monster.state m = dead) /\
  (0 < Monster.health m -> Monster.state m' = Monster.state m).
Proof.
  unfold Monster.damageTimeout.
  destruct (Monster.health m <=? 0) eqn:E.
  - apply Qleb_true in E. cbn. repeat split; auto. intro. exfalso. lra.
  - apply Qleb_false in E. cbn. repeat split; auto.
    intros [Hle | Hd]; [exfalso; lra | exact Hd].
Qed.

(** C5 (as the code behaves).  For a monster in the dead state, [update]
    changes nothing at all; [takeDamage] leaves its position and state
    as they are but still subtracts the amount from its health; the
    callback [takeDamage] schedules leaves position and health as they
    are and the monster dead. *)
Theorem dead_monster_inert (m : Monster.t) :
  Monster.state m = dead ->
  (forall delta playerPos rnd1 rnd2, Monster.update m delta playerPos rnd1 rnd2 = m) /\
  (forall amount,
     let m' := fst (Monster.takeDamage m amount) in
     Monster.position m' = Monster.position m /\
     Monster.state m' = dead /\
     Monster.health m' = Monster.health m - amount) /\
  (let m' := Monster.damageTimeout m in
   Monster.position m' = Monster.position m /\
   Monster.health m' = Monster.health m /\
   Monster.state m' = dead).
Proof.
  intro Hd. split; [|split].
  - intros. unfold Monster.update. rewrite Hd. reflexivity.
  - intros amount m'. subst m'.
    destruct (takeDamage_now m amount) as (Hh & Hs & Hp & _).
    rewrite Hs. auto.
  - destruct (damageTimeout_later m) as (Hh & Hp & Hs & _).
    cbv zeta. repeat split; auto. apply Hs. right. exact Hd.
Qed.

(** C6 (as the code behaves).  [takeDamage] subtracts from health at
    once and leaves the state as it is; the monster becomes dead when the
    callback scheduled by [takeDamage] runs and finds health at or below
    zero.  Two hits of 20 bring a new imp (40) to health 0, five bring a
    new demon (100) to health 0, and in both cases the monster is still
    idle until a callback runs and dead after it; one hit leaves a new
    demon at health 80, not dead before or after its callback. *)
Theorem damage_now_death_on_timeout (x z : Q) (L : Level.t) (meshId : nat) :
  let hit := fun m => fst (Monster.takeDamage m 20) in
  let imp2 := hit (hit (Monster.new imp x z L meshId)) in
  let demon5 := hit (hit (hit (hit (hit (Monster.new demon x z L meshId))))) in
  let demon1 := hit (Monster.new demon x z L meshId) in
  (forall m amount,
     Monster.health (fst (Monster.takeDamage m amount)) = Monster.health m - amount /\
     Monster.state (fst (Monster.takeDamage m amount)) = Monster.state m /\
     snd (Monster.takeDamage m amount) = [DamageTimeout (id (Monster.mesh m))] /\
     runTimeouts (snd (Monster.takeDamage m amount)) [fst (Monster.takeDamage m amount)]
     = [Monster.damageTimeout (fst (Monster.takeDamage m amount))]) /\
  (forall m, Monster.state (Monster.damageTimeout m) = dead <->
             Monster.health m <= 0 \/ Monster.state m = dead) /\
  (Monster.health imp2 == 0 /\ Monster.state imp2 = idle /\
   Monster.state (Monster.damageTimeout imp2) = dead) /\
  (Monster.health demon5 == 0 /\ Monster.state demon5 = idle /\
   Monster.state (Monster.damageTimeout demon5) = dead) /\
  (Monster.health demon1 = 80 /\ Monster.state demon1 = idle /\
   Monster.state (Monster.damageTimeout demon1) = idle).
Proof.
  intros hit imp2 demon5 demon1.
  split; [|split; [|split; [|split]]].
  - intros m amount. destruct (takeDamage_now m amount) as (Hh & Hs & _ & _ & Ht).
    repeat split; auto.
    cbn. rewrite Nat.eqb_refl. reflexivity.
  - intro m. apply (damageTimeout_later m).
  - repeat split; reflexivity.
  - repeat split; reflexivity.
  - repeat split; reflexivity.
Qed.

End MonsterClaims.

(** The imp killed by two hits is not moved by an update that would
    otherwise make it chase a player 6 units away. *)
Lemma dead_monster_inert_witness :
  Monster.state Sample.deadImp = dead /\
  @Monster.update Simple.three Sample.deadImp (1 # 10) (Vector3.mk 4 1 4) 0 0 = Sample.deadImp.
Proof.
  split; [reflexivity|].
  apply (@dead_monster_inert Simple.three Sample.deadImp eq_refl).
Defined.

(** C5, refuted as stated: a hit on the dead imp changes its health. *)
Lemma takeDamage_on_dead_changes_health :
  Monster.state Sample.deadImp = dead /\
  Monster.health Sample.deadImp == 0 /\
  Monster.health (fst (Monster.takeDamage Sample.deadImp 20)) == -20 /\
  ~ Monster.health (fst (Monster.takeDamage Sample.deadImp 20))
    == Monster.health Sample.deadImp.
Proof.
  repeat split; try reflexivity. vm_compute. discriminate.
Qed.

(** C6, refuted as stated: right after its second hit of 20 an imp has
    health 0 and is not dead. *)
Lemma imp_not_dead_right_after_two_hits :
  Monster.health Sample.impHitTwice == 0 /\
  Monster.state Sample.impHitTwice <> dead /\
  Monster.state Sample.deadImp = dead.
Proof.
  repeat split; try reflexivity. vm_compute. discriminate.
Qed.

(** ** Sorting of intersections *)

Section SortFacts.

Lemma insertHit_perm (h : Hit) (l : list Hit) : Permutation (insertHit h l) (h :: l).
Proof.
  induction l as [|h' l IH]; simpl; [apply Permutation_refl|].
  destruct (distance h' <? distance h).
  - apply perm_trans with (h' :: h :: l); [now apply perm_skip | apply perm_swap].
  - apply Permutation_refl.
Qed.

Lemma sortHits_perm (l : list Hit) : Permutation (sortHits l) l.
Proof.
  induction l as [|h l IH]; simpl; [constructor|].
  apply perm_trans with (h :: sortHits l); [apply insertHit_perm | now apply perm_skip].
Qed.

Lemma insertHit_sorted (h : Hit) (l : list Hit) :
  StronglySorted hitLe l -> StronglySorted hitLe (insertHit h l).
Proof.
  induction 1 as [|h' l Hs IH Hall]; simpl.
  - repeat constructor.
  - destruct (distance h' <? distance h) eqn:E.
    + apply Qltb_true in E. constructor; [exact IH|].
      apply Forall_forall. intros y Hy.
      apply (Permutation_in _ (insertHit_perm h l)) in Hy.
      destruct Hy as [<- | Hy]; [unfold hitLe; lra|].
      rewrite Forall_forall in Hall. now apply Hall.
    + apply Qltb_false in E. constructor; [now constructor|].
      constructor; [unfold hitLe; lra|].
      apply Forall_forall. intros y Hy.
      rewrite Forall_forall in Hall. specialize (Hall y Hy).
      unfold hitLe in *. lra.
Qed.

Lemma sortHits_sorted (l : list Hit) : StronglySorted hitLe (sortHits l).
Proof.
  induction l as [|h l IH]; simpl; [constructor | now apply insertHit_sorted].
Qed.

(** The first element of the sorted array is an intersection at the
    least distance. *)
Lemma sortHits_head (l : list Hit) (h : Hit) (t : list Hit) :
  sortHits l = h :: t ->
  In h l /\ forall h', In h' l -> distance h <= distance h'.
Proof.
  intro Hs.
  pose proof (sortHits_perm l) as Hp.
  pose proof (sortHits_sorted l) as Hsorted.
  rewrite Hs in Hp, Hsorted.
  split.
  - apply (Permutation_in _ Hp). now left.
  - intros h' Hin.
    apply (Permutation_in _ (Permutation_sym Hp)) in Hin.
    destruct Hin as [<- | Hin]; [apply Qle_refl|].
    inversion Hsorted as [|? ? _ Hall]; subst.
    rewrite Forall_forall in Hall. now apply Hall.
Qed.

Lemma sortHits_nil (l : list Hit) : sortHits l = [] <-> l = [].
Proof.
  split; [|intros ->; reflexivity].
  intro Hs. pose proof (sortHits_perm l) as Hp. rewrite Hs in Hp.
  now apply Permutation_nil in Hp.
Qed.

(** The sort is stable: the first element of the sorted array is the
    first of the array that is at the least distance. *)
Lemma sortHits_head_first (l : list Hit) (h : Hit) (t : list Hit) :
  sortHits l = h :: t ->
  exists pre post,
    l = pre ++ h :: post /\ Forall (fun x => distance h < distance x) pre.
Proof.
  revert h t. induction l as [|a l IH]; intros h t Hs; [discriminate|].
  simpl in Hs. destruct (sortHits l) as [|b t'] eqn:El.
  - simpl in Hs. injection Hs as <- <-. exists [], l. split; [reflexivity | constructor].
  - simpl in Hs. destruct (distance b <? distance a) eqn:E.
    + injection Hs as <- <-. apply Qltb_true in E.
      destruct (IH b t' eq_refl) as (pre & post & -> & Hpre).
      exists (a :: pre), post. split; [reflexivity|].
      constructor; [exact E | exact Hpre].
    + injection Hs as <- <-. exists [], l. split; [reflexivity | constructor].
Qed.

(** Sorting two arrangements of the same intersections gives first
    elements at the same distance. *)
Lemma sortHits_head_perm (l l' : list Hit) (h : Hit) (t : list Hit) :
  Permutation l l' -> sortHits l = h :: t ->
  exists h' t', sortHits l' = h' :: t' /\ distance h' == distance h.
Proof.
  intros Hp Hs.
  destruct (sortHits l') as [|h' t'] eqn:Hs'.
  - apply (proj1 (sortHits_nil l')) in Hs'. subst l'.
    apply Permutation_sym, Permutation_nil in Hp. subst l. discriminate.
  - exists h', t'. split; [reflexivity|].
    destruct (sortHits_head _ _ _ Hs) as [Hin Hmin].
    destruct (sortHits_head _ _ _ Hs') as [Hin' Hmin'].
    apply Qle_antisym.
    + apply Hmin'. now apply (Permutation_in _ Hp).
    + apply Hmin. now apply (Permutation_in _ (Permutation_sym Hp)).
Qed.

End SortFacts.

(** ** Projectiles *)

Section ProjectileFacts.
Context `{Three}.

Lemma filter_perm {A} (f : A -> bool) (l l' : list A) :
  Permutation l l' -> Permutation (filter f l) (filter f l').
Proof.
  induction 1 as [| a l l' _ IH | a b l | l l' l'' _ IH1 _ IH2]; simpl.
  - constructor.
  - destruct (f a); [now apply perm_skip | exact IH].
  - destruct (f a), (f b); try apply Permutation_refl. apply perm_swap.
  - now apply perm_trans with (filter f l').
Qed.

Lemma intersectAll_app (rc : Raycaster) (xs ys : list Object3D) :
  intersectAll rc (xs ++ ys) = intersectAll rc xs ++ intersectAll rc ys.
Proof. unfold intersectAll. apply flat_map_app. Qed.

Lemma intersectAll_object (rc : Raycaster) (objs : list Object3D) (h : Hit) :
  In h (intersectAll rc objs) -> In (object h) objs.
Proof.
  unfold intersectAll. rewrite in_flat_map. intros (o & Ho & Hh).
  apply in_map_iff in Hh. destruct Hh as (dp & <- & _). exact Ho.
Qed.

Lemma intersectAll_perm (rc : Raycaster) (xs ys : list Object3D) :
  Permutation xs ys -> Permutation (intersectAll rc xs) (intersectAll rc ys).
Proof. intro Hp. unfold intersectAll. now apply Permutation_flat_map. Qed.

Lemma levelMeshes_perm (l1 l2 : Level.t) :
  Permutation (Level.levelGroup l1) (Level.levelGroup l2) ->
  Permutation (Projectile.levelMeshes l1) (Projectile.levelMeshes l2).
Proof. apply filter_perm. Qed.

Lemma monsterMeshes_perm (ms ms' : list Monster.t) :
  Permutation ms ms' ->
  Permutation (Projectile.monsterMeshes ms) (Projectile.monsterMeshes ms').
Proof. intro Hp. unfold Projectile.monsterMeshes. now apply Permutation_map, filter_perm. Qed.

Lemma monsterMeshes_In (ms : list Monster.t) (o : Object3D) :
  In o (Projectile.monsterMeshes ms) ->
  exists m, In m ms /\ isDead (Monster.state m) = false /\ Monster.mesh m = o.
Proof.
  unfold Projectile.monsterMeshes. rewrite in_map_iff.
  intros (m & Hm & Hin). apply filter_In in Hin. destruct Hin as [Hin Hlive].
  exists m. repeat split; auto. now apply negb_true_iff.
Qed.

(** What lines 205-219 select from the two sorted arrays. *)
Lemma closestHit_spec (A B : list Hit) :
  match Projectile.closestHit (sortHits A) (sortHits B) with
  | None => A = [] /\ B = []
  | Some (h, ty) =>
      (forall h', In h' (A ++ B) -> distance h <= distance h') /\
      match ty with wall => In h A | monster => In h B end
  end.
Proof.
  unfold Projectile.closestHit.
  destruct (sortHits A) as [|a ta] eqn:EA; destruct (sortHits B) as [|b tb] eqn:EB.
  - split; now apply sortHits_nil.
  - destruct (sortHits_head _ _ _ EB) as [Hin Hmin].
    apply (proj1 (sortHits_nil A)) in EA. subst A. split; [exact Hmin | exact Hin].
  - destruct (sortHits_head _ _ _ EA) as [Hin Hmin].
    apply (proj1 (sortHits_nil B)) in EB. subst B. rewrite app_nil_r. split; [exact Hmin | exact Hin].
  - destruct (sortHits_head _ _ _ EA) as [HinA HminA].
    destruct (sortHits_head _ _ _ EB) as [HinB HminB].
    destruct (distance b <? distance a) eqn:E.
    + apply Qltb_true in E. split; [|exact HinB].
      intros h' Hh'. apply in_app_or in Hh'. destruct Hh' as [Hh' | Hh'].
      * specialize (HminA h' Hh'). lra.
      * now apply HminB.
    + apply Qltb_false in E. split; [|exact HinA].
      intros h' Hh'. apply in_app_or in Hh'. destruct Hh' as [Hh' | Hh'].
      * now apply HminA.
      * specialize (HminB h' Hh'). lra.
Qed.

Lemma Qltb_compat (a a' b b' : Q) : a == a' -> b == b' -> (a <? b) = (a' <? b').
Proof.
  intros Ha Hb.
  destruct (a <? b) eqn:E; symmetry.
  - apply Qltb_true in E. apply Qltb_true. lra.
  - apply Qltb_false in E. apply Qltb_false. lra.
Qed.

(** The selection does not depend on the order of the candidates. *)
Lemma closestHit_perm (A A' B B' : list Hit) (h : Hit) (ty : HitType) :
  Permutation A A' -> Permutation B B' ->
  Projectile.closestHit (sortHits A) (sortHits B) = Some (h, ty) ->
  exists h', Projectile.closestHit (sortHits A') (sortHits B') = Some (h', ty) /\
             distance h' == distance h.
Proof.
  intros HA HB. unfold Projectile.closestHit.
  destruct (sortHits A) as [|a ta] eqn:EA; destruct (sortHits B) as [|b tb] eqn:EB.
  - discriminate.
  - intro Heq. injection Heq as <- <-.
    apply (proj1 (sortHits_nil A)) in EA. subst A. apply Permutation_nil in HA. subst A'.
    destruct (sortHits_head_perm _ _ _ _ HB EB) as (b' & tb' & -> & Hd).
    simpl. eauto.
  - intro Heq. injection Heq as <- <-.
    apply (proj1 (sortHits_nil B)) in EB. subst B. apply Permutation_nil in HB. subst B'.
    destruct (sortHits_head_perm _ _ _ _ HA EA) as (a' & ta' & -> & Hd).
    simpl. eauto.
  - destruct (sortHits_head_perm _ _ _ _ HA EA) as (a' & ta' & -> & Hda).
    destruct (sortHits_head_perm _ _ _ _ HB EB) as (b' & tb' & -> & Hdb).
    rewrite (Qltb_compat _ _ _ _ Hdb Hda).
    destruct (distance b <? distance a); intro Heq; injection Heq as <- <-; eauto.
Qed.

(** Of the array it is taken from, the hit selected is the first at its
    distance. *)
Lemma closestHit_first (A B : list Hit) (h : Hit) (ty : HitType) :
  Projectile.closestHit (sortHits A) (sortHits B) = Some (h, ty) ->
  exists pre post,
    match ty with wall => A | monster => B end = pre ++ h :: post /\
    Forall (fun x => distance h < distance x) pre.
Proof.
  unfold Projectile.closestHit.
  destruct (sortHits A) as [|a ta] eqn:EA; destruct (sortHits B) as [|b tb] eqn:EB.
  - discriminate.
  - intro Heq. injection Heq as <- <-. exact (sortHits_head_first _ _ _ EB).
  - intro Heq. injection Heq as <- <-. exact (sortHits_head_first _ _ _ EA).
  - destruct (distance b <? distance a); intro Heq; injection Heq as <- <-.
    + exact (sortHits_head_first _ _ _ EB).
    + exact (sortHits_head_first _ _ _ EA).
Qed.

(** A monster is selected exactly when some monster hit is strictly
    nearer than every level hit. *)
Lemma closestHit_kind (A B : list Hit) (h : Hit) (ty : HitType) :
  Projectile.closestHit (sortHits A) (sortHits B) = Some (h, ty) ->
  (ty = monster <->
   exists a, In a B /\ forall b, In b A -> distance a < distance b).
Proof.
  unfold Projectile.closestHit.
  destruct (sortHits A) as [|a ta] eqn:EA; destruct (sortHits B) as [|b tb] eqn:EB.
  - discriminate.
  - intro Heq. injection Heq as <- <-.
    destruct (sortHits_head _ _ _ EB) as [Hin _].
    apply (proj1 (sortHits_nil A)) in EA. subst A.
    split; [|reflexivity]. intros _. exists b. split; [exact Hin | intros ? []].
  - intro Heq. injection Heq as <- <-.
    apply (proj1 (sortHits_nil B)) in EB. subst B.
    split; [discriminate | intros (x & [] & _)].
  - destruct (sortHits_head _ _ _ EA) as [HinA HminA].
    destruct (sortHits_head _ _ _ EB) as [HinB HminB].
    destruct (distance b <? distance a) eqn:E; intro Heq; injection Heq as <- <-.
    + apply Qltb_true in E. split; [|reflexivity]. intros _.
      exists b. split; [exact HinB|]. intros y Hy. specialize (HminA y Hy). lra.
    + apply Qltb_false in E. split; [discriminate|].
      intros (x & Hx & Hall). exfalso.
      specialize (Hall a HinA). specialize (HminB x Hx). lra.
Qed.

(** [find] followed by [takeDamage(20)], when no two monsters share a
    mesh. *)
Lemma damageFound_unique (ms : list Monster.t) (m : Monster.t) :
  NoDup (map (fun m => id (Monster.mesh m)) ms) -> In m ms ->
  exists pre post,
    ms = pre ++ m :: post /\
    Projectile.damageFound (Monster.mesh m) ms =
    (pre ++ fst (Monster.takeDamage m 20) :: post, [DamageTimeout (id (Monster.mesh m))]).
Proof.
  induction ms as [|m0 ms IH]; intros Hnd Hin; [contradiction|].
  simpl in Hnd. inversion Hnd as [|? ? Hnot Hnd']; subst.
  destruct Hin as [-> | Hin].
  - exists [], ms. split; [reflexivity|].
    simpl. now rewrite Nat.eqb_refl.
  - destruct (IH Hnd' Hin) as (pre & post & Hms & Hdf).
    exists (m0 :: pre), post. split; [simpl; now rewrite Hms|].
    simpl.
    destruct (Nat.eqb (id (Monster.mesh m0)) (id (Monster.mesh m))) eqn:E.
    + apply Nat.eqb_eq in E. exfalso. apply Hnot. rewrite E.
      apply (in_map (fun m => id (Monster.mesh m))). exact Hin.
    + rewrite Hdf. reflexivity.
Qed.

End ProjectileFacts.

Section ProjectileClaims.
Context `{Three}.

(** The projectile a tick leaves when nothing destroys it on the way. *)
Lemma update_unfold (p : Projectile.t) (delta : Q) (lvl : Level.t) (w : Projectile.World) :
  Projectile.alive p = true ->
  let p1 := Projectile.move p delta in
  let rc := Projectile.ray p1 delta in
  let found :=
    if 0 <? Vector3.lengthSq (Projectile.displacement p delta) then
      Projectile.closestHit
        (intersectObjects rc (Projectile.levelMeshes lvl))
        (intersectObjects rc (Projectile.monsterMeshes (Projectile.monsters w)))
    else None in
  let far := 1000 * 1000 <? Vector3.lengthSq (Projectile.position p1) in
  Projectile.update p delta lvl w =
  match found with
  | Some (hit, ty) =>
      (Projectile.destroy p1, snd (Projectile.onHit p1 hit ty w))
  | None => (if far then Projectile.destroy p1 else p1, w)
  end.
Proof.
  intros Ha p1 rc found far.
  unfold Projectile.update. rewrite Ha. cbn [negb].
  fold p1. fold rc.
  change (Projectile.displacement p1 delta) with (Projectile.displacement p delta).
  subst found.
  destruct (0 <? Vector3.lengthSq (Projectile.displacement p delta)).
  - destruct (Projectile.closestHit _ _) as [[hit ty]|].
    + unfold Projectile.onHit. cbn [fst snd Projectile.position Projectile.destroy].
      fold far. destruct far; reflexivity.
    + fold far. destruct far; reflexivity.
  - fold far. destruct far; reflexivity.
Qed.

(** C1 (as the code behaves).  In a tick of a live projectile with a
    positive displacement, the ray is cast from the previous position
    along the direction as far as the displacement; the candidates are the
    meshes of the level group and the sprites of the monsters that are not
    dead.  When the ray meets at least one of them, the hit acted upon is
    an intersection at the least distance among all intersections with all
    candidates; it is a monster's exactly when some monster intersection
    is strictly nearer than every level intersection; of the intersections
    of its kind it is the first listed at that distance.  Its distance and
    kind are the same whatever the order of the level meshes and of the
    monsters, and it is that very intersection when no other is as near.
    The impact effect is at its point; if it is a monster's, that monster
    (not dead, and no two monsters sharing a sprite) has 20 taken from its
    health and the others are untouched; in every case the projectile is
    no longer alive. *)
Theorem closest_hit_acted_upon
        (p : Projectile.t) (delta : Q) (lvl : Level.t) (w : Projectile.World) :
  Projectile.alive p = true ->
  0 < Vector3.lengthSq (Projectile.displacement p delta) ->
  NoDup (map (fun m => id (Monster.mesh m)) (Projectile.monsters w)) ->
  let rc := mkRaycaster (Projectile.position p) (Projectile.direction p)
                        (Vector3.lengthSq (Projectile.displacement p delta)) in
  let walls := filter isMesh (Level.levelGroup lvl) in
  let agents :=
    filter (fun m => negb (isDead (Monster.state m))) (Projectile.monsters w) in
  let wallHits := intersectAll rc walls in
  let agentHits := intersectAll rc (map Monster.mesh agents) in
  wallHits ++ agentHits <> [] ->
  let r := Projectile.update p delta lvl w in
  exists (h : Hit) (ty : HitType),
    Projectile.closestHit (sortHits wallHits) (sortHits agentHits) = Some (h, ty) /\
    In h (match ty with wall => wallHits | monster => agentHits end) /\
    (forall h', In h' (wallHits ++ agentHits) -> distance h <= distance h') /\
    (ty = monster <->
     exists a, In a agentHits /\ forall b, In b wallHits -> distance a < distance b) /\
    (exists pre post,
       match ty with wall => wallHits | monster => agentHits end = pre ++ h :: post /\
       Forall (fun x => distance h < distance x) pre) /\
    Projectile.alive (fst r) = false /\
    Projectile.impacts (snd r) = Projectile.impacts w ++ [point h] /\
    match ty with
    | wall =>
        In (object h) walls /\
        Projectile.monsters (snd r) = Projectile.monsters w /\
        Projectile.timeouts (snd r) = Projectile.timeouts w
    | monster =>
        exists pre m post,
          Projectile.monsters w = pre ++ m :: post /\
          Monster.mesh m = object h /\
          Monster.state m <> dead /\
          Projectile.monsters (snd r) = pre ++ fst (Monster.takeDamage m 20) :: post /\
          Monster.health (fst (Monster.takeDamage m 20)) = Monster.health m - 20 /\
          Projectile.timeouts (snd r)
          = Projectile.timeouts w ++ [DamageTimeout (id (Monster.mesh m))]
    end /\
    (forall lvl' w',
       Permutation (Level.levelGroup lvl) (Level.levelGroup lvl') ->
       Permutation (Projectile.monsters w) (Projectile.monsters w') ->
       let wallHits' := intersectAll rc (filter isMesh (Level.levelGroup lvl')) in
       let agentHits' :=
         intersectAll rc
           (map Monster.mesh
                (filter (fun m => negb (isDead (Monster.state m)))
                        (Projectile.monsters w'))) in
       exists h2,
         Projectile.closestHit (sortHits wallHits') (sortHits agentHits') = Some (h2, ty) /\
         distance h2 == distance h /\
         ((forall h', In h' (wallHits ++ agentHits) -> distance h' <= distance h -> h' = h) ->
          h2 = h) /\
         Projectile.alive (fst (Projectile.update p delta lvl' w')) = false /\
         Projectile.impacts (snd (Projectile.update p delta lvl' w'))
         = Projectile.impacts w' ++ [point h2]).
Proof.
  intros Ha Hd Hnd rc walls agents wallHits agentHits Hne r.
  assert (Hpos : (0 <? Vector3.lengthSq (Projectile.displacement p delta)) = true)
    by now apply Qltb_true.
  pose proof (closestHit_spec wallHits agentHits) as Hspec.
  destruct (Projectile.closestHit (sortHits wallHits) (sortHits agentHits))
    as [[h ty]|] eqn:Hc.
  2:{ exfalso. apply Hne. destruct Hspec as [-> ->]. reflexivity. }
  destruct Hspec as [Hmin Hin].
  exists h, ty.
  pose proof (update_unfold p delta lvl w Ha) as Hu. cbv zeta in Hu.
  rewrite Hpos in Hu.
  change (Projectile.closestHit
            (intersectObjects (Projectile.ray (Projectile.move p delta) delta)
                              (Projectile.levelMeshes lvl))
            (intersectObjects (Projectile.ray (Projectile.move p delta) delta)
                              (Projectile.monsterMeshes (Projectile.monsters w))))
    with (Projectile.closestHit (sortHits wallHits) (sortHits agentHits)) in Hu.
  rewrite Hc in Hu. fold r in Hu.
  split; [reflexivity|].
  split; [destruct ty; exact Hin|].
  split; [exact Hmin|].
  split; [exact (closestHit_kind _ _ _ _ Hc)|].
  split; [exact (closestHit_first _ _ _ _ Hc)|].
  split; [rewrite Hu; reflexivity|].
  split.
  { rewrite Hu. cbn [snd]. unfold Projectile.onHit.
    destruct ty; [reflexivity|].
    cbn [Projectile.createImpactEffect Projectile.monsters Projectile.timeouts
         Projectile.impacts].
    destruct (Projectile.damageFound _ _). reflexivity. }
  split.
  { destruct ty.
    - split; [now apply (intersectAll_object rc)|].
      rewrite Hu. split; reflexivity.
    - apply intersectAll_object in Hin.
      change (map Monster.mesh agents)
        with (Projectile.monsterMeshes (Projectile.monsters w)) in Hin.
      apply monsterMeshes_In in Hin. destruct Hin as (m & Hm & Hlive & Hmesh).
      destruct (damageFound_unique _ m Hnd Hm) as (pre & post & Hms & Hdf).
      exists pre, m, post.
      split; [exact Hms|]. split; [exact Hmesh|].
      split; [intro Hs; rewrite Hs in Hlive; discriminate|].
      rewrite Hu. cbn [snd]. unfold Projectile.onHit.
      cbn [Projectile.createImpactEffect Projectile.monsters Projectile.timeouts
           Projectile.impacts].
      rewrite <- Hmesh, Hdf.
      cbn [Projectile.monsters Projectile.timeouts].
      repeat split; reflexivity. }
  intros lvl' w' HpL HpM wallHits' agentHits'.
  destruct (closestHit_perm wallHits wallHits' agentHits agentHits' h ty)
    as (h2 & Hc2 & Hd2).
  { apply intersectAll_perm, levelMeshes_perm, HpL. }
  { apply intersectAll_perm, monsterMeshes_perm, HpM. }
  { exact Hc. }
  exists h2.
  pose proof (update_unfold p delta lvl' w' Ha) as Hu'. cbv zeta in Hu'.
  rewrite Hpos in Hu'.
  change (Projectile.closestHit
            (intersectObjects (Projectile.ray (Projectile.move p delta) delta)
                              (Projectile.levelMeshes lvl'))
            (intersectObjects (Projectile.ray (Projectile.move p delta) delta)
                              (Projectile.monsterMeshes (Projectile.monsters w'))))
    with (Projectile.closestHit (sortHits wallHits') (sortHits agentHits')) in Hu'.
  rewrite Hc2 in Hu'.
  split; [exact Hc2|]. split; [exact Hd2|].
  split.
  { intro Huniq. apply Huniq; [|rewrite Hd2; apply Qle_refl].
    pose proof (closestHit_spec wallHits' agentHits') as Hspec2.
    rewrite Hc2 in Hspec2. destruct Hspec2 as [_ Hin2].
    apply in_or_app.
    destruct ty; [left | right].
    - eapply Permutation_in; [|exact Hin2].
      apply Permutation_sym, intersectAll_perm, levelMeshes_perm, HpL.
    - eapply Permutation_in; [|exact Hin2].
      apply Permutation_sym, intersectAll_perm, monsterMeshes_perm, HpM. }
  rewrite Hu'. split; [reflexivity|].
  cbn [snd]. unfold Projectile.onHit.
  destruct ty; [reflexivity|].
  cbn [Projectile.createImpactEffect Projectile.monsters Projectile.timeouts
       Projectile.impacts].
  destruct (Projectile.damageFound _ _). reflexivity.
Qed.

(** C8 (as the code behaves).  A live projectile is destroyed by a tick
    exactly when the tick has a positive displacement and its ray meets
    some level mesh or live monster, or when its new position is more
    than 1000 units from the world origin [(0, 0, 0)]; otherwise it stays
    alive.  A projectile that is not alive is not updated. *)
Theorem projectile_destroyed_iff
        (p : Projectile.t) (delta : Q) (lvl : Level.t) (w : Projectile.World) :
  Projectile.alive p = true ->
  let rc := Projectile.ray (Projectile.move p delta) delta in
  let hits :=
    intersectAll rc (Projectile.levelMeshes lvl
                     ++ Projectile.monsterMeshes (Projectile.monsters w)) in
  let p' := fst (Projectile.update p delta lvl w) in
  Projectile.position p'
  = Vector3.add (Projectile.position p) (Projectile.displacement p delta) /\
  (Projectile.alive p' = false <->
   (0 < Vector3.lengthSq (Projectile.displacement p delta) /\ hits <> []) \/
   1000 * 1000 < Vector3.lengthSq (Projectile.position p')) /\
  (forall q, Projectile.alive q = false -> Projectile.update q delta lvl w = (q, w)).
Proof.
  intros Ha rc hits p'.
  set (LM := Projectile.levelMeshes lvl) in *.
  set (MM := Projectile.monsterMeshes (Projectile.monsters w)) in *.
  pose proof (update_unfold p delta lvl w Ha) as Hu. cbv zeta in Hu.
  fold rc LM MM in Hu.
  pose proof (closestHit_spec (intersectAll rc LM) (intersectAll rc MM)) as Hspec.
  fold (intersectObjects rc LM) in Hspec. fold (intersectObjects rc MM) in Hspec.
  assert (Hhits : hits = intersectAll rc LM ++ intersectAll rc MM)
    by apply intersectAll_app.
  split; [|split].
  - unfold p'. rewrite Hu.
    repeat match goal with |- context [match ?c with _ => _ end] => destruct c end;
      reflexivity.
  - unfold p'. rewrite Hu.
    destruct (0 <? Vector3.lengthSq (Projectile.displacement p delta)) eqn:Epos.
    + apply Qltb_true in Epos.
      destruct (Projectile.closestHit (intersectObjects rc LM) (intersectObjects rc MM))
        as [[h ty]|].
      * destruct Hspec as [_ Hin]. cbn [fst Projectile.alive Projectile.destroy].
        split; [intros _|reflexivity]. left. split; [exact Epos|].
        rewrite Hhits. destruct ty; intro Hnil; apply app_eq_nil in Hnil;
          destruct Hnil as [HA HB]; [rewrite HA in Hin | rewrite HB in Hin]; exact Hin.
      * destruct Hspec as [HA HB].
        assert (Hnil : hits = []) by (rewrite Hhits, HA, HB; reflexivity).
        cbn [fst].
        destruct (1000 * 1000 <? Vector3.lengthSq (Projectile.position (Projectile.move p delta)))
          eqn:Efar.
        -- apply Qltb_true in Efar. cbn. split; [intros _; right; exact Efar | reflexivity].
        -- apply Qltb_false in Efar.
           change (Projectile.alive (Projectile.move p delta)) with (Projectile.alive p).
           rewrite Ha. split; [discriminate|].
           intros [[_ Hne] | Hfar]; [contradiction | exfalso; lra].
    + apply Qltb_false in Epos. cbn [fst].
      destruct (1000 * 1000 <? Vector3.lengthSq (Projectile.position (Projectile.move p delta)))
        eqn:Efar.
      * apply Qltb_true in Efar. cbn. split; [intros _; right; exact Efar | reflexivity].
      * apply Qltb_false in Efar.
        change (Projectile.alive (Projectile.move p delta)) with (Projectile.alive p).
        rewrite Ha. split; [discriminate|].
        intros [[Hpos _] | Hfar]; exfalso; lra.
  - intros q Hq. unfold Projectile.update. rewrite Hq. reflexivity.
Qed.

End ProjectileClaims.

(** The third scenario: wall at 8, imp at 5, a dead monster listed first;
    the imp is the one hit, the dead monster is left as it was and the
    projectile is destroyed. *)
Lemma closest_hit_acted_upon_witness :
  Projectile.alive Sample.shot = true /\
  0 < Vector3.lengthSq (Projectile.displacement Sample.shot (1 # 4)) /\
  Projectile.monsters
    (snd (@Projectile.update Simple.three Sample.shot (1 # 4) Sample.range Sample.world))
  = [Sample.corpse; fst (Monster.takeDamage Sample.target 20)] /\
  Projectile.alive
    (fst (@Projectile.update Simple.three Sample.shot (1 # 4) Sample.range Sample.world))
  = false.
Proof.
  assert (Hpos : 0 < Vector3.lengthSq (Projectile.displacement Sample.shot (1 # 4)))
    by (vm_compute; reflexivity).
  assert (Hnd : NoDup (map (fun m => id (Monster.mesh m))
                           (Projectile.monsters Sample.world))).
  { apply NoDup_cons; [simpl; intros [E | []]; discriminate E|].
    apply NoDup_cons; [simpl; intros [] | apply NoDup_nil]. }
  split; [reflexivity|]. split; [exact Hpos|].
  destruct (@closest_hit_acted_upon Simple.three Sample.shot (1 # 4) Sample.range
              Sample.world eq_refl Hpos Hnd)
    as (h & ty & _ & _ & _ & Hkind & _ & Hdead & _ & Hcase & _).
  - vm_compute. discriminate.
  - assert (Hty : ty = monster).
    { apply (proj2 Hkind). eexists. split.
      - vm_compute. left. reflexivity.
      - intros b Hb. vm_compute in Hb. destruct Hb as [<- | []].
        vm_compute. reflexivity. }
    subst ty. split; [|exact Hdead].
    destruct Hcase as (pre & m & post & Hw & _ & Hlive & Hms & _).
    rewrite Hms.
    change (Projectile.monsters Sample.world) with [Sample.corpse; Sample.target] in Hw.
    destruct pre as [|c pre].
    + injection Hw as Hm _. exfalso. apply Hlive. rewrite <- Hm. reflexivity.
    + injection Hw as Hc Hrest. destruct pre as [|c' pre].
      * injection Hrest as Hm Hpost. subst c m post. reflexivity.
      * injection Hrest as _ Hrest. destruct pre; discriminate Hrest.
Defined.

(** C1, refuted as stated: two live imps at the same distance from the
    start of the segment, nothing else in the way.  Listed as sprite 21
    then 22, the tick takes 20 from 21 and leaves 22; listed as 22 then
    21, it takes 20 from 22 and leaves 21.  Which agent is damaged depends
    on the order of the candidates. *)
Lemma tie_goes_to_first_listed :
  let hits (w : Projectile.World) :=
    @intersectAll Simple.three
      (mkRaycaster (Projectile.position Sample.shot) (Projectile.direction Sample.shot)
                   (Vector3.lengthSq (Projectile.displacement Sample.shot (1 # 4))))
      (map Monster.mesh (Projectile.monsters w)) in
  let after (w : Projectile.World) :=
    map (fun m => (id (Monster.mesh m), Monster.health m))
        (Projectile.monsters
           (snd (@Projectile.update Simple.three Sample.shot (1 # 4) Sample.void w))) in
  Permutation (Projectile.monsters Sample.twinsAB) (Projectile.monsters Sample.twinsBA) /\
  Forall2 Qeq (map distance (hits Sample.twinsAB)) [5; 5] /\
  Forall2 Qeq (map distance (hits Sample.twinsBA)) [5; 5] /\
  after Sample.twinsAB = [(21%nat, 20); (22%nat, 40)] /\
  after Sample.twinsBA = [(22%nat, 20); (21%nat, 40)].
Proof.
  cbv zeta. split; [apply perm_swap|].
  split; [vm_compute; repeat constructor|].
  split; [vm_compute; repeat constructor|].
  split; vm_compute; reflexivity.
Qed.

(** A projectile fired at the world origin into empty space is alive
    after its first tick. *)
Lemma projectile_destroyed_iff_witness :
  Projectile.alive Sample.nearShot = true /\
  Projectile.alive
    (fst (@Projectile.update Simple.three Sample.nearShot (1 # 20) Sample.void Sample.nobody))
  = true.
Proof.
  split; [reflexivity|].
  destruct (@projectile_destroyed_iff Simple.three Sample.nearShot (1 # 20) Sample.void
              Sample.nobody eq_refl) as (_ & Hiff & _).
  apply not_false_iff_true. intro E.
  apply (proj1 Hiff) in E. destruct E as [[_ Hne] | Hfar].
  - apply Hne. reflexivity.
  - vm_compute in Hfar. discriminate Hfar.
Defined.

(** C8, refuted as stated: two projectiles that have each travelled 2
    units from where they were fired and have met nothing; the one fired
    at the world origin is alive, the one fired 999 units from it is
    destroyed.  No bound on the distance travelled tells them apart. *)
Lemma same_travel_different_fate :
  let n := fst (@Projectile.update Simple.three Sample.nearShot (1 # 20) Sample.void Sample.nobody) in
  let f := fst (@Projectile.update Simple.three Sample.farShot (1 # 20) Sample.void Sample.nobody) in
  Vector3.distanceToSquared (Projectile.position n) (Projectile.position Sample.nearShot) == 2 * 2 /\
  Vector3.distanceToSquared (Projectile.position f) (Projectile.position Sample.farShot) == 2 * 2 /\
  Projectile.impacts
    (snd (@Projectile.update Simple.three Sample.nearShot (1 # 20) Sample.void Sample.nobody)) = [] /\
  Projectile.impacts
    (snd (@Projectile.update Simple.three Sample.farShot (1 # 20) Sample.void Sample.nobody)) = [] /\
  Projectile.alive n = true /\
  Projectile.alive f = false.
Proof.
  repeat split; vm_compute; reflexivity.
Qed.

(** ** The instant shot *)

Section ShootClaims.
Context `{Three}.

(** The test of line 79, with the dead-monster skip of line 70. *)
Lemma validTarget_test (playerPos playerDir : Vector3.t) (m : Monster.t) :
  validTarget playerPos playerDir m <->
  isDead (Monster.state m) = false /\
  sqrt_lt (Vector3.lengthSq (Vector3.subVectors (Monster.position m) playerPos)) 50
  && (angleTo playerDir (normalize (Vector3.subVectors (Monster.position m) playerPos))
      <? (2 # 10)) = true.
Proof.
  unfold validTarget, sqrt_lt, Vector3.distanceToSquared.
  rewrite !andb_true_iff, !Qltb_true.
  split.
  - intros (Hs & Hd & Ha). split; [|split; [split|]].
    + destruct (Monster.state m); auto. congruence.
    + reflexivity.
    + exact Hd.
    + exact Ha.
  - intros (Hs & (_ & Hd) & Ha). repeat split; auto.
    intro Hdead. rewrite Hdead in Hs. discriminate.
Qed.

Lemma onShoot_skip (playerPos playerDir : Vector3.t) (m : Monster.t) (rest : list Monster.t) :
  ~ validTarget playerPos playerDir m ->
  Main.onShoot playerPos playerDir (m :: rest) =
  (m :: fst (Main.onShoot playerPos playerDir rest),
   snd (Main.onShoot playerPos playerDir rest)).
Proof.
  intro Hn. rewrite validTarget_test in Hn. simpl.
  destruct (isDead (Monster.state m)) eqn:Ed.
  - destruct (Main.onShoot playerPos playerDir rest). reflexivity.
  - match goal with |- context [if ?c then _ else _] => destruct c eqn:Ec end.
    + exfalso. apply Hn. split; reflexivity.
    + destruct (Main.onShoot playerPos playerDir rest). reflexivity.
Qed.

Lemma onShoot_hit (playerPos playerDir : Vector3.t) (m : Monster.t) (rest : list Monster.t) :
  validTarget playerPos playerDir m ->
  Main.onShoot playerPos playerDir (m :: rest) =
  (fst (Monster.takeDamage m 20) :: rest, [DamageTimeout (id (Monster.mesh m))]).
Proof.
  intro Hv. rewrite validTarget_test in Hv. destruct Hv as [Hd Hc]. simpl.
  rewrite Hd, Hc. reflexivity.
Qed.

Lemma validTarget_dec (playerPos playerDir : Vector3.t) (m : Monster.t) :
  validTarget playerPos playerDir m \/ ~ validTarget playerPos playerDir m.
Proof.
  rewrite validTarget_test.
  destruct (isDead (Monster.state m));
    match goal with |- context [?c = true] => destruct c end;
    intuition discriminate.
Qed.

(** C9.  A shot damages the first monster of the list that is a valid
    target (not dead, nearer than 50, within 0.2 rad of the aim), by 20,
    and no other: the monsters before it and after it are left as they
    are, also when one after it is a valid target nearer to the shooter;
    if no monster is a valid target nothing changes. *)
Theorem onShoot_first_valid_target
        (playerPos playerDir : Vector3.t) (monsters : list Monster.t) :
  (forall pre m post,
     monsters = pre ++ m :: post ->
     (forall m', In m' pre -> ~ validTarget playerPos playerDir m') ->
     validTarget playerPos playerDir m ->
     Main.onShoot playerPos playerDir monsters
     = (pre ++ fst (Monster.takeDamage m 20) :: post, [DamageTimeout (id (Monster.mesh m))]) /\
     Monster.health (fst (Monster.takeDamage m 20)) = Monster.health m - 20) /\
  ((forall m, In m monsters -> ~ validTarget playerPos playerDir m) ->
   Main.onShoot playerPos playerDir monsters = (monsters, [])) /\
  (Main.onShoot playerPos playerDir monsters = (monsters, []) \/
   exists pre m post,
     monsters = pre ++ m :: post /\
     (forall m', In m' pre -> ~ validTarget playerPos playerDir m') /\
     validTarget playerPos playerDir m /\
     Main.onShoot playerPos playerDir monsters
     = (pre ++ fst (Monster.takeDamage m 20) :: post, [DamageTimeout (id (Monster.mesh m))])).
Proof.
  assert (Hfirst : forall pre m post,
    (forall m', In m' pre -> ~ validTarget playerPos playerDir m') ->
    validTarget playerPos playerDir m ->
    Main.onShoot playerPos playerDir (pre ++ m :: post)
    = (pre ++ fst (Monster.takeDamage m 20) :: post, [DamageTimeout (id (Monster.mesh m))])).
  { induction pre as [|m0 pre IH]; intros m post Hpre Hv.
    - now apply onShoot_hit.
    - rewrite <- app_comm_cons, onShoot_skip by (apply Hpre; now left).
      rewrite IH; [reflexivity | | exact Hv].
      intros m' Hin. apply Hpre. now right. }
  assert (Hnone : forall ms,
    (forall m, In m ms -> ~ validTarget playerPos playerDir m) ->
    Main.onShoot playerPos playerDir ms = (ms, [])).
  { induction ms as [|m0 ms IH]; intro Hall; [reflexivity|].
    rewrite onShoot_skip by (apply Hall; now left).
    rewrite IH; [reflexivity|]. intros m Hin. apply Hall. now right. }
  split; [|split].
  - intros pre m post -> Hpre Hv. split; [now apply Hfirst | reflexivity].
  - apply Hnone.
  - induction monsters as [|m0 ms IH].
    + left. reflexivity.
    + destruct (validTarget_dec playerPos playerDir m0) as [Hv | Hn].
      * right. exists [], m0, ms.
        split; [reflexivity|]. split; [intros m' []|]. split; [exact Hv|].
        now apply onShoot_hit.
      * destruct IH as [Hsame | (pre & m & post & -> & Hpre & Hv & Hres)].
        -- left. rewrite onShoot_skip, Hsame by exact Hn. reflexivity.
        -- assert (Hpre' : forall m', In m' (m0 :: pre) ->
                                       ~ validTarget playerPos playerDir m').
           { intros m' [<- | Hin]; [exact Hn | now apply Hpre]. }
           right. exists (m0 :: pre), m, post.
           split; [reflexivity|]. split; [exact Hpre'|]. split; [exact Hv|].
           rewrite <- app_comm_cons. apply (Hfirst (m0 :: pre) m post Hpre' Hv).
Qed.

End ShootClaims.

(** Two valid targets, the farther listed first: the farther one is hit,
    the nearer one is left at full health. *)
Lemma onShoot_first_valid_target_witness :
  @validTarget Simple.three Vector3.zero (Vector3.mk 1 0 0) Sample.farImp /\
  @validTarget Simple.three Vector3.zero (Vector3.mk 1 0 0) Sample.closeImp /\
  Vector3.distanceToSquared (Monster.position Sample.closeImp) Vector3.zero
  < Vector3.distanceToSquared (Monster.position Sample.farImp) Vector3.zero /\
  @Main.onShoot Simple.three Vector3.zero (Vector3.mk 1 0 0) [Sample.farImp; Sample.closeImp]
  = ([fst (Monster.takeDamage Sample.farImp 20); Sample.closeImp], [DamageTimeout 11]).
Proof.
  assert (Hfar : @validTarget Simple.three Vector3.zero (Vector3.mk 1 0 0) Sample.farImp).
  { split; [discriminate|]. split; vm_compute; reflexivity. }
  assert (Hclose : @validTarget Simple.three Vector3.zero (Vector3.mk 1 0 0) Sample.closeImp).
  { split; [discriminate|]. split; vm_compute; reflexivity. }
  split; [exact Hfar|]. split; [exact Hclose|]. split; [vm_compute; reflexivity|].
  destruct (@onShoot_first_valid_target Simple.three Vector3.zero (Vector3.mk 1 0 0)
              [Sample.farImp; Sample.closeImp]) as (Hfirst & _ & _).
  apply (Hfirst [] Sample.farImp [Sample.closeImp] eq_refl).
  - intros m' [].
  - exact Hfar.
Defined.

(** ** Ceilings *)

Section CeilingClaims.
Context `{Three}.

Lemma Forall2_nth_error {A} (R : A -> A -> Prop) (l1 l2 : list A) (n : nat) :
  Forall2 R l1 l2 ->
  match nth_error l1 n, nth_error l2 n with
  | Some a, Some b => R a b
  | None, None => True
  | _, _ => False
  end.
Proof.
  intro HF. revert n.
  induction HF as [|a b l1 l2 Hab _ IH]; intros [|n]; simpl; auto.
  apply IH.
Qed.

Lemma ceilEquiv_cellAt (L1 L2 : Level.t) (gz gx : Z) :
  ceilEquiv L1 L2 ->
  match Level.cellAt L1 gz gx, Level.cellAt L2 gz gx with
  | Some a, Some b => sameButCeiling a b
  | None, None => True
  | _, _ => False
  end.
Proof.
  intros (_ & _ & _ & Hg). unfold Level.cellAt.
  pose proof (Forall2_nth_error _ _ _ (Z.to_nat gz) Hg) as Hrow.
  destruct (nth_error (Level.grid L1) (Z.to_nat gz)) as [r1|],
           (nth_error (Level.grid L2) (Z.to_nat gz)) as [r2|]; try contradiction; auto.
  apply (Forall2_nth_error _ _ _ (Z.to_nat gx) Hrow).
Qed.

Lemma ceilEquiv_queries (L1 L2 : Level.t) (x z : Q) :
  ceilEquiv L1 L2 ->
  Level.isWall L1 x z = Level.isWall L2 x z /\
  Level.getFloorHeight L1 x z = Level.getFloorHeight L2 x z.
Proof.
  intro He. pose proof He as (Hcs & Hr & Hc & _).
  unfold Level.isWall, Level.getFloorHeight, Level.inGrid.
  rewrite Hcs, Hr, Hc.
  pose proof (ceilEquiv_cellAt L1 L2 (Math_round (z / Level.cellSize L2))
                               (Math_round (x / Level.cellSize L2)) He) as Hcell.
  destruct (Level.cellAt L1 _ _) as [a|], (Level.cellAt L2 _ _) as [b|];
    try contradiction.
  - destruct Hcell as (_ & Hh & Hw & _). rewrite Hh, Hw. split; reflexivity.
  - split; reflexivity.
Qed.

Lemma ceilEquiv_canMoveTo (L1 L2 : Level.t) (p : Player.t) (x z currentY : Q) :
  ceilEquiv L1 L2 ->
  Player._canMoveTo (Player.setLevel p L1) x z currentY
  = Player._canMoveTo (Player.setLevel p L2) x z currentY.
Proof.
  intro He. unfold Player._canMoveTo. cbn [Player.level Player.stepHeight Player.setLevel].
  destruct (ceilEquiv_queries _ _ x z He) as [-> ->]. reflexivity.
Qed.

Lemma ceilEquiv_moveHorizontal (L1 L2 : Level.t) (p : Player.t) (dX dZ : Q) :
  ceilEquiv L1 L2 -> Player.level p = L1 ->
  Player.moveHorizontal (Player.setLevel p L2) dX dZ
  = Player.setLevel (Player.moveHorizontal p dX dZ) L2.
Proof.
  intros He HL. destruct p as [lvl lk pos q sp sz ht gr js st og mf mb ml mr v d].
  cbn in HL. subst lvl.
  assert (Hw : forall x z, Level.isWall L1 x z = Level.isWall L2 x z)
    by (intros; apply (ceilEquiv_queries _ _ _ _ He)).
  assert (Hf : forall x z, Level.getFloorHeight L1 x z = Level.getFloorHeight L2 x z)
    by (intros; apply (ceilEquiv_queries _ _ _ _ He)).
  unfold Player.moveHorizontal, Player._canMoveTo. player_simpl.
  repeat rewrite <- Hw; repeat rewrite <- Hf.
  repeat (case_if; player_simpl; repeat rewrite <- Hw; repeat rewrite <- Hf);
    reflexivity.
Qed.

Lemma ceilEquiv_moveVertical (L1 L2 : Level.t) (p : Player.t) (dY : Q) :
  ceilEquiv L1 L2 -> Player.level p = L1 ->
  Player.moveVertical (Player.setLevel p L2) dY
  = Player.setLevel (Player.moveVertical p dY) L2.
Proof.
  intros He HL. destruct p as [lvl lk pos q sp sz ht gr js st og mf mb ml mr v d].
  cbn in HL. subst lvl.
  assert (Hf : forall x z, Level.getFloorHeight L1 x z = Level.getFloorHeight L2 x z)
    by (intros; apply (ceilEquiv_queries _ _ _ _ He)).
  unfold Player.moveVertical. player_simpl.
  repeat rewrite <- Hf. repeat (case_if; player_simpl); reflexivity.
Qed.

Lemma ceilEquiv_player_update (L1 L2 : Level.t) (p : Player.t) (delta : Q) :
  ceilEquiv L1 L2 ->
  Player.update (Player.setLevel p L2) delta
  = Player.setLevel (Player.update (Player.setLevel p L1) delta) L2.
Proof.
  intro He. unfold Player.update. cbn [Player.isLocked Player.setLevel].
  destruct (Player.isLocked p); cbn [negb]; [|reflexivity].
  set (a1 := Player.accelerate (Player.setLevel p L1) delta).
  change (Player.accelerate (Player.setLevel p L2) delta) with (Player.setLevel a1 L2).
  change (Player.deltaX (Player.setLevel a1 L2) delta) with (Player.deltaX a1 delta).
  change (Player.deltaZ (Player.setLevel a1 L2) delta) with (Player.deltaZ a1 delta).
  change (Player.deltaY (Player.setLevel a1 L2) delta) with (Player.deltaY a1 delta).
  rewrite (ceilEquiv_moveHorizontal L1 L2 a1 _ _ He eq_refl).
  apply (ceilEquiv_moveVertical L1 L2 _ _ He).
  apply (moveHorizontal_fields a1).
Qed.

Lemma ceilEquiv_monster_update (L1 L2 : Level.t) (m : Monster.t) (delta : Q)
      (playerPos : Vector3.t) (rnd1 rnd2 : Q) :
  ceilEquiv L1 L2 ->
  Monster.update (Monster.setLevel m L2) delta playerPos rnd1 rnd2
  = Monster.setLevel (Monster.update (Monster.setLevel m L1) delta playerPos rnd1 rnd2) L2.
Proof.
  intro He. destruct m as [ty lvl pos hp sp st msh tm md stm sd].
  assert (Hw : forall x z, Level.isWall L1 x z = Level.isWall L2 x z)
    by (intros; apply (ceilEquiv_queries _ _ _ _ He)).
  assert (Hf : forall x z, Level.getFloorHeight L1 x z = Level.getFloorHeight L2 x z)
    by (intros; apply (ceilEquiv_queries _ _ _ _ He)).
  unfold Monster.update, Monster.chaseStep. monster_simpl.
  destruct (isDead st); [reflexivity|].
  destruct (sqrt_lt (Vector3.distanceToSquared pos playerPos) 30); monster_simpl.
  - destruct (sqrt_lt (Vector3.distanceToSquared pos playerPos) 20); monster_simpl;
      [destruct (stm - delta <=? 0); monster_simpl|];
      repeat rewrite <- Hw; repeat rewrite <- Hf;
      repeat (case_if; monster_simpl; repeat rewrite <- Hw; repeat rewrite <- Hf);
      reflexivity.
  - destruct st; monster_simpl; repeat rewrite <- Hf; try reflexivity.
    destruct (sqrt_lt (Vector3.distanceToSquared pos playerPos) 20); monster_simpl;
      [destruct (stm - delta <=? 0); monster_simpl|];
      repeat rewrite <- Hw; repeat rewrite <- Hf;
      repeat (case_if; monster_simpl; repeat rewrite <- Hw; repeat rewrite <- Hf);
      reflexivity.
Qed.

(** C10.  For two levels that differ at most in the ceiling heights of
    their cells, [isWall], [getFloorHeight] and the step-up test give the
    same answers, and an update of the player and an update of a monster
    give the same result (position, velocity, grounded flag and all else)
    on either level.  Nothing stops a rise: the player's Y after an
    update is never below the Y it would reach by its vertical velocity
    alone. *)
Theorem movement_ignores_ceiling (L1 L2 : Level.t) :
  ceilEquiv L1 L2 ->
  (forall x z,
     Level.isWall L1 x z = Level.isWall L2 x z /\
     Level.getFloorHeight L1 x z = Level.getFloorHeight L2 x z) /\
  (forall p x z currentY,
     Player._canMoveTo (Player.setLevel p L1) x z currentY
     = Player._canMoveTo (Player.setLevel p L2) x z currentY) /\
  (forall p delta,
     Player.update (Player.setLevel p L2) delta
     = Player.setLevel (Player.update (Player.setLevel p L1) delta) L2) /\
  (forall m delta playerPos rnd1 rnd2,
     Monster.update (Monster.setLevel m L2) delta playerPos rnd1 rnd2
     = Monster.setLevel (Monster.update (Monster.setLevel m L1) delta playerPos rnd1 rnd2)
                        L2) /\
  (forall p delta,
     Player.isLocked p = true ->
     Vector3.y (Player.position p) + Player.deltaY (Player.accelerate p delta) delta
     <= Vector3.y (Player.position (Player.update p delta))).
Proof.
  intro He.
  split; [intros; now apply ceilEquiv_queries|].
  split; [intros; now apply ceilEquiv_canMoveTo|].
  split; [intros; now apply ceilEquiv_player_update|].
  split; [intros; now apply ceilEquiv_monster_update|].
  intros p delta Hl.
  set (a := Player.accelerate p delta).
  set (h := Player.moveHorizontal a (Player.deltaX a delta) (Player.deltaZ a delta)).
  rewrite (update_locked p delta Hl). fold a. fold h.
  destruct (moveHorizontal_fields a (Player.deltaX a delta) (Player.deltaZ a delta))
    as (_ & _ & Hy & _).
  fold h in Hy. change (Vector3.y (Player.position a)) with (Vector3.y (Player.position p)) in Hy.
  rewrite <- Hy.
  destruct (moveVertical_snap h (Player.deltaY a delta)) as [Hlow Hhigh].
  cbv zeta in Hlow, Hhigh.
  match type of Hlow with
  | ?y1 < ?bound -> _ => destruct (Qlt_le_dec y1 bound) as [Hlt | Hge]
  end.
  - destruct (Hlow Hlt) as (-> & _). lra.
  - destruct (Hhigh Hge) as (-> & _). apply Qle_refl.
Qed.

End CeilingClaims.

(** Lowering the ceilings of [room] changes nothing else. *)
Lemma lowRoom_ceilEquiv : ceilEquiv Sample.room Sample.lowRoom.
Proof.
  repeat split. repeat constructor.
Qed.

(** In a room whose ceiling is at 2 a jumping player's eye passes the
    ceiling: no test stops the rise. *)
Lemma movement_ignores_ceiling_witness :
  ceilEquiv Sample.room Sample.lowRoom /\
  Player.isLocked Sample.jumping = true /\
  option_map Cell.ceilHeight (Level.cellAt Sample.lowRoom 2 2) = Some 2 /\
  2 < Vector3.y (Player.position (@Player.update Simple.three Sample.jumping (1 # 10))).
Proof.
  split; [exact lowRoom_ceilEquiv|]. split; [reflexivity|]. split; [reflexivity|].
  destruct (@movement_ignores_ceiling Simple.three Sample.room Sample.lowRoom lowRoom_ceilEquiv)
    as (_ & _ & _ & _ & Hrise).
  eapply Qlt_le_trans; [|apply (Hrise Sample.jumping (1 # 10) eq_refl)].
  vm_compute. reflexivity.
Defined.

(** * Further properties *)

(** ** The grid as geometry *)

Section GridFacts.

Lemma Math_round_iff (q : Q) (k : Z) :
  Math_round q = k <-> inject_Z k - (1 # 2) <= q /\ q < inject_Z k + (1 # 2).
Proof.
  split.
  - intros <-. destruct (Math_round_bounds q) as [Hlo Hhi]. split; lra.
  - intros [Hlo Hhi]. unfold Math_round.
    apply Z.le_antisymm.
    + assert (Hlt : inject_Z (Qfloor (q + (1 # 2))) < inject_Z (k + 1)).
      { rewrite inject_Z_plus. change (inject_Z 1) with 1.
        apply Qle_lt_trans with (q + (1 # 2)); [apply Qfloor_le | lra]. }
      rewrite <- Zlt_Qlt in Hlt. lia.
    + rewrite <- (Qfloor_Z k). apply Qfloor_resp_le. lra.
Qed.

Lemma Math_round_inject_Z (k : Z) : Math_round (inject_Z k) = k.
Proof. apply Math_round_iff. split; lra. Qed.

(** The points whose coordinate rounds to index [k]: the half-open
    interval of length [cs] centred on [k * cs]. *)
Lemma Math_round_div_iff (w cs : Q) (k : Z) :
  0 < cs ->
  Math_round (w / cs) = k <->
  (inject_Z k - (1 # 2)) * cs <= w /\ w < (inject_Z k + (1 # 2)) * cs.
Proof.
  intro Hcs. rewrite Math_round_iff.
  assert (Hw : w == w / cs * cs) by (field; intro E; rewrite E in Hcs; lra).
  set (t := w / cs) in *.
  split; intros [Hlo Hhi]; split.
  - rewrite Hw. apply Qmult_le_compat_r; lra.
  - rewrite Hw. apply Qmult_lt_compat_r; lra.
  - rewrite Hw in Hlo. now apply Qmult_le_r in Hlo.
  - rewrite Hw in Hhi. now apply Qmult_lt_r in Hhi.
Qed.

Lemma Math_round_centre (k : Z) (cs : Q) :
  0 < cs -> Math_round (inject_Z k * cs / cs) = k.
Proof.
  intro Hcs. apply Math_round_div_iff; [exact Hcs|].
  split.
  - apply Qmult_le_compat_r; lra.
  - apply Qmult_lt_compat_r; lra.
Qed.

(** The queries read the coordinates only up to [==]. *)
Lemma Math_round_compat (a b : Q) : a == b -> Math_round a = Math_round b.
Proof. intro E. unfold Math_round. now rewrite E. Qed.

Lemma queries_compat (L : Level.t) (x x' z z' : Q) :
  x == x' -> z == z' ->
  Level.isWall L x z = Level.isWall L x' z' /\
  Level.getFloorHeight L x z = Level.getFloorHeight L x' z'.
Proof.
  intros Ex Ez. unfold Level.isWall, Level.getFloorHeight.
  rewrite (Math_round_compat (x / Level.cellSize L) (x' / Level.cellSize L))
    by (now rewrite Ex).
  rewrite (Math_round_compat (z / Level.cellSize L) (z' / Level.cellSize L))
    by (now rewrite Ez).
  split; reflexivity.
Qed.

Lemma queries_at (L : Level.t) (x z : Q) (gz gx : Z) :
  Level.wf L ->
  Math_round (x / Level.cellSize L) = gx -> Math_round (z / Level.cellSize L) = gz ->
  (0 <= gz < Level.rows L)%Z -> (0 <= gx < Level.cols L)%Z ->
  exists c, Level.cellAt L gz gx = Some c /\
            Level.isWall L x z = Cell.isWall c /\
            Level.getFloorHeight L x z = Cell.height c.
Proof.
  intros Hwf Hx Hz Hrz Hrx.
  assert (Hin : Level.inGrid L gz gx = true) by (apply inGrid_true; auto).
  destruct (wf_cellAt L gz gx Hwf Hin) as [c Hc].
  exists c. unfold Level.isWall, Level.getFloorHeight.
  rewrite Hx, Hz, Hin, Hc. auto.
Qed.

End GridFacts.

Section GridClaims.

(** X1.  On a well-formed level every point of the half-open square of
    side [cellSize] centred on an in-grid cell's grid point answers
    [isWall] and [getFloorHeight] as that cell does, hence as the
    centre does. *)
Theorem cell_square_answers_as_centre (L : Level.t) (gz gx : Z) (x z : Q) :
  Level.wf L ->
  (0 <= gz < Level.rows L)%Z -> (0 <= gx < Level.cols L)%Z ->
  (inject_Z gx - (1 # 2)) * Level.cellSize L <= x ->
  x < (inject_Z gx + (1 # 2)) * Level.cellSize L ->
  (inject_Z gz - (1 # 2)) * Level.cellSize L <= z ->
  z < (inject_Z gz + (1 # 2)) * Level.cellSize L ->
  exists c,
    Level.cellAt L gz gx = Some c /\
    Level.isWall L x z = Cell.isWall c /\
    Level.getFloorHeight L x z = Cell.height c /\
    Level.isWall L x z
    = Level.isWall L (inject_Z gx * Level.cellSize L) (inject_Z gz * Level.cellSize L) /\
    Level.getFloorHeight L x z
    = Level.getFloorHeight L (inject_Z gx * Level.cellSize L) (inject_Z gz * Level.cellSize L).
Proof.
  intros Hwf Hrz Hrx Hx1 Hx2 Hz1 Hz2.
  pose proof Hwf as (Hcs & _).
  destruct (queries_at L x z gz gx Hwf) as (c & Hc & Hw & Hf); auto;
    try (apply Math_round_div_iff; auto).
  destruct (queries_at L (inject_Z gx * Level.cellSize L) (inject_Z gz * Level.cellSize L)
              gz gx Hwf) as (c' & Hc' & Hw' & Hf'); auto;
    try (apply Math_round_centre; auto).
  rewrite Hc in Hc'. injection Hc' as <-.
  exists c. rewrite Hw', Hf'. auto.
Qed.

End GridClaims.

(** In the corridor, a point 1.9 east and 1.9 north of the floor cell's
    centre is still floor. *)
Lemma cell_square_answers_as_centre_witness :
  Level.wf Sample.corridor /\
  Level.isWall Sample.corridor (59 # 10) (21 # 10) = Level.isWall Sample.corridor 4 4.
Proof.
  split; [exact corridor_wf|].
  assert (Hr : (0 <= 1 < 3)%Z) by lia.
  destruct (cell_square_answers_as_centre Sample.corridor 1 1 (59 # 10) (21 # 10)
              corridor_wf Hr Hr)
    as (c & _ & _ & _ & Hw & _).
  - vm_compute. discriminate.
  - vm_compute. reflexivity.
  - vm_compute. discriminate.
  - vm_compute. reflexivity.
  - rewrite Hw. reflexivity.
Defined.

(** ** What [_parseMap] builds *)

Section ParseFacts.

Lemma nth_error_map_seq {A} (f : nat -> A) (len n : nat) :
  (n < len)%nat -> nth_error (map f (seq 0 len)) n = Some (f n).
Proof.
  intro Hn. rewrite nth_error_map.
  rewrite (nth_error_nth' (seq 0 len) 0%nat) by (now rewrite length_seq).
  rewrite seq_nth by exact Hn. reflexivity.
Qed.

Lemma parseMap_eq (m : list (list Z)) :
  m <> [] ->
  Level._parseMap Level.fresh m
  = Ok (Level.mk 4
          (map (map fst)
               (map (fun z => Level.parseRow 4 (List.length (hd [] m)) z (nth z m []))
                    (seq 0 (List.length m))))
          (Z.of_nat (List.length m))
          (Z.of_nat (List.length (hd [] m)))
          (flat_map Level.spawnsOf
             (map (fun z => Level.parseRow 4 (List.length (hd [] m)) z (nth z m []))
                  (seq 0 (List.length m))))
          []).
Proof. destruct m; [congruence | reflexivity]. Qed.

Lemma parseMap_nonempty (m : list (list Z)) (L : Level.t) :
  Level._parseMap Level.fresh m = Ok L -> m <> [].
Proof. destruct m; [discriminate | congruence]. Qed.

(** The cell [_parseMap] stores at row [z], column [x]. *)
Lemma parsed_cellAt (m : list (list Z)) (L : Level.t) (z x : nat) :
  Level._parseMap Level.fresh m = Ok L ->
  (z < List.length m)%nat -> (x < List.length (hd [] m))%nat ->
  Level.cellAt L (Z.of_nat z) (Z.of_nat x)
  = Some (fst (Level.cellOfCode (nth_error (nth z m []) x))).
Proof.
  intros HL Hz Hx.
  rewrite (parseMap_eq m (parseMap_nonempty m L HL)) in HL. injection HL as <-.
  unfold Level.cellAt. cbn [Level.grid].
  rewrite !Nat2Z.id, map_map.
  rewrite nth_error_map_seq by exact Hz.
  unfold Level.parseRow. rewrite map_map.
  rewrite nth_error_map_seq by exact Hx.
  destruct (Level.cellOfCode (nth_error (nth z m []) x)). reflexivity.
Qed.

Lemma parsed_shape (m : list (list Z)) (L : Level.t) :
  Level._parseMap Level.fresh m = Ok L ->
  Level.wf L /\ Level.cellSize L = 4 /\
  Level.rows L = Z.of_nat (List.length m) /\
  Level.cols L = Z.of_nat (List.length (hd [] m)).
Proof.
  destruct m as [|row0 rest]; [discriminate|].
  intro HL. destruct (parseMap_Ok row0 rest) as (L' & HL' & Hr & Hc & Hcs & Hwf).
  rewrite HL in HL'. injection HL' as <-. auto.
Qed.

(** The queries at the centre of cell [(z, x)] of a parsed level. *)
Lemma parsed_centre (m : list (list Z)) (L : Level.t) (z x : nat) :
  Level._parseMap Level.fresh m = Ok L ->
  (z < List.length m)%nat -> (x < List.length (hd [] m))%nat ->
  let c := fst (Level.cellOfCode (nth_error (nth z m []) x)) in
  Level.isWall L (inject_Z (Z.of_nat x) * 4) (inject_Z (Z.of_nat z) * 4) = Cell.isWall c /\
  Level.getFloorHeight L (inject_Z (Z.of_nat x) * 4) (inject_Z (Z.of_nat z) * 4)
  = Cell.height c.
Proof.
  intros HL Hz Hx c.
  destruct (parsed_shape m L HL) as (Hwf & Hcs & Hr & Hc).
  destruct (queries_at L (inject_Z (Z.of_nat x) * 4) (inject_Z (Z.of_nat z) * 4)
              (Z.of_nat z) (Z.of_nat x) Hwf) as (c' & Hc' & Hw & Hf).
  - rewrite Hcs. now apply Math_round_centre.
  - rewrite Hcs. now apply Math_round_centre.
  - lia.
  - lia.
  - rewrite (parsed_cellAt m L z x HL Hz Hx) in Hc'. injection Hc' as <-. auto.
Qed.

Lemma cellOfCode_wall (v : option Z) :
  Cell.isWall (fst (Level.cellOfCode v)) = true <-> v = Some 1%Z.
Proof.
  unfold Level.cellOfCode.
  code_cases v; split; intro E; try discriminate E; try reflexivity.
Qed.

Lemma cellOfCode_height (v : option Z) :
  Cell.height (fst (Level.cellOfCode v))
  = match v with
    | Some 3%Z => 3 # 2
    | Some 4%Z => 3
    | Some 5%Z => -2
    | _ => 0
    end.
Proof.
  unfold Level.cellOfCode. code_cases v; reflexivity.
Qed.

Lemma cellOfCode_spawn (v : option Z) (ty : MonsterType) :
  snd (Level.cellOfCode v) = Some ty <->
  (v = Some 6%Z /\ ty = imp) \/ (v = Some 7%Z /\ ty = demon).
Proof.
  unfold Level.cellOfCode.
  code_cases v;
    (split;
     [ intro E; try discriminate E; injection E as <-; auto
     | intros [[E1 E2] | [E1 E2]]; try discriminate E1; subst; reflexivity ]).
Qed.

Lemma cellOfCode_ceiling (v : option Z) :
  Cell.ceilHeight (fst (Level.cellOfCode v)) = 4.
Proof.
  unfold Level.cellOfCode. code_cases v; reflexivity.
Qed.

End ParseFacts.

Section ParseClaims.

(** X2.  Parsing then querying: at the centre of cell [(z, x)] of a
    parsed level, [isWall] is true exactly when the map entry is 1, and
    the floor height is 1.5, 3 or -2 for the entries 3, 4, 5 and 0 for
    every other entry, an entry missing from a short row included. *)
Theorem parse_then_query (m : list (list Z)) (L : Level.t) (z x : nat) :
  Level._parseMap Level.fresh m = Ok L ->
  (z < List.length m)%nat -> (x < List.length (hd [] m))%nat ->
  let code := nth_error (nth z m []) x in
  let wx := inject_Z (Z.of_nat x) * 4 in
  let wz := inject_Z (Z.of_nat z) * 4 in
  (Level.isWall L wx wz = true <-> code = Some 1%Z) /\
  Level.getFloorHeight L wx wz
  = match code with
    | Some 3%Z => 3 # 2
    | Some 4%Z => 3
    | Some 5%Z => -2
    | _ => 0
    end.
Proof.
  intros HL Hz Hx code wx wz.
  destruct (parsed_centre m L z x HL Hz Hx) as [Hw Hf].
  subst wx wz. rewrite Hw, Hf. split.
  - apply cellOfCode_wall.
  - apply cellOfCode_height.
Qed.

Lemma parsed_cell_code (m : list (list Z)) (L : Level.t) (gz gx : Z) (c : Cell.t) :
  Level._parseMap Level.fresh m = Ok L ->
  Level.inGrid L gz gx = true ->
  Level.cellAt L gz gx = Some c ->
  exists v, c = fst (Level.cellOfCode v).
Proof.
  intros HL Hin Hc.
  destruct (parsed_shape m L HL) as (_ & _ & Hr & Hcols).
  apply inGrid_true in Hin. destruct Hin as [Hz Hx].
  assert (Ez : gz = Z.of_nat (Z.to_nat gz)) by lia.
  assert (Ex : gx = Z.of_nat (Z.to_nat gx)) by lia.
  rewrite Ez, Ex in Hc.
  rewrite (parsed_cellAt m L _ _ HL) in Hc by lia.
  injection Hc as <-. eauto.
Qed.

(** X3.  The floor query on a parsed level returns one of -100, -2, 0,
    1.5 and 3 at every point; where [isWall] is false it is not -100, so
    at least -2; and every cell's ceiling is at 4. *)
Theorem parsed_floor_heights (m : list (list Z)) (L : Level.t) (x z : Q) :
  Level._parseMap Level.fresh m = Ok L ->
  let h := Level.getFloorHeight L x z in
  (h = -100 \/ h = -2 \/ h = 0 \/ h = 3 # 2 \/ h = 3) /\
  (Level.isWall L x z = false -> -2 <= h /\ h <= 3) /\
  (forall gz gx c, Level.inGrid L gz gx = true -> Level.cellAt L gz gx = Some c ->
                   Cell.ceilHeight c = 4).
Proof.
  intros HL h.
  assert (Hcell : forall gz gx c,
             Level.inGrid L gz gx = true -> Level.cellAt L gz gx = Some c ->
             Cell.ceilHeight c = 4 /\
             (Cell.height c = -2 \/ Cell.height c = 0 \/
              Cell.height c = 3 # 2 \/ Cell.height c = 3)).
  { intros gz gx c Hin Hc.
    destruct (parsed_cell_code m L gz gx c HL Hin Hc) as [v ->].
    split; [apply cellOfCode_ceiling|].
    rewrite cellOfCode_height.
    code_cases v; auto. }
  subst h. unfold Level.isWall, Level.getFloorHeight.
  set (gx := Math_round (x / Level.cellSize L)).
  set (gz := Math_round (z / Level.cellSize L)).
  split; [|split].
  - destruct (Level.inGrid L gz gx) eqn:Hin; [|auto].
    destruct (Level.cellAt L gz gx) as [c|] eqn:Hc; [|auto].
    destruct (Hcell gz gx c Hin Hc) as [_ Hh]. tauto.
  - destruct (Level.inGrid L gz gx) eqn:Hin; [|discriminate].
    destruct (Level.cellAt L gz gx) as [c|] eqn:Hc; [|discriminate].
    intros _. destruct (Hcell gz gx c Hin Hc) as [_ [-> | [-> | [-> | ->]]]];
      split; vm_compute; discriminate.
  - intros gz' gx' c Hin Hc. apply (Hcell gz' gx' c Hin Hc).
Qed.



(** X4.  The spawns a parsed level records are exactly the cells whose
    map entry is 6 (an imp) or 7 (a demon), each at its cell's centre;
    every spawn point is open floor at height 0. *)
Theorem spawns_are_monster_cells (m : list (list Z)) (L : Level.t) :
  Level._parseMap Level.fresh m = Ok L ->
  (forall s,
     In s (Level.monsterSpawns L) <->
     exists z x,
       (z < List.length m)%nat /\ (x < List.length (hd [] m))%nat /\
       ((nth_error (nth z m []) x = Some 6%Z /\ spawnType s = imp) \/
        (nth_error (nth z m []) x = Some 7%Z /\ spawnType s = demon)) /\
       spawnX s = inject_Z (Z.of_nat x) * 4 /\
       spawnZ s = inject_Z (Z.of_nat z) * 4) /\
  (forall s,
     In s (Level.monsterSpawns L) ->
     Level.isWall L (spawnX s) (spawnZ s) = false /\
     Level.getFloorHeight L (spawnX s) (spawnZ s) = 0).
Proof.
  intro HL.
  assert (Hchar : forall s,
     In s (Level.monsterSpawns L) <->
     exists z x,
       (z < List.length m)%nat /\ (x < List.length (hd [] m))%nat /\
       ((nth_error (nth z m []) x = Some 6%Z /\ spawnType s = imp) \/
        (nth_error (nth z m []) x = Some 7%Z /\ spawnType s = demon)) /\
       spawnX s = inject_Z (Z.of_nat x) * 4 /\
       spawnZ s = inject_Z (Z.of_nat z) * 4).
  { intro s.
    pose proof HL as HL'.
    rewrite (parseMap_eq m (parseMap_nonempty m L HL)) in HL'. injection HL' as <-.
    cbn [Level.monsterSpawns].
    rewrite in_flat_map. split.
    - intros (pr & Hpr & Hs).
      apply in_map_iff in Hpr. destruct Hpr as (z & <- & Hz). apply in_seq in Hz.
      unfold Level.spawnsOf in Hs. apply in_flat_map in Hs.
      destruct Hs as (p & Hp & Hs).
      unfold Level.parseRow in Hp. apply in_map_iff in Hp.
      destruct Hp as (x & <- & Hx). apply in_seq in Hx.
      exists z, x. split; [lia|]. split; [lia|].
      destruct (Level.cellOfCode (nth_error (nth z m []) x)) as [cell [ty|]] eqn:Ecode;
        cbn in Hs; [|contradiction].
      destruct Hs as [<- | []]. cbn.
      split; [|split; reflexivity].
      apply cellOfCode_spawn. rewrite Ecode. reflexivity.
    - intros (z & x & Hz & Hx & Hcode & HX & HZ).
      exists (Level.parseRow 4 (List.length (hd [] m)) z (nth z m [])).
      split; [apply in_map_iff; exists z; split; [reflexivity | apply in_seq; lia]|].
      unfold Level.spawnsOf. apply in_flat_map.
      assert (Hty : snd (Level.cellOfCode (nth_error (nth z m []) x)) = Some (spawnType s))
        by (apply cellOfCode_spawn; exact Hcode).
      exists (fst (Level.cellOfCode (nth_error (nth z m []) x)), Some s).
      split.
      + unfold Level.parseRow. apply in_map_iff. exists x.
        split; [|apply in_seq; lia].
        destruct (Level.cellOfCode (nth_error (nth z m []) x)) as [cell sp].
        cbn in Hty. rewrite Hty. cbn. rewrite <- HX, <- HZ.
        destruct s; reflexivity.
      + cbn. now left. }
  split; [exact Hchar|].
  intros s Hs. apply Hchar in Hs.
  destruct Hs as (z & x & Hz & Hx & Hcode & -> & ->).
  destruct (parsed_centre m L z x HL Hz Hx) as [-> ->].
  destruct Hcode as [[-> _] | [-> _]]; split; reflexivity.
Qed.

End ParseClaims.

(** The map of [main.js]: the step cell at row 1, column 7. *)
Lemma parse_then_query_witness :
  Level._parseMap Level.fresh Fixture.mapData = Ok Fixture.level /\
  Level.isWall Fixture.level 28 4 = false /\
  Level.getFloorHeight Fixture.level 28 4 = 3 # 2.
Proof.
  split; [reflexivity|].
  destruct (parse_then_query Fixture.mapData Fixture.level 1 7 eq_refl) as [Hw Hf];
    [vm_compute; lia | vm_compute; lia |].
  split.
  - apply not_true_is_false. intro E. apply (proj1 Hw) in E. discriminate E.
  - exact Hf.
Defined.

Lemma parsed_floor_heights_witness :
  Level._parseMap Level.fresh Fixture.mapData = Ok Fixture.level /\
  -2 <= Level.getFloorHeight Fixture.level (365 # 10) 25.
Proof.
  split; [reflexivity|].
  apply (parsed_floor_heights Fixture.mapData Fixture.level (365 # 10) 25 eq_refl).
  reflexivity.
Defined.

(** The map of [main.js] spawns three monsters, each on open floor. *)
Lemma spawns_are_monster_cells_witness :
  Level._parseMap Level.fresh Fixture.mapData = Ok Fixture.level /\
  List.length (Level.monsterSpawns Fixture.level) = 3%nat /\
  Forall (fun s => Level.isWall Fixture.level (spawnX s) (spawnZ s) = false)
         (Level.monsterSpawns Fixture.level).
Proof.
  split; [reflexivity|]. split; [reflexivity|].
  apply Forall_forall. intros s Hs.
  apply (proj2 (spawns_are_monster_cells Fixture.mapData Fixture.level eq_refl) s Hs).
Defined.

(** ** The start position *)

Section StartFacts.

Lemma find_app_first {A} (f : A -> bool) (l1 l2 : list A) :
  find f (l1 ++ l2) = match find f l1 with Some a => Some a | None => find f l2 end.
Proof.
  induction l1 as [|a l1 IH]; simpl; [reflexivity|].
  destruct (f a); [reflexivity | exact IH].
Qed.

(** The first hit of a scan of one row, columns [b .. b + c - 1]. *)
Lemma find_in_row (f : nat * nat -> bool) (a b c z x : nat) :
  find f (map (pair a) (seq b c)) = Some (z, x) ->
  z = a /\ (b <= x < b + c)%nat /\ f (z, x) = true /\
  forall x', (b <= x' < b + c)%nat -> f (a, x') = true -> (x <= x')%nat.
Proof.
  revert b. induction c as [|c IH]; intros b; simpl; [discriminate|].
  destruct (f (a, b)) eqn:E.
  - intro Heq. injection Heq as <- <-.
    repeat split; auto; try lia.
  - intro Hfind. destruct (IH (S b) Hfind) as (-> & Hx & Hf & Hmin).
    repeat split; auto; try lia.
    intros x' Hx' Hf'.
    destruct (Nat.eq_dec x' b) as [-> | Hne]; [congruence|].
    apply Hmin; [lia | exact Hf'].
Qed.

Lemma find_in_row_none (f : nat * nat -> bool) (a b c : nat) :
  find f (map (pair a) (seq b c)) = None ->
  forall x', (b <= x' < b + c)%nat -> f (a, x') = false.
Proof.
  intros Hnone x' Hx'.
  apply (find_none f _ Hnone). apply in_map, in_seq. lia.
Qed.

(** The first hit of the scan of rows [a .. a + r - 1], each over columns
    [0 .. c - 1]: it comes first in row-major order. *)
Lemma find_row_major (f : nat * nat -> bool) (a r c z x : nat) :
  find f (list_prod (seq a r) (seq 0 c)) = Some (z, x) ->
  (a <= z < a + r)%nat /\ (x < c)%nat /\ f (z, x) = true /\
  forall z' x', (a <= z' < a + r)%nat -> (x' < c)%nat -> f (z', x') = true ->
                (z < z')%nat \/ (z = z' /\ (x <= x')%nat).
Proof.
  revert a. induction r as [|r IH]; intros a; simpl; [discriminate|].
  rewrite find_app_first.
  destruct (find f (map (fun y => (a, y)) (seq 0 c))) as [[z0 x0]|] eqn:Erow.
  - intro Heq. injection Heq as -> ->.
    destruct (find_in_row f a 0 c z x Erow) as (-> & Hx & Hf & Hmin).
    repeat split; auto; try lia.
    intros z' x' Hz' Hx' Hf'.
    destruct (Nat.eq_dec z' a) as [-> | Hne]; [|left; lia].
    right. split; [reflexivity|]. apply Hmin; [lia | exact Hf'].
  - intro Hfind. destruct (IH (S a) Hfind) as (Hz & Hx & Hf & Hmin).
    repeat split; auto; try lia.
    intros z' x' Hz' Hx' Hf'.
    destruct (Nat.eq_dec z' a) as [-> | Hne].
    + rewrite (find_in_row_none f a 0 c Erow x') in Hf' by lia. discriminate.
    + apply Hmin; [lia | exact Hx' | exact Hf'].
Qed.

Lemma isStart_iff (c : Cell.t) :
  LevelStart.isStart c = true <-> Cell.isWall c = false /\ Cell.height c == 0.
Proof.
  unfold LevelStart.isStart. rewrite andb_true_iff, negb_true_iff, Qeq_bool_iff. tauto.
Qed.

End StartFacts.

Section StartClaims.

(** X5.  On a well-formed level [getStartPosition] returns the centre of
    the first cell, in row-major order, that is not a wall and has floor
    height 0; at that point [isWall] is false and the floor height is 0.
    If the grid has no such cell it returns [(0, 0)]. *)
Theorem start_position_first_open_floor (L : Level.t) :
  Level.wf L ->
  let start := LevelStart.getStartPosition L in
  ((exists z x c,
      Level.inGrid L (Z.of_nat z) (Z.of_nat x) = true /\
      Level.cellAt L (Z.of_nat z) (Z.of_nat x) = Some c /\
      Cell.isWall c = false /\ Cell.height c == 0) ->
   exists z x,
     start = (inject_Z (Z.of_nat x) * Level.cellSize L,
              inject_Z (Z.of_nat z) * Level.cellSize L) /\
     Level.inGrid L (Z.of_nat z) (Z.of_nat x) = true /\
     Level.isWall L (fst start) (snd start) = false /\
     Level.getFloorHeight L (fst start) (snd start) == 0 /\
     forall z' x' c',
       Level.inGrid L (Z.of_nat z') (Z.of_nat x') = true ->
       Level.cellAt L (Z.of_nat z') (Z.of_nat x') = Some c' ->
       Cell.isWall c' = false -> Cell.height c' == 0 ->
       (z < z')%nat \/ (z = z' /\ (x <= x')%nat)) /\
  ((forall z x c,
      Level.inGrid L (Z.of_nat z) (Z.of_nat x) = true ->
      Level.cellAt L (Z.of_nat z) (Z.of_nat x) = Some c ->
      ~ (Cell.isWall c = false /\ Cell.height c == 0)) ->
   start = (0, 0)).
Proof.
  intros Hwf start.
  pose proof Hwf as (Hcs & _).
  assert (Hidx : forall z x,
             In (z, x) (LevelStart.indices L) <->
             Level.inGrid L (Z.of_nat z) (Z.of_nat x) = true).
  { intros z x. unfold LevelStart.indices.
    rewrite in_prod_iff, !in_seq, inGrid_true. lia. }
  assert (HstartAt : forall z x c,
             Level.cellAt L (Z.of_nat z) (Z.of_nat x) = Some c ->
             LevelStart.startAt L (z, x) = LevelStart.isStart c).
  { intros z x c Hc. unfold LevelStart.startAt. cbn [fst snd]. now rewrite Hc. }
  subst start. unfold LevelStart.getStartPosition.
  destruct (find (LevelStart.startAt L) (LevelStart.indices L)) as [[z x]|] eqn:Efind.
  - split.
    + intros _. exists z, x.
      destruct (find_row_major _ _ _ _ _ _ Efind) as (Hz & Hx & Hf & Hmin).
      assert (Hin : Level.inGrid L (Z.of_nat z) (Z.of_nat x) = true)
        by (apply inGrid_true; lia).
      destruct (queries_at L (inject_Z (Z.of_nat x) * Level.cellSize L)
                  (inject_Z (Z.of_nat z) * Level.cellSize L)
                  (Z.of_nat z) (Z.of_nat x) Hwf) as (c & Hc & Hw & Hh);
        try (apply Math_round_centre; exact Hcs); try lia.
      rewrite (HstartAt z x c Hc) in Hf. apply isStart_iff in Hf.
      destruct Hf as [Hfw Hfh].
      cbn [fst snd]. rewrite Hw, Hh.
      split; [reflexivity|]. split; [exact Hin|]. split; [exact Hfw|].
      split; [exact Hfh|].
      intros z' x' c' Hin' Hc' Hw' Hh'.
      apply inGrid_true in Hin'.
      apply Hmin; try lia.
      rewrite (HstartAt z' x' c' Hc'). apply isStart_iff. auto.
    + intro Hnone. exfalso.
      destruct (find_some _ _ Efind) as [Hin Hf].
      apply Hidx in Hin.
      destruct (wf_cellAt L _ _ Hwf Hin) as [c Hc].
      rewrite (HstartAt z x c Hc) in Hf. apply isStart_iff in Hf.
      exact (Hnone z x c Hin Hc Hf).
  - split; [|reflexivity].
    intros (z & x & c & Hin & Hc & Hw & Hh). exfalso.
    assert (Hf : LevelStart.startAt L (z, x) = false).
    { apply (find_none _ _ Efind). now apply Hidx. }
    rewrite (HstartAt z x c Hc) in Hf.
    assert (Ht : LevelStart.isStart c = true) by (apply isStart_iff; auto).
    congruence.
Qed.

End StartClaims.

(** In the corridor the start is the centre of its only floor cell. *)
Lemma start_position_first_open_floor_witness :
  Level.wf Sample.corridor /\
  LevelStart.getStartPosition Sample.corridor = (inject_Z 1 * 4, inject_Z 1 * 4) /\
  Level.isWall Sample.corridor (fst (LevelStart.getStartPosition Sample.corridor))
               (snd (LevelStart.getStartPosition Sample.corridor)) = false.
Proof.
  split; [exact corridor_wf|]. split; [reflexivity|].
  destruct (start_position_first_open_floor Sample.corridor corridor_wf) as [Hsome _].
  destruct Hsome as (z & x & _ & _ & Hw & _); [|exact Hw].
  exists 1%nat, 1%nat. eexists. split; [reflexivity|]. split; [reflexivity|].
  split; reflexivity.
Defined.

(** ** The player between walls and floors *)

Section PlayerMoreFacts.
Context `{Three}.

(** The two axes of [moveHorizontal]: each either moves into an allowed
    cell or stays. *)
Lemma moveHorizontal_cases (p : Player.t) (dX dZ : Q) :
  let cur := Player.position p in
  let L := Player.level p in
  let fl := Level.getFloorHeight L (Vector3.x cur) (Vector3.z cur) in
  let p' := Player.moveHorizontal p dX dZ in
  ((Vector3.x (Player.position p') = Vector3.x cur + dX /\
    entryAllowed L (Player.stepHeight p) fl (Vector3.x cur + dX) (Vector3.z cur)) \/
   (Vector3.x (Player.position p') = Vector3.x cur /\
    Vector3.x (Player.velocity p') = 0)) /\
  ((Vector3.z (Player.position p') = Vector3.z cur + dZ /\
    entryAllowed L (Player.stepHeight p) fl (Vector3.x (Player.position p'))
                 (Vector3.z cur + dZ)) \/
   (Vector3.z (Player.position p') = Vector3.z cur /\
    Vector3.z (Player.velocity p') = 0)).
Proof.
  intros cur L fl p'.
  pose proof (moveHorizontal_x p dX dZ) as HX.
  pose proof (moveHorizontal_z p dX dZ) as HZ.
  cbv zeta in HX, HZ. fold cur L fl p' in HX, HZ.
  split.
  - destruct (Player._canMoveTo p (Vector3.x cur + dX) (Vector3.z cur) fl) eqn:E.
    + left. split; [apply HX | now apply canMoveTo_iff].
    + right. exact HX.
  - destruct (Player._canMoveTo p (Vector3.x (Player.position p')) (Vector3.z cur + dZ) fl)
      eqn:E.
    + left. split; [apply HZ | now apply canMoveTo_iff].
    + right. exact HZ.
Qed.

Lemma update_not_locked (p : Player.t) (delta : Q) :
  Player.isLocked p = false -> Player.update p delta = p.
Proof. intro Hl. unfold Player.update. rewrite Hl. reflexivity. Qed.

(** The horizontal outcome of an update, in terms of the player before
    it. *)
Lemma update_horizontal (p : Player.t) (delta : Q) :
  Player.isLocked p = true ->
  let a := Player.accelerate p delta in
  let h := Player.moveHorizontal a (Player.deltaX a delta) (Player.deltaZ a delta) in
  let p' := Player.update p delta in
  Vector3.x (Player.position p') = Vector3.x (Player.position h) /\
  Vector3.z (Player.position p') = Vector3.z (Player.position h) /\
  Vector3.x (Player.velocity p') = Vector3.x (Player.velocity h) /\
  Vector3.z (Player.velocity p') = Vector3.z (Player.velocity h) /\
  Player.level p' = Player.level p /\
  Player.height p' = Player.height p.
Proof.
  intros Hl a h p'. unfold p'. rewrite (update_locked p delta Hl). fold a. fold h.
  destruct (moveVertical_horizontal h (Player.deltaY a delta)) as (Hx & Hz & Hvx & Hvz & HL & Hh).
  destruct (moveHorizontal_fields a (Player.deltaX a delta) (Player.deltaZ a delta))
    as (HL' & Hh' & _ & _).
  fold h in HL', Hh'.
  repeat split; auto.
  - rewrite HL, HL'. reflexivity.
  - rewrite Hh, Hh'. reflexivity.
Qed.

End PlayerMoreFacts.

Section PlayerMoreClaims.
Context `{Three}.

(** The wall test of an update, as an invariant of the position. *)
Lemma update_keeps_open (p : Player.t) (delta : Q) :
  Level.isWall (Player.level p) (Vector3.x (Player.position p))
               (Vector3.z (Player.position p)) = false ->
  Level.isWall (Player.level p) (Vector3.x (Player.position (Player.update p delta)))
               (Vector3.z (Player.position (Player.update p delta))) = false.
Proof.
  intros Hw.
  destruct (Player.isLocked p) eqn:Hl.
  2:{ rewrite (update_not_locked p delta Hl). exact Hw. }
  destruct (update_horizontal p delta Hl) as (Hx & Hz & _ & _ & _ & _).
  rewrite Hx, Hz.
  set (a := Player.accelerate p delta).
  destruct (moveHorizontal_cases a (Player.deltaX a delta) (Player.deltaZ a delta))
    as [HX HZ].
  change (Player.position a) with (Player.position p) in HX, HZ.
  change (Player.level a) with (Player.level p) in HX, HZ.
  destruct HZ as [[-> [Hwz _]] | [-> _]]; [exact Hwz|].
  destruct HX as [[-> [Hwx _]] | [-> _]]; [exact Hwx | exact Hw].
Qed.

Lemma update_keeps_level (p : Player.t) (delta : Q) :
  Player.level (Player.update p delta) = Player.level p.
Proof.
  destruct (Player.isLocked p) eqn:Hl.
  - apply (update_horizontal p delta Hl).
  - now rewrite (update_not_locked p delta Hl).
Qed.

(** X6.  An update never puts the player inside a wall or outside the
    grid: if [isWall] is false at the player's position before it, it is
    false at the position after it, on the same level, whatever the frame
    time, the keys held and the camera's orientation; and so after any
    number of updates. *)
Theorem player_stays_out_of_walls (p : Player.t) (deltas : list Q) :
  Level.isWall (Player.level p) (Vector3.x (Player.position p))
               (Vector3.z (Player.position p)) = false ->
  let p' := fold_left Player.update deltas p in
  Player.level p' = Player.level p /\
  Level.isWall (Player.level p) (Vector3.x (Player.position p'))
               (Vector3.z (Player.position p')) = false.
Proof.
  revert p. induction deltas as [|delta deltas IH]; intros p Hw; cbn [fold_left].
  - auto.
  - pose proof (update_keeps_open p delta Hw) as Hw1.
    rewrite <- (update_keeps_level p delta) in Hw1.
    destruct (IH (Player.update p delta) Hw1) as [HL Hw'].
    rewrite (update_keeps_level p delta) in HL, Hw'. auto.
Qed.

(** X7.  In one update the floor under the player rises by at most
    [stepHeight]: the floor height at the new position is at most the
    floor height at the old position plus [stepHeight]. *)
Theorem player_climbs_at_most_step (p : Player.t) (delta : Q) :
  0 <= Player.stepHeight p ->
  let p' := Player.update p delta in
  Level.getFloorHeight (Player.level p) (Vector3.x (Player.position p'))
                       (Vector3.z (Player.position p'))
  <= Level.getFloorHeight (Player.level p) (Vector3.x (Player.position p))
                          (Vector3.z (Player.position p))
     + Player.stepHeight p.
Proof.
  intros Hs p'.
  destruct (Player.isLocked p) eqn:Hl.
  2:{ unfold p'. rewrite (update_not_locked p delta Hl). lra. }
  destruct (update_horizontal p delta Hl) as (Hx & Hz & _ & _ & _ & _).
  fold p' in Hx, Hz. rewrite Hx, Hz.
  set (a := Player.accelerate p delta).
  destruct (moveHorizontal_cases a (Player.deltaX a delta) (Player.deltaZ a delta))
    as [HX HZ].
  change (Player.position a) with (Player.position p) in HX, HZ.
  change (Player.level a) with (Player.level p) in HX, HZ.
  change (Player.stepHeight a) with (Player.stepHeight p) in HX, HZ.
  destruct HZ as [[-> [_ Hfz]] | [-> _]]; [exact Hfz|].
  destruct HX as [[-> [_ Hfx]] | [-> _]]; [exact Hfx | lra].
Qed.

End PlayerMoreClaims.

(** The player pressed into the corner of the room is still on floor
    after the update. *)
Lemma player_stays_out_of_walls_witness :
  Level.isWall (Player.level Sample.cornered) 4 4 = false /\
  (let p' := fold_left (@Player.update Simple.three) [1 # 10; 1 # 10] Sample.cornered in
   Level.isWall Sample.room (Vector3.x (Player.position p'))
                (Vector3.z (Player.position p')) = false).
Proof.
  assert (Hw : Level.isWall (Player.level Sample.cornered)
                 (Vector3.x (Player.position Sample.cornered))
                 (Vector3.z (Player.position Sample.cornered)) = false) by reflexivity.
  split; [reflexivity|].
  exact (proj2 (@player_stays_out_of_walls Simple.three Sample.cornered
                  [1 # 10; 1 # 10] Hw)).
Defined.

Lemma player_climbs_at_most_step_witness :
  0 <= Player.stepHeight Sample.cornered /\
  (let p' := @Player.update Simple.three Sample.cornered (1 # 10) in
   Level.getFloorHeight Sample.room (Vector3.x (Player.position p'))
                        (Vector3.z (Player.position p'))
   <= Level.getFloorHeight Sample.room 4 4 + (11 # 10)).
Proof.
  assert (Hs : 0 <= Player.stepHeight Sample.cornered) by (vm_compute; discriminate).
  split; [exact Hs|].
  apply (@player_climbs_at_most_step Simple.three Sample.cornered (1 # 10) Hs).
Defined.

(** ** Damping, rest and the jump *)

Section PlayerDynamics.
Context `{Three}.

Lemma accelerate_noKeys (p : Player.t) (delta : Q) :
  noKeys p ->
  let a := Player.accelerate p delta in
  Vector3.x (Player.velocity a)
  = Vector3.x (Player.velocity p) - Vector3.x (Player.velocity p) * 10 * delta /\
  Vector3.z (Player.velocity a)
  = Vector3.z (Player.velocity p) - Vector3.z (Player.velocity p) * 10 * delta /\
  Vector3.y (Player.velocity a)
  = Vector3.y (Player.velocity p) - Player.gravity p * delta.
Proof.
  intros (Hf & Hb & Hl & Hr). unfold Player.accelerate.
  rewrite Hf, Hb, Hl, Hr. cbn. auto.
Qed.






End PlayerDynamics.

Section PlayerRest.
Context `{Three}.

(** An update of a player with no key held and no horizontal velocity:
    where it ends horizontally, and the vertical step it then takes. *)
Lemma update_still (p : Player.t) (delta : Q) :
  Player.isLocked p = true -> noKeys p ->
  Vector3.x (Player.velocity p) == 0 -> Vector3.z (Player.velocity p) == 0 ->
  let a := Player.accelerate p delta in
  exists h,
    Player.update p delta = Player.moveVertical h (Player.deltaY a delta) /\
    Vector3.x (Player.position h) == Vector3.x (Player.position p) /\
    Vector3.z (Player.position h) == Vector3.z (Player.position p) /\
    Vector3.x (Player.velocity h) == 0 /\
    Vector3.z (Player.velocity h) == 0 /\
    Vector3.y (Player.position h) = Vector3.y (Player.position p) /\
    Vector3.y (Player.velocity h) = Vector3.y (Player.velocity p) - Player.gravity p * delta /\
    Player.level h = Player.level p /\ Player.height h = Player.height p.
Proof.
  intros Hl Hk Hvx Hvz a.
  destruct (accelerate_noKeys p delta Hk) as (Hax & Haz & Hay). fold a in Hax, Haz, Hay.
  assert (Hax0 : Vector3.x (Player.velocity a) == 0) by (rewrite Hax, Hvx; ring).
  assert (Haz0 : Vector3.z (Player.velocity a) == 0) by (rewrite Haz, Hvz; ring).
  assert (HdX : Player.deltaX a delta == 0)
    by (unfold Player.deltaX; rewrite Hax0, Haz0; ring).
  assert (HdZ : Player.deltaZ a delta == 0)
    by (unfold Player.deltaZ; rewrite Hax0, Haz0; ring).
  set (h := Player.moveHorizontal a (Player.deltaX a delta) (Player.deltaZ a delta)).
  exists h. split; [apply (update_locked p delta Hl)|].
  pose proof (moveHorizontal_x a (Player.deltaX a delta) (Player.deltaZ a delta)) as HX.
  pose proof (moveHorizontal_z a (Player.deltaX a delta) (Player.deltaZ a delta)) as HZ.
  destruct (moveHorizontal_fields a (Player.deltaX a delta) (Player.deltaZ a delta))
    as (HL & Hh & Hy & Hvy).
  cbv zeta in HX, HZ. fold h in HX, HZ, HL, Hh, Hy, Hvy.
  change (Player.position a) with (Player.position p) in HX, HZ, Hy.
  assert (Hxs : Vector3.x (Player.position h) == Vector3.x (Player.position p) /\
                Vector3.x (Player.velocity h) == 0).
  { destruct (Player._canMoveTo a _ _ _) in HX; destruct HX as [-> ->]; split;
      try reflexivity; try exact Hax0. rewrite HdX. ring. }
  assert (Hzs : Vector3.z (Player.position h) == Vector3.z (Player.position p) /\
                Vector3.z (Player.velocity h) == 0).
  { destruct (Player._canMoveTo a _ _ _) in HZ; destruct HZ as [-> ->]; split;
      try reflexivity; try exact Haz0. rewrite HdZ. ring. }
  destruct Hxs as [Hx1 Hx2]. destruct Hzs as [Hz1 Hz2].
  repeat split; auto.
  rewrite Hvy. exact Hay.
Qed.

(** X9.  A player at rest stays at rest: with the controls locked, no
    key held, no horizontal velocity, no upward velocity and the eye
    exactly [height] above the floor, an update leaves the position where
    it was, the velocity zero and [onGround] true.  The frame lasts at
    least a millisecond, gravity is at least 1 and the eye is within 1000
    units of height zero, so that the fall of one frame, at least
    [gravity * delta * delta], is far above the rounding of the script's
    numbers at the eye's height; a fall lost in that rounding would leave
    the strict test of the snap false. *)
Theorem rest_is_a_fixed_point (p : Player.t) (delta : Q) :
  Player.isLocked p = true -> noKeys p -> atRest p ->
  1 # 1000 <= delta -> 1 <= Player.gravity p ->
  Qabs (Vector3.y (Player.position p)) <= 1000 ->
  let p' := Player.update p delta in
  Vector3.x (Player.position p') == Vector3.x (Player.position p) /\
  Vector3.y (Player.position p') == Vector3.y (Player.position p) /\
  Vector3.z (Player.position p') == Vector3.z (Player.position p) /\
  Vector3.x (Player.velocity p') == 0 /\
  Vector3.y (Player.velocity p') = 0 /\
  Vector3.z (Player.velocity p') == 0 /\
  Player.onGround p' = true /\
  atRest p'.
Proof.
  intros Hl Hk (Hvx & Hvz & Hvy & Hy) Hd1 Hg1 _ p'.
  assert (Hd : 0 < delta) by lra.
  assert (Hg : 0 < Player.gravity p) by lra.
  destruct (update_still p delta Hl Hk Hvx Hvz)
    as (h & Hu & Hx & Hz & Hhx & Hhz & Hhy & Hhvy & HL & Hh).
  fold p' in Hu.
  destruct (moveVertical_horizontal h (Player.deltaY (Player.accelerate p delta) delta))
    as (Hx' & Hz' & Hvx' & Hvz' & HL' & Hh').
  destruct (moveVertical_snap h (Player.deltaY (Player.accelerate p delta) delta))
    as [Hlow _].
  rewrite <- Hu in Hx', Hz', Hvx', Hvz', HL', Hh', Hlow.
  destruct (queries_compat (Player.level p) _ _ _ _ Hx Hz) as [_ Hfloor].
  rewrite HL, Hh, Hhy, Hfloor in Hlow.
  assert (Hgd : 0 < Player.gravity p * delta) by (now apply Qmult_lt_0_compat).
  destruct (accelerate_noKeys p delta Hk) as (_ & _ & Hay).
  assert (Hfall : Player.deltaY (Player.accelerate p delta) delta < 0).
  { unfold Player.deltaY. rewrite Hay.
    setoid_replace 0 with (0 * delta) by ring.
    apply Qmult_lt_compat_r; [exact Hd | lra]. }
  destruct Hlow as (Hy' & Hg' & Hvy'); [lra|].
  assert (Hxp : Vector3.x (Player.position p') == Vector3.x (Player.position p))
    by (rewrite Hx'; exact Hx).
  assert (Hzp : Vector3.z (Player.position p') == Vector3.z (Player.position p))
    by (rewrite Hz'; exact Hz).
  assert (Hyp : Vector3.y (Player.position p') == Vector3.y (Player.position p))
    by (rewrite Hy', Hy; reflexivity).
  assert (Hvxp : Vector3.x (Player.velocity p') == 0) by (rewrite Hvx'; exact Hhx).
  assert (Hvzp : Vector3.z (Player.velocity p') == 0) by (rewrite Hvz'; exact Hhz).
  repeat split; auto.
  - rewrite Hvy'. apply Qle_refl.
  - rewrite HL', HL, Hh', Hh.
    destruct (queries_compat (Player.level p) _ _ _ _ Hxp Hzp) as [_ ->].
    rewrite Hy'. reflexivity.
Qed.


End PlayerRest.


Lemma resting_atRest : atRest Fixture.resting.
Proof.
  repeat split; vm_compute; try reflexivity; discriminate.
Qed.

(** The player standing in the middle of the room is found there, on
    the ground, after a frame of a sixtieth of a second. *)
Lemma rest_is_a_fixed_point_witness :
  Player.isLocked Fixture.resting = true /\ noKeys Fixture.resting /\
  atRest Fixture.resting /\
  Player.onGround (@Player.update Simple.three Fixture.resting (1 # 60)) = true.
Proof.
  assert (Hk : noKeys Fixture.resting) by (repeat split).
  assert (Hd : 1 # 1000 <= 1 # 60) by (intro E; discriminate E).
  assert (Hg : 1 <= Player.gravity Fixture.resting) by (intro E; discriminate E).
  assert (Hy : Qabs (Vector3.y (Player.position Fixture.resting)) <= 1000)
    by (intro E; discriminate E).
  split; [reflexivity|]. split; [exact Hk|]. split; [exact resting_atRest|].
  apply (@rest_is_a_fixed_point Simple.three Fixture.resting (1 # 60) eq_refl Hk
           resting_atRest Hd Hg Hy).
Defined.


(** ** Monsters on the grid *)

Section MonsterMore.
Context `{Three}.

(** What the chase branch leaves as it was, and the wall invariant of
    its two wall tests. *)
Lemma chaseStep_keeps (m : Monster.t) (delta : Q) (playerPos : Vector3.t)
      (distSq rnd1 rnd2 : Q) :
  let m' := Monster.chaseStep m delta playerPos distSq rnd1 rnd2 in
  Monster.level m' = Monster.level m /\ Monster.type m' = Monster.type m /\
  Monster.health m' = Monster.health m /\ Monster.speed m' = Monster.speed m /\
  Monster.state m' = Monster.state m /\ Monster.mesh m' = Monster.mesh m /\
  (Level.isWall (Monster.level m) (Vector3.x (Monster.position m))
                (Vector3.z (Monster.position m)) = false ->
   Level.isWall (Monster.level m) (Vector3.x (Monster.position m'))
                (Vector3.z (Monster.position m')) = false).
Proof.
  destruct m as [ty lvl pos hp sp st msh tm md stm sd].
  intro m'. subst m'. unfold Monster.chaseStep. monster_simpl.
  destruct (sqrt_lt distSq 20); monster_simpl;
    [destruct (stm - delta <=? 0); monster_simpl|];
    repeat (case_wall; monster_simpl); repeat split; auto.
Qed.

(** The monster after the detection test and the chase branch, before
    it is put on the floor. *)
Lemma update_alive (m : Monster.t) (delta : Q) (playerPos : Vector3.t) (rnd1 rnd2 : Q) :
  Monster.state m <> dead ->
  exists m2,
    Monster.update m delta playerPos rnd1 rnd2
    = Monster.setMesh
        (Monster.setPosition m2
           (Vector3.setY (Monster.position m2)
              (Level.getFloorHeight (Monster.level m2) (Vector3.x (Monster.position m2))
                                    (Vector3.z (Monster.position m2))
               + match Monster.type m2 with demon => 125 # 100 | imp => 1 end)))
        (Monster.meshSetPosition (Monster.mesh m2)
           (Vector3.setY (Monster.position m2)
              (Level.getFloorHeight (Monster.level m2) (Vector3.x (Monster.position m2))
                                    (Vector3.z (Monster.position m2))
               + match Monster.type m2 with demon => 125 # 100 | imp => 1 end))) /\
    Monster.level m2 = Monster.level m /\ Monster.type m2 = Monster.type m /\
    Monster.health m2 = Monster.health m /\ Monster.speed m2 = Monster.speed m /\
    Monster.mesh m2 = Monster.mesh m /\
    Monster.state m2
    = (if sqrt_lt (Vector3.distanceToSquared (Monster.position m) playerPos) 30
       then chase else Monster.state m) /\
    (Monster.state m2 <> chase -> Monster.position m2 = Monster.position m) /\
    (Level.isWall (Monster.level m) (Vector3.x (Monster.position m))
                  (Vector3.z (Monster.position m)) = false ->
     Level.isWall (Monster.level m) (Vector3.x (Monster.position m2))
                  (Vector3.z (Monster.position m2)) = false).
Proof.
  intro Hs.
  assert (Hd : isDead (Monster.state m) = false)
    by (destruct (Monster.state m); [reflexivity | reflexivity | congruence]).
  unfold Monster.update. rewrite Hd.
  set (d := Vector3.distanceToSquared (Monster.position m) playerPos).
  set (m1 := if sqrt_lt d 30 then Monster.setState m chase else m).
  assert (H1 : Monster.level m1 = Monster.level m /\ Monster.type m1 = Monster.type m /\
               Monster.health m1 = Monster.health m /\ Monster.speed m1 = Monster.speed m /\
               Monster.mesh m1 = Monster.mesh m /\
               Monster.position m1 = Monster.position m /\
               Monster.state m1 = (if sqrt_lt d 30 then chase else Monster.state m)).
  { subst m1. destruct (sqrt_lt d 30); repeat split. }
  destruct H1 as (HL1 & HT1 & HH1 & HS1 & HM1 & HP1 & HSt1).
  set (m2 := match Monster.state m1 with
             | chase => Monster.chaseStep m1 delta playerPos d rnd1 rnd2
             | _ => m1
             end).
  exists m2. split; [reflexivity|].
  pose proof (chaseStep_keeps m1 delta playerPos d rnd1 rnd2) as Hc. cbv zeta in Hc.
  rewrite HL1, HT1, HH1, HS1, HM1, HP1 in Hc.
  destruct Hc as (HL & HT & HH & HS & HSt & HM & HW).
  subst m2. rewrite <- HSt1.
  destruct (Monster.state m1) eqn:E; repeat split; auto;
    try (intro Hne; exfalso; apply Hne; exact HSt);
    try (intro Hw; rewrite HP1; exact Hw).
Qed.

Lemma monster_update_keeps_open
      (m : Monster.t) (delta : Q) (playerPos : Vector3.t) (rnd1 rnd2 : Q) :
  Level.isWall (Monster.level m) (Vector3.x (Monster.position m))
               (Vector3.z (Monster.position m)) = false ->
  Level.isWall (Monster.level m)
               (Vector3.x (Monster.position (Monster.update m delta playerPos rnd1 rnd2)))
               (Vector3.z (Monster.position (Monster.update m delta playerPos rnd1 rnd2)))
  = false.
Proof.
  intro Hw.
  destruct (Monster.state m) eqn:Es.
  - destruct (update_alive m delta playerPos rnd1 rnd2) as (m2 & -> & H2); [congruence|].
    apply H2, Hw.
  - destruct (update_alive m delta playerPos rnd1 rnd2) as (m2 & -> & H2); [congruence|].
    apply H2, Hw.
  - unfold Monster.update. rewrite Es. exact Hw.
Qed.

Lemma monster_update_fields
      (m : Monster.t) (delta : Q) (playerPos : Vector3.t) (rnd1 rnd2 : Q) :
  let m' := Monster.update m delta playerPos rnd1 rnd2 in
  Monster.level m' = Monster.level m /\ Monster.type m' = Monster.type m /\
  id (Monster.mesh m') = id (Monster.mesh m) /\
  Monster.health m' = Monster.health m /\
  (Monster.state m' = dead <-> Monster.state m = dead) /\
  (Monster.state m = dead -> m' = m).
Proof.
  intro m'. subst m'.
  destruct (Monster.state m) eqn:Es.
  - destruct (update_alive m delta playerPos rnd1 rnd2)
      as (m2 & -> & HL & HT & HH & _ & HM & HSt & _); [congruence|].
    cbn. rewrite HL, HT, HH, HM, HSt, Es.
    repeat split; auto; try discriminate.
    destruct (sqrt_lt _ 30); discriminate.
  - destruct (update_alive m delta playerPos rnd1 rnd2)
      as (m2 & -> & HL & HT & HH & _ & HM & HSt & _); [congruence|].
    cbn. rewrite HL, HT, HH, HM, HSt, Es.
    repeat split; auto; try discriminate.
    destruct (sqrt_lt _ 30); discriminate.
  - unfold Monster.update. rewrite Es. cbn. rewrite Es. repeat split; auto.
Qed.

(** X11.  An update never puts a monster inside a wall or outside the
    grid: if [isWall] is false at its position before, it is false at
    its position after, on the same level, whatever the frame time, the
    player's position and the random values. *)
Theorem monster_stays_out_of_walls
        (m : Monster.t) (delta : Q) (playerPos : Vector3.t) (rnd1 rnd2 : Q) :
  Level.isWall (Monster.level m) (Vector3.x (Monster.position m))
               (Vector3.z (Monster.position m)) = false ->
  let m' := Monster.update m delta playerPos rnd1 rnd2 in
  Monster.level m' = Monster.level m /\
  Level.isWall (Monster.level m) (Vector3.x (Monster.position m'))
               (Vector3.z (Monster.position m')) = false.
Proof.
  intros Hw m'. split.
  - apply (monster_update_fields m delta playerPos rnd1 rnd2).
  - apply (monster_update_keeps_open m delta playerPos rnd1 rnd2 Hw).
Qed.

(** X12.  What an update does to a monster besides moving it: health,
    kind, speed, level and the identity of its sprite are untouched; a
    monster that is not dead is not made dead, and a chasing one keeps
    chasing; a monster that is not dead ends standing on the floor under
    it (Y is the floor height there plus 1 for an imp, 1.25 for a demon)
    with its sprite at the same place; and an idle monster 30 units or
    more from the player stays idle where it is. *)
Theorem monster_update_effects
        (m : Monster.t) (delta : Q) (playerPos : Vector3.t) (rnd1 rnd2 : Q) :
  let m' := Monster.update m delta playerPos rnd1 rnd2 in
  (Monster.health m' = Monster.health m /\ Monster.type m' = Monster.type m /\
   Monster.speed m' = Monster.speed m /\ Monster.level m' = Monster.level m /\
   id (Monster.mesh m') = id (Monster.mesh m)) /\
  (Monster.state m' = dead <-> Monster.state m = dead) /\
  (Monster.state m = chase -> Monster.state m' = chase) /\
  (Monster.state m <> dead ->
   Vector3.y (Monster.position m')
   = Level.getFloorHeight (Monster.level m) (Vector3.x (Monster.position m'))
                          (Vector3.z (Monster.position m'))
     + match Monster.type m with demon => 125 # 100 | imp => 1 end /\
   objPosition (Monster.mesh m') = Monster.position m') /\
  (Monster.state m = idle ->
   sqrt_lt (Vector3.distanceToSquared (Monster.position m) playerPos) 30 = false ->
   Monster.state m' = idle /\
   Vector3.x (Monster.position m') = Vector3.x (Monster.position m) /\
   Vector3.z (Monster.position m') = Vector3.z (Monster.position m)).
Proof.
  intro m'. subst m'.
  destruct (Monster.state m) eqn:Es.
  - destruct (update_alive m delta playerPos rnd1 rnd2)
      as (m2 & -> & HL & HT & HH & HS & HM & HSt & HP & _); [congruence|].
    rewrite Es in HSt.
    monster_simpl. cbn [objPosition Monster.meshSetPosition id].
    rewrite HL, HT, HH, HS, HM, HSt.
    split; [repeat split|]. split; [destruct (sqrt_lt _ 30); split; discriminate|].
    split; [discriminate|]. split; [intros _; split; reflexivity|].
    intros _ Hfar. rewrite Hfar in HSt |- *.
    rewrite HP by (rewrite HSt; discriminate). repeat split.
  - destruct (update_alive m delta playerPos rnd1 rnd2)
      as (m2 & -> & HL & HT & HH & HS & HM & HSt & HP & _); [congruence|].
    rewrite Es in HSt.
    monster_simpl. cbn [objPosition Monster.meshSetPosition id].
    rewrite HL, HT, HH, HS, HM, HSt.
    split; [repeat split|]. split; [destruct (sqrt_lt _ 30); split; discriminate|].
    split; [intros _; destruct (sqrt_lt _ 30); reflexivity|].
    split; [intros _; split; reflexivity|].
    intro Habs. discriminate Habs.
  - unfold Monster.update. rewrite Es. cbn [isDead]. rewrite Es.
    split; [repeat split|]. split; [split; reflexivity|].
    split; [discriminate|]. split; [intro Habs; contradiction|].
    intro Habs. discriminate Habs.
Qed.

End MonsterMore.

(** The first imp of the map of [main.js], chasing a player 8 units
    away, is still on floor after a frame. *)
Lemma monster_stays_out_of_walls_witness :
  Level.isWall Fixture.level 16 4 = false /\
  (let m' := @Monster.update Simple.three Fixture.firstImp (1 # 10) Fixture.nearby 0 0 in
   Monster.state m' = chase /\
   Level.isWall Fixture.level (Vector3.x (Monster.position m'))
                (Vector3.z (Monster.position m')) = false).
Proof.
  split; [reflexivity|]. split; [reflexivity|].
  apply (@monster_stays_out_of_walls Simple.three Fixture.firstImp (1 # 10) Fixture.nearby 0 0).
  reflexivity.
Defined.

(** The same imp stands 1 above the floor under it after the frame. *)
Lemma monster_update_effects_witness :
  Monster.state Fixture.firstImp <> dead /\
  (let m' := @Monster.update Simple.three Fixture.firstImp (1 # 10) Fixture.nearby 0 0 in
   Vector3.y (Monster.position m')
   = Level.getFloorHeight Fixture.level (Vector3.x (Monster.position m'))
                          (Vector3.z (Monster.position m')) + 1).
Proof.
  assert (Hs : Monster.state Fixture.firstImp <> dead) by discriminate.
  split; [exact Hs|].
  destruct (@monster_update_effects Simple.three Fixture.firstImp (1 # 10) Fixture.nearby 0 0)
    as (_ & _ & _ & Hfloor & _).
  apply (Hfloor Hs).
Defined.

(** ** Keys *)

Section ControlsClaims.

Lemma setKey_keeps (code : string) (v : bool) (p : Player.t) :
  Player.position (Controls.setKey code v p) = Player.position p /\
  Player.velocity (Controls.setKey code v p) = Player.velocity p /\
  Player.level (Controls.setKey code v p) = Player.level p /\
  Player.isLocked (Controls.setKey code v p) = Player.isLocked p /\
  Player.onGround (Controls.setKey code v p) = Player.onGround p.
Proof.
  unfold Controls.setKey. repeat case_if; repeat split.
Qed.

Lemma onKeyDown_keeps (code : string) (p : Player.t) :
  Player.position (Controls.onKeyDown code p) = Player.position p /\
  Player.level (Controls.onKeyDown code p) = Player.level p /\
  Player.isLocked (Controls.onKeyDown code p) = Player.isLocked p.
Proof.
  unfold Controls.onKeyDown. destruct (String.eqb code "Space").
  - unfold Player.jump. destruct (Player.onGround p); repeat split.
  - destruct (setKey_keeps code true p) as (Hp & _ & HL & Hl & _). auto.
Qed.

Lemma onKeyUp_keeps (code : string) (p : Player.t) :
  Player.position (Controls.onKeyUp code p) = Player.position p /\
  Player.level (Controls.onKeyUp code p) = Player.level p /\
  Player.isLocked (Controls.onKeyUp code p) = Player.isLocked p.
Proof.
  unfold Controls.onKeyUp. destruct (String.eqb code "Space"); [repeat split|].
  destruct (setKey_keeps code false p) as (Hp & _ & HL & Hl & _). auto.
Qed.

(** X13.  Key presses and releases: releasing a movement key after
    pressing it leaves the player as releasing it alone would, so no key
    sticks; each arrow key acts as its letter; a key outside the nine
    handled changes nothing; no key moves the player, and only [Space]
    touches its velocity; releasing the four letters leaves no key
    held. *)
Theorem keys_press_then_release (code : string) (p : Player.t) :
  (code <> "Space"%string ->
   Controls.onKeyUp code (Controls.onKeyDown code p) = Controls.onKeyUp code p) /\
  (forall v,
     Controls.setKey "ArrowUp" v p = Controls.setKey "KeyW" v p /\
     Controls.setKey "ArrowLeft" v p = Controls.setKey "KeyA" v p /\
     Controls.setKey "ArrowDown" v p = Controls.setKey "KeyS" v p /\
     Controls.setKey "ArrowRight" v p = Controls.setKey "KeyD" v p) /\
  (~ In code ["ArrowUp"; "KeyW"; "ArrowLeft"; "KeyA"; "ArrowDown"; "KeyS";
              "ArrowRight"; "KeyD"; "Space"]%string ->
   Controls.onKeyDown code p = p /\ Controls.onKeyUp code p = p) /\
  (Player.position (Controls.onKeyDown code p) = Player.position p /\
   Player.position (Controls.onKeyUp code p) = Player.position p /\
   (code <> "Space"%string ->
    Player.velocity (Controls.onKeyDown code p) = Player.velocity p)) /\
  noKeys (Controls.onKeyUp "KeyW"
            (Controls.onKeyUp "KeyA" (Controls.onKeyUp "KeyS" (Controls.onKeyUp "KeyD" p)))).
Proof.
  split; [|split; [|split; [|split]]].
  - intro Hne. apply String.eqb_neq in Hne.
    unfold Controls.onKeyUp, Controls.onKeyDown. rewrite Hne.
    unfold Controls.setKey. destruct p. cbn [Player.moveForward Player.moveBackward
      Player.moveLeft Player.moveRight Controls.setMoves].
    repeat case_if; reflexivity.
  - intro v. repeat split.
  - intro Hnot.
    assert (Hk : forall k, In k ["ArrowUp"; "KeyW"; "ArrowLeft"; "KeyA"; "ArrowDown"; "KeyS";
                                 "ArrowRight"; "KeyD"; "Space"]%string ->
                           String.eqb code k = false).
    { intros k Hin. apply String.eqb_neq. intros ->. exact (Hnot Hin). }
    unfold Controls.onKeyDown, Controls.onKeyUp, Controls.setKey.
    rewrite !Hk by (cbn; tauto). cbn. auto.
  - split; [apply onKeyDown_keeps|]. split; [apply onKeyUp_keeps|].
    intro Hne. apply String.eqb_neq in Hne. unfold Controls.onKeyDown. rewrite Hne.
    apply setKey_keeps.
  - repeat split.
Qed.

End ControlsClaims.

(** Forward is pressed, then released while right is still held. *)
Lemma keys_press_then_release_witness :
  "KeyW"%string <> "Space"%string /\
  Player.moveForward
    (Controls.onKeyUp "KeyW" (Controls.onKeyDown "KeyW" Fixture.resting)) = false.
Proof.
  assert (Hne : "KeyW"%string <> "Space"%string) by discriminate.
  split; [exact Hne|].
  rewrite (proj1 (keys_press_then_release "KeyW" Fixture.resting) Hne). reflexivity.
Defined.

(** ** The game as a whole *)

Section GameFacts.
Context `{Three}.

Lemma evolves_refl (m : Monster.t) : evolves m m.
Proof. unfold evolves. repeat split; auto. apply Qle_refl. Qed.

Lemma evolves_trans (a b c : Monster.t) : evolves a b -> evolves b c -> evolves a c.
Proof.
  intros (HL1 & HT1 & HI1 & HH1 & HD1 & HO1) (HL2 & HT2 & HI2 & HH2 & HD2 & HO2).
  unfold evolves. split; [congruence|]. split; [congruence|]. split; [congruence|].
  split; [apply Qle_trans with (Monster.health b); assumption|].
  split.
  - intro Hd. destruct (HD1 Hd) as (Hs & Hp & Hh). destruct (HD2 Hs) as (Hs' & Hp' & Hh').
    repeat split; congruence.
  - intro Ho. specialize (HO1 Ho).
    rewrite <- HL1 in HO1. specialize (HO2 HO1). rewrite HL1 in HO2. exact HO2.
Qed.

Lemma update_evolves (m : Monster.t) (delta : Q) (pp : Vector3.t) (r1 r2 : Q) :
  evolves m (Monster.update m delta pp r1 r2).
Proof.
  destruct (monster_update_fields m delta pp r1 r2) as (HL & HT & HI & HH & HD & Hsame).
  unfold evolves. split; [exact HL|]. split; [exact HT|]. split; [exact HI|].
  split; [rewrite HH; apply Qle_refl|].
  split.
  - intro Hd. rewrite (Hsame Hd). auto.
  - apply monster_update_keeps_open.
Qed.

Lemma takeDamage_evolves (m : Monster.t) :
  isDead (Monster.state m) = false -> evolves m (fst (Monster.takeDamage m 20)).
Proof.
  intro Hlive. unfold evolves. cbn.
  split; [reflexivity|]. split; [reflexivity|]. split; [reflexivity|].
  split; [lra|]. split.
  - intro Hd. rewrite Hd in Hlive. discriminate.
  - auto.
Qed.

Lemma damageTimeout_evolves (m : Monster.t) : evolves m (Monster.damageTimeout m).
Proof.
  unfold evolves, Monster.damageTimeout.
  destruct (Monster.health m <=? 0); cbn; repeat split; auto; apply Qle_refl.
Qed.

Lemma Forall2_same {A} (R : A -> A -> Prop) (l : list A) :
  (forall a, R a a) -> Forall2 R l l.
Proof. intro Hr. induction l; constructor; auto. Qed.

Lemma Forall2_chain {A} (R : A -> A -> Prop) (l1 l2 l3 : list A) :
  (forall a b c, R a b -> R b c -> R a c) ->
  Forall2 R l1 l2 -> Forall2 R l2 l3 -> Forall2 R l1 l3.
Proof.
  intros Ht H12. revert l3.
  induction H12 as [|a b l1 l2 Hab _ IH]; intros l3 H23; inversion H23; subst;
    constructor; eauto.
Qed.

Lemma onShoot_evolves (pp pd : Vector3.t) (ms : list Monster.t) :
  Forall2 evolves ms (fst (Main.onShoot pp pd ms)).
Proof.
  induction ms as [|m ms IH]; [constructor|].
  cbn [Main.onShoot].
  destruct (isDead (Monster.state m)) eqn:Ed.
  - destruct (Main.onShoot pp pd ms). cbn [fst] in *.
    constructor; [apply evolves_refl | exact IH].
  - match goal with |- context [if ?c then _ else _] => destruct c end.
    + cbn [fst Monster.takeDamage].
      constructor; [apply (takeDamage_evolves m Ed) | apply Forall2_same, evolves_refl].
    + destruct (Main.onShoot pp pd ms). cbn [fst] in *.
      constructor; [apply evolves_refl | exact IH].
Qed.

Lemma runTimeout_evolves (t : Timeout) (ms : list Monster.t) :
  Forall2 evolves ms (runTimeout t ms).
Proof.
  destruct t as [i]. unfold runTimeout.
  induction ms as [|m ms IH]; cbn [map]; constructor; [|exact IH].
  destruct (Nat.eqb (id (Monster.mesh m)) i);
    [apply damageTimeout_evolves | apply evolves_refl].
Qed.

Lemma updateMonsters_evolves (ms : list Monster.t) (i : nat) (delta : Q)
      (pp : Vector3.t) (rnd : nat -> Q * Q) :
  Forall2 evolves ms (Game.updateMonsters ms i delta pp rnd).
Proof.
  revert i. induction ms as [|m ms IH]; intro i; cbn [Game.updateMonsters]; constructor.
  - apply update_evolves.
  - apply IH.
Qed.

Lemma step_evolves (g : Game.t) (e : Game.Event) :
  Forall2 evolves (Game.monsters g) (Game.monsters (Game.step g e)).
Proof.
  destruct e; cbn [Game.step Game.animate Game.monsters];
    try (apply Forall2_same, evolves_refl).
  - apply updateMonsters_evolves.
  - destruct (Player.isLocked (Game.player g)); [|apply Forall2_same, evolves_refl].
    pose proof (onShoot_evolves (Player.position (Game.player g)) playerDir
                  (Game.monsters g)) as Hs.
    destruct (Main.onShoot _ _ _). exact Hs.
  - destruct (Game.timeouts g) as [|t ts]; [apply Forall2_same, evolves_refl|].
    apply runTimeout_evolves.
Qed.

Lemma run_evolves (g : Game.t) (es : list Game.Event) :
  Forall2 evolves (Game.monsters g) (Game.monsters (Game.run g es)).
Proof.
  revert g. induction es as [|e es IH]; intro g; cbn [Game.run fold_left].
  - apply Forall2_same, evolves_refl.
  - apply Forall2_chain with (Game.monsters (Game.step g e)).
    + apply evolves_trans.
    + apply step_evolves.
    + apply IH.
Qed.

(** The player across one event: same level, and still on an open cell. *)
Lemma step_player (g : Game.t) (e : Game.Event) :
  Player.level (Game.player (Game.step g e)) = Player.level (Game.player g) /\
  (onOpenCell (Player.level (Game.player g)) (Player.position (Game.player g)) ->
   onOpenCell (Player.level (Game.player g))
              (Player.position (Game.player (Game.step g e)))).
Proof.
  unfold onOpenCell.
  destruct e; cbn [Game.step Game.animate Game.player].
  - split; [apply update_keeps_level | apply update_keeps_open].
  - destruct (onKeyDown_keeps code (Game.player g)) as (-> & -> & _). auto.
  - destruct (onKeyUp_keeps code (Game.player g)) as (-> & -> & _). auto.
  - destruct (Player.isLocked (Game.player g)); [|auto].
    destruct (Main.onShoot _ _ _). auto.
  - destruct (Game.timeouts g); auto.
  - auto.
  - auto.
Qed.

Lemma run_player (g : Game.t) (es : list Game.Event) :
  Player.level (Game.player (Game.run g es)) = Player.level (Game.player g) /\
  (onOpenCell (Player.level (Game.player g)) (Player.position (Game.player g)) ->
   onOpenCell (Player.level (Game.player g))
              (Player.position (Game.player (Game.run g es)))).
Proof.
  revert g. induction es as [|e es IH]; intro g; cbn [Game.run fold_left]; [auto|].
  destruct (step_player g e) as [HL Ho].
  destruct (IH (Game.step g e)) as [HL' Ho'].
  fold (Game.run (Game.step g e) es) in *.
  rewrite HL in HL', Ho'. split; [exact HL'|].
  intro Hopen. apply Ho', Ho, Hopen.
Qed.

Lemma evolves_meshIds (ms ms' : list Monster.t) :
  Forall2 evolves ms ms' -> meshIds ms' = meshIds ms.
Proof.
  induction 1 as [|m m' ms ms' (_ & _ & Hi & _) _ IH]; [reflexivity|].
  unfold meshIds in *. cbn [map]. now rewrite Hi, IH.
Qed.




End GameFacts.

Section GameClaims.
Context `{Three}.

(** X14.  Nobody ever walks into a wall: if the player and every monster
    stand on cells that are not walls, they still do after any sequence
    of frames, key presses and releases, clicks, timer callbacks, pointer
    lock changes and camera turns. *)
Theorem run_keeps_everyone_on_open_cells (g : Game.t) (es : list Game.Event) :
  onOpenCell (Player.level (Game.player g)) (Player.position (Game.player g)) ->
  Forall (fun m => onOpenCell (Monster.level m) (Monster.position m)) (Game.monsters g) ->
  let g' := Game.run g es in
  onOpenCell (Player.level (Game.player g')) (Player.position (Game.player g')) /\
  Forall (fun m => onOpenCell (Monster.level m) (Monster.position m)) (Game.monsters g').
Proof.
  intros Hp Hms g'. split.
  - destruct (run_player g es) as [HL Ho]. fold g' in HL, Ho.
    rewrite HL. apply Ho, Hp.
  - pose proof (run_evolves g es) as Hev. fold g' in Hev.
    induction Hev as [|m m' ms ms' (HL & _ & _ & _ & _ & Ho) _ IH]; [constructor|].
    inversion Hms; subst. constructor; [|now apply IH].
    rewrite HL. now apply Ho.
Qed.

(** X15.  Across any sequence of events the list of monsters keeps its
    length and order, each monster keeps its kind and its sprite, its
    health never rises, and a dead monster stays dead with its position and
    health frozen. *)
Theorem monsters_only_decline (g : Game.t) (es : list Game.Event) :
  let g' := Game.run g es in
  List.length (Game.monsters g') = List.length (Game.monsters g) /\
  meshIds (Game.monsters g') = meshIds (Game.monsters g) /\
  Forall2 (fun m m' =>
             Monster.type m' = Monster.type m /\
             Monster.health m' <= Monster.health m /\
             (Monster.state m = dead ->
              Monster.state m' = dead /\ Monster.position m' = Monster.position m /\
              Monster.health m' = Monster.health m))
          (Game.monsters g) (Game.monsters g').
Proof.
  intro g'. pose proof (run_evolves g es) as Hev. fold g' in Hev.
  split; [symmetry; apply (Forall2_length Hev)|].
  split; [apply (evolves_meshIds _ _ Hev)|].
  induction Hev as [|m m' ms ms' (_ & HT & _ & HH & HD & _) _ IH]; constructor; auto.
Qed.


End GameClaims.

(** The session on the map of [main.js]: everybody starts on open
    floor. *)
Lemma run_keeps_everyone_on_open_cells_witness :
  onOpenCell (Player.level (Game.player Fixture.lockedGame))
             (Player.position (Game.player Fixture.lockedGame)) /\
  Forall (fun m => onOpenCell (Monster.level m) (Monster.position m))
         (Game.monsters Fixture.lockedGame) /\
  onOpenCell (Player.level (Game.player (@Game.run Simple.three Fixture.lockedGame Fixture.session)))
             (Player.position (Game.player (@Game.run Simple.three Fixture.lockedGame Fixture.session))).
Proof.
  assert (Hp : onOpenCell (Player.level (Game.player Fixture.lockedGame))
                          (Player.position (Game.player Fixture.lockedGame)))
    by (vm_compute; reflexivity).
  assert (Hm : Forall (fun m => onOpenCell (Monster.level m) (Monster.position m))
                      (Game.monsters Fixture.lockedGame))
    by (repeat constructor; vm_compute; reflexivity).
  split; [exact Hp|]. split; [exact Hm|].
  exact (proj1 (@run_keeps_everyone_on_open_cells Simple.three Fixture.lockedGame
                  Fixture.session Hp Hm)).
Defined.


(** ** Clicks in a row *)

Section ClickFacts.
Context `{Three}.

Lemma onShoot_first (pp pd : Vector3.t) (pre : list Monster.t) (m : Monster.t)
      (post : list Monster.t) :
  (forall m', In m' pre -> ~ validTarget pp pd m') ->
  validTarget pp pd m ->
  Main.onShoot pp pd (pre ++ m :: post)
  = (pre ++ fst (Monster.takeDamage m 20) :: post, [DamageTimeout (id (Monster.mesh m))]).
Proof.
  induction pre as [|m0 pre IH]; intros Hpre Hv.
  - now apply onShoot_hit.
  - rewrite <- app_comm_cons, onShoot_skip by (apply Hpre; now left).
    rewrite IH; [reflexivity | | exact Hv].
    intros m' Hin. apply Hpre. now right.
Qed.

Lemma validTarget_takeDamage (pp pd : Vector3.t) (m : Monster.t) (amount : Q) :
  validTarget pp pd m -> validTarget pp pd (fst (Monster.takeDamage m amount)).
Proof. intro Hv. exact Hv. Qed.

Lemma runTimeout_only (i : nat) (pre : list Monster.t) (m : Monster.t)
      (post : list Monster.t) :
  (forall m', In m' (pre ++ post) -> id (Monster.mesh m') <> i) ->
  id (Monster.mesh m) = i ->
  runTimeout (DamageTimeout i) (pre ++ m :: post) = pre ++ Monster.damageTimeout m :: post.
Proof.
  intros Hother Hm. unfold runTimeout.
  assert (Hid : forall l, (forall m', In m' l -> id (Monster.mesh m') <> i) ->
                          map (fun m0 => if Nat.eqb (id (Monster.mesh m0)) i
                                         then Monster.damageTimeout m0 else m0) l = l).
  { induction l as [|a l IH]; intro Hl; [reflexivity|].
    cbn [map]. rewrite IH by (intros; apply Hl; now right).
    destruct (Nat.eqb (id (Monster.mesh a)) i) eqn:E; [|reflexivity].
    apply Nat.eqb_eq in E. exfalso. apply (Hl a); [now left | exact E]. }
  rewrite map_app. cbn [map].
  rewrite Hid by (intros; apply Hother, in_or_app; now left).
  rewrite Hid by (intros; apply Hother, in_or_app; now right).
  rewrite Hm, Nat.eqb_refl. reflexivity.
Qed.

(** [n] clicks with nothing in between. *)
Lemma clicks (g : Game.t) (dir : Vector3.t) (n : nat)
      (pre : list Monster.t) (m : Monster.t) (post : list Monster.t) :
  Player.isLocked (Game.player g) = true ->
  Game.monsters g = pre ++ m :: post ->
  (forall m', In m' pre -> ~ validTarget (Player.position (Game.player g)) dir m') ->
  validTarget (Player.position (Game.player g)) dir m ->
  exists mn,
    Game.monsters (Game.run g (repeat (Game.MouseDown dir) n)) = pre ++ mn :: post /\
    Monster.health mn == Monster.health m - 20 * inject_Z (Z.of_nat n) /\
    Monster.state mn = Monster.state m /\
    Monster.position mn = Monster.position m /\
    id (Monster.mesh mn) = id (Monster.mesh m) /\
    Game.timeouts (Game.run g (repeat (Game.MouseDown dir) n))
    = Game.timeouts g ++ repeat (DamageTimeout (id (Monster.mesh m))) n.
Proof.
  revert g m. induction n as [|n IH]; intros g m Hl Hms Hpre Hv.
  - exists m. cbn [repeat Game.run fold_left].
    split; [exact Hms|]. split; [cbn; ring|].
    repeat split; auto. now rewrite app_nil_r.
  - set (g1 := Game.step g (Game.MouseDown dir)).
    assert (Hrun : Game.run g (repeat (Game.MouseDown dir) (S n))
                   = Game.run g1 (repeat (Game.MouseDown dir) n)) by reflexivity.
    assert (Hg1 : g1 = Game.mk (Game.player g)
                               (pre ++ fst (Monster.takeDamage m 20) :: post)
                               (Game.timeouts g ++ [DamageTimeout (id (Monster.mesh m))])).
    { unfold g1. cbn [Game.step]. rewrite Hl, Hms, (onShoot_first _ _ _ _ _ Hpre Hv).
      reflexivity. }
    assert (Hl1 : Player.isLocked (Game.player g1) = true) by (rewrite Hg1; exact Hl).
    assert (Hms1 : Game.monsters g1 = pre ++ fst (Monster.takeDamage m 20) :: post)
      by (rewrite Hg1; reflexivity).
    assert (Hpre1 : forall m', In m' pre ->
                               ~ validTarget (Player.position (Game.player g1)) dir m')
      by (rewrite Hg1; exact Hpre).
    assert (Hv1 : validTarget (Player.position (Game.player g1)) dir
                              (fst (Monster.takeDamage m 20)))
      by (rewrite Hg1; exact Hv).
    destruct (IH g1 (fst (Monster.takeDamage m 20)) Hl1 Hms1 Hpre1 Hv1)
      as (mn & Hmn & Hh & Hs & Hp & Hi & Ht).
    exists mn. rewrite Hrun.
    split; [exact Hmn|].
    split.
    { rewrite Hh. cbn [Monster.takeDamage fst Monster.health Monster.setHealth Monster.setMesh].
      rewrite Nat2Z.inj_succ, <- Z.add_1_r, inject_Z_plus. change (inject_Z 1) with 1. ring. }
    split; [exact Hs|]. split; [exact Hp|]. split; [exact Hi|].
    rewrite Ht, Hg1. cbn [Game.timeouts Monster.takeDamage fst Monster.mesh Monster.setMesh
                          Monster.meshSetColor id repeat].
    rewrite <- app_assoc. reflexivity.
Qed.

End ClickFacts.

Section ClickClaims.
Context `{Three}.

(** X17.  Clicks in a row all land on the same monster: with the pointer
    locked, [n] clicks with nothing in between take [20 * n] from the
    health of the first valid target and leave every other monster alone,
    also once that health is at or below zero, because the monster is
    not dead until a callback has run.  When the first callback then runs
    (no other callback pending, no two monsters sharing a sprite), that
    monster is dead exactly if [20 * n] has reached its health: two clicks
    for 40, five for 100. *)
Theorem clicks_hit_the_same_monster
        (g : Game.t) (dir : Vector3.t) (n : nat)
        (pre : list Monster.t) (m : Monster.t) (post : list Monster.t) :
  Player.isLocked (Game.player g) = true ->
  Game.monsters g = pre ++ m :: post ->
  (forall m', In m' pre -> ~ validTarget (Player.position (Game.player g)) dir m') ->
  validTarget (Player.position (Game.player g)) dir m ->
  let g' := Game.run g (repeat (Game.MouseDown dir) n) in
  exists mn,
    Game.monsters g' = pre ++ mn :: post /\
    Monster.health mn == Monster.health m - 20 * inject_Z (Z.of_nat n) /\
    Monster.state mn = Monster.state m /\
    Monster.position mn = Monster.position m /\
    List.length (Game.timeouts g') = (List.length (Game.timeouts g) + n)%nat /\
    (Game.timeouts g = [] -> (0 < n)%nat -> NoDup (meshIds (Game.monsters g)) ->
     exists md,
       Game.monsters (Game.step g' Game.TimerFires) = pre ++ md :: post /\
       (Monster.state md = dead <-> Monster.health m <= 20 * inject_Z (Z.of_nat n))).
Proof.
  intros Hl Hms Hpre Hv g'.
  destruct (clicks g dir n pre m post Hl Hms Hpre Hv) as (mn & Hmn & Hh & Hs & Hp & Hi & Ht).
  fold g' in Hmn, Ht.
  exists mn. split; [exact Hmn|]. split; [exact Hh|]. split; [exact Hs|].
  split; [exact Hp|].
  split; [rewrite Ht, length_app, repeat_length; reflexivity|].
  intros Hnone Hn Hnd.
  exists (Monster.damageTimeout mn).
  destruct n as [|n]; [lia|].
  cbn [Game.step]. rewrite Ht, Hnone. cbn [app repeat]. cbn [Game.monsters].
  rewrite Hmn. split.
  - apply runTimeout_only; [|exact Hi].
    intros m' Hin Heq.
    rewrite Hms in Hnd. unfold meshIds in Hnd. rewrite map_app in Hnd. cbn [map] in Hnd.
    apply NoDup_remove_2 in Hnd. apply Hnd.
    rewrite <- map_app, <- Heq.
    apply (in_map (fun m0 => id (Monster.mesh m0))). exact Hin.
  - destruct (damageTimeout_later mn) as (_ & _ & Hdead & _).
    rewrite Hdead, Hs, Hh.
    destruct Hv as (Hlive & _).
    split.
    + intros [Hle | Hd]; [lra | contradiction].
    + intro Hle. left. lra.
Qed.

End ClickClaims.

(** Two clicks at two imps in line, the farther listed first: the
    farther one takes both hits and dies when the first callback runs;
    the nearer one is untouched. *)
Lemma clicks_hit_the_same_monster_witness :
  Player.isLocked (Game.player Fixture.duel) = true /\
  @validTarget Simple.three (Player.position (Game.player Fixture.duel))
               (Vector3.mk 1 0 0) Sample.farImp /\
  (exists md,
     Game.monsters
       (@Game.step Simple.three
          (@Game.run Simple.three Fixture.duel (repeat (Game.MouseDown (Vector3.mk 1 0 0)) 2))
          Game.TimerFires)
     = [md; Sample.closeImp] /\
     Monster.state md = dead).
Proof.
  assert (Hv : @validTarget Simple.three (Player.position (Game.player Fixture.duel))
                            (Vector3.mk 1 0 0) Sample.farImp).
  { split; [discriminate|]. split; vm_compute; reflexivity. }
  split; [reflexivity|]. split; [exact Hv|].
  destruct (@clicks_hit_the_same_monster Simple.three Fixture.duel (Vector3.mk 1 0 0) 2
              [] Sample.farImp [Sample.closeImp] eq_refl eq_refl)
    as (mn & _ & _ & _ & _ & _ & Hkill).
  - intros m' [].
  - exact Hv.
  - destruct Hkill as (md & Hmd & Hdead).
    + reflexivity.
    + lia.
    + apply NoDup_cons; [simpl; intros [E | []]; discriminate E|].
      apply NoDup_cons; [simpl; intros [] | apply NoDup_nil].
    + exists md. split; [exact Hmd|]. apply Hdead. vm_compute. discriminate.
Defined.

(** ** Side panels *)

Section SideFacts.

Lemma buildSide_In (L : Level.t) (x z : Z) (currentH : Q) (n : LevelSides.Side)
      (p : LevelSides.Panel) :
  In p (LevelSides.buildSide L x z currentH n) ->
  LevelSides.side p = n /\ 0 < LevelSides.panelHeight p /\
  LevelSides.width p = Level.cellSize L.
Proof.
  unfold LevelSides.buildSide.
  destruct (if Level.inGrid L (z + LevelSides.dz n) (x + LevelSides.dx n)
            then match Level.cellAt L (z + LevelSides.dz n) (x + LevelSides.dx n) with
                 | Some c => if Cell.isWall c then None else Some (Cell.height c)
                 | None => None
                 end
            else Some (-100)) as [neighborH|]; [|intros []].
  destruct (neighborH <? currentH) eqn:Hlt; [|intros []].
  intros [<- | []]. cbn. apply Qltb_true in Hlt.
  repeat split; try reflexivity. lra.
Qed.

Lemma buildSide_length (L : Level.t) (x z : Z) (currentH : Q) (n : LevelSides.Side) :
  (List.length (LevelSides.buildSide L x z currentH n) <= 1)%nat.
Proof.
  unfold LevelSides.buildSide.
  destruct (if Level.inGrid L (z + LevelSides.dz n) (x + LevelSides.dx n)
            then match Level.cellAt L (z + LevelSides.dz n) (x + LevelSides.dx n) with
                 | Some c => if Cell.isWall c then None else Some (Cell.height c)
                 | None => None
                 end
            else Some (-100)) as [neighborH|]; [|simpl; lia].
  destruct (neighborH <? currentH); simpl; lia.
Qed.

End SideFacts.

Section SideClaims.

(** X18.  [_buildSides] makes at most four panels for a cell, each of a
    positive height and [cellSize] wide, and at most one per side.  Towards
    a wall there is none.  Towards a neighbour that is not a wall, or
    towards no cell at all (the void at -100), there is one exactly when
    that floor is lower than the cell's own; the panel reaches from the
    neighbour's floor up to the cell's own floor and sits on the middle of
    the shared edge. *)
Theorem build_side_spans_the_drop (L : Level.t) (x z : Z) (currentH : Q) :
  (List.length (LevelSides._buildSides L x z currentH) <= 4)%nat /\
  (forall p, In p (LevelSides._buildSides L x z currentH) ->
             In p (LevelSides.buildSide L x z currentH (LevelSides.side p)) /\
             0 < LevelSides.panelHeight p /\
             LevelSides.width p = Level.cellSize L) /\
  forall n : LevelSides.Side,
    let nx := (x + LevelSides.dx n)%Z in
    let nz := (z + LevelSides.dz n)%Z in
    let panels := LevelSides.buildSide L x z currentH n in
    (forall p, In p panels -> In p (LevelSides._buildSides L x z currentH)) /\
    (forall c, Level.inGrid L nz nx = true -> Level.cellAt L nz nx = Some c ->
               Cell.isWall c = true -> panels = []) /\
    forall lower : Q,
      (if Level.inGrid L nz nx
       then exists c, Level.cellAt L nz nx = Some c /\ Cell.isWall c = false /\
                      lower = Cell.height c
       else lower = -100) ->
      (lower < currentH ->
       exists p,
         panels = [p] /\ LevelSides.side p = n /\
         LevelSides.width p = Level.cellSize L /\
         0 < LevelSides.panelHeight p /\
         Vector3.y (LevelSides.panelPosition p) - LevelSides.panelHeight p / 2 == lower /\
         Vector3.y (LevelSides.panelPosition p) + LevelSides.panelHeight p / 2 == currentH /\
         Vector3.x (LevelSides.panelPosition p)
         == (inject_Z x + inject_Z (LevelSides.dx n) / 2) * Level.cellSize L /\
         Vector3.z (LevelSides.panelPosition p)
         == (inject_Z z + inject_Z (LevelSides.dz n) / 2) * Level.cellSize L) /\
      (currentH <= lower -> panels = []).
Proof.
  split.
  { unfold LevelSides._buildSides, LevelSides.neighbors. cbn [flat_map].
    rewrite !length_app. cbn [List.length].
    pose proof (buildSide_length L x z currentH LevelSides.North).
    pose proof (buildSide_length L x z currentH LevelSides.South).
    pose proof (buildSide_length L x z currentH LevelSides.West).
    pose proof (buildSide_length L x z currentH LevelSides.East).
    lia. }
  split.
  { intros p Hp. unfold LevelSides._buildSides in Hp.
    apply in_flat_map in Hp. destruct Hp as (n & _ & Hp).
    destruct (buildSide_In L x z currentH n p Hp) as (Hs & Hh & Hw).
    rewrite Hs. repeat split; assumption. }
  intros n nx nz panels.
  split.
  { intros p Hp. unfold LevelSides._buildSides. apply in_flat_map.
    exists n. split; [|exact Hp].
    unfold LevelSides.neighbors. destruct n; simpl; tauto. }
  split.
  { intros c Hg Hc Hw. unfold panels, LevelSides.buildSide. fold nx nz.
    rewrite Hg, Hc, Hw. reflexivity. }
  intros lower Hn.
  unfold panels, LevelSides.buildSide. fold nx nz.
  destruct (Level.inGrid L nz nx).
  - destruct Hn as (c & -> & Hw & ->). rewrite Hw. split.
    + intro Hlt. apply Qltb_true in Hlt. rewrite Hlt.
      eexists. split; [reflexivity|]. cbn.
      apply Qltb_true in Hlt.
      repeat split; try reflexivity; try lra; field.
    + intro Hge. apply Qltb_false in Hge. now rewrite Hge.
  - subst lower. split.
    + intro Hlt. apply Qltb_true in Hlt. rewrite Hlt.
      eexists. split; [reflexivity|]. cbn.
      apply Qltb_true in Hlt.
      repeat split; try reflexivity; try lra; field.
    + intro Hge. apply Qltb_false in Hge. now rewrite Hge.
Qed.

(** The step cell (7, 2) of the map of [main.js] and the floor cell east
    of it. *)
Lemma build_side_spans_the_drop_witness :
  exists p,
    LevelSides.buildSide Fixture.level 7 2 (3 # 2) LevelSides.East = [p] /\
    LevelSides.side p = LevelSides.East /\
    LevelSides.width p = Level.cellSize Fixture.level /\
    0 < LevelSides.panelHeight p.
Proof.
  assert (Hn : if Level.inGrid Fixture.level (2 + LevelSides.dz LevelSides.East)
                               (7 + LevelSides.dx LevelSides.East)
               then exists c,
                   Level.cellAt Fixture.level (2 + LevelSides.dz LevelSides.East)
                                (7 + LevelSides.dx LevelSides.East) = Some c /\
                   Cell.isWall c = false /\ 0 = Cell.height c
               else 0 = -100).
  { vm_compute. eexists. split; [reflexivity|]. split; reflexivity. }
  assert (Hlt : 0 < 3 # 2) by reflexivity.
  destruct (proj1 (proj2 (proj2 (proj2 (proj2
                     (build_side_spans_the_drop Fixture.level 7 2 (3 # 2)))
                     LevelSides.East)) 0 Hn) Hlt)
    as (p & Hp & Hs & Hw & Hh & _).
  exists p. repeat split; assumption.
Defined.

End SideClaims.

(** ** A projectile over several frames *)

Section FlightFacts.
Context `{Three}.






End FlightFacts.

Section FlightClaims.
Context `{Three}.


End FlightClaims.

